(** * Beambell AI Receptionist: the speech-to-text session scripts

    A shallow embedding of [src/indexhighsamp.js] (the ultra-low-latency
    script) and [src/indexbefore.js] (the first script), with the properties
    of their latency statistics, transcript handler, audio forwarding, start
    and teardown.

    Modelling conventions.
    - Millisecond counts ([Date.now()], processing times, their running sum
      and the utterance count) are JavaScript numbers that hold integers; they
      are embedded as [Z].  Module [HighSamp64] gives the latency fields and
      the two methods on them with binary64 numbers and operations; the two
      agree, number by number, as long as the sum of the recorded durations
      is a safe integer (at most 2^53 - 1), and the properties of the
      statistics are stated in that range.  A recorded duration is the
      difference of two clock readings; an integer of that range is a
      binary64 number, so the subtraction that computes it is exact.
    - The one quotient the scripts compute ([totalProcessingTime /
      utteranceCount]) is embedded as IEEE 754 binary64 division, through the
      specification floats of the Standard Library, so that the two-decimal
      text that [toFixed(2)] prints is the one the script prints.
    - A handler is a computation over the [SpeechToText] object that also
      appends to a log of the calls it makes on its collaborators (the
      Deepgram connection, the microphone, the console, the process).
    - The event loop is a function from the list of delivered events to the
      final object and log; an event whose listener was never registered, or
      that arrives after [process.exit()], is not delivered. *)

From Stdlib Require Import ZArith QArith List String Ascii Bool Lia.
From Stdlib Require Import DecimalString.
From Stdlib Require Import Floats.SpecFloat.
Import ListNotations.

Local Open Scope string_scope.
Local Open Scope Z_scope.

(* ===================================================================== *)
(** ** JavaScript numbers and the built-ins the scripts call *)
(* ===================================================================== *)

Module JS.

(** A JavaScript number that is the result of a division: a binary64. *)
Definition num : Type := spec_float.

Definition prec : Z := 53.
Definition emax : Z := 1024.

(** The binary64 nearest to an integer (exact below 2^53). *)
Definition of_Z (z : Z) : num := binary_normalize prec emax z 0 false.

(** [a / b] on numbers: NaN for 0/0, an infinity for x/0. *)
Definition num_div (a b : num) : num := SFdiv prec emax a b.

(** Decimal digits of a natural number, ["0"] for zero. *)
Definition digits (n : Z) : string :=
  NilZero.string_of_uint (N.to_uint (Z.to_N n)).

(** [String(z)] / [`${z}`] for an integer-valued number. *)
Definition int_toString (z : Z) : string :=
  if z <? 0 then "-" ++ digits (- z) else digits z.

Fixpoint zeros (k : nat) : string :=
  match k with
  | O => ""
  | S k' => "0" ++ zeros k'
  end.

(** Steps 8-10 of Number.prototype.toFixed: the digits of [n], padded on
    the left to [f + 1] digits, with a point before the last [f]. *)
Definition fixed_text (f : nat) (n : Z) : string :=
  let m := digits n in
  match f with
  | O => m
  | _ =>
      let m' := zeros (S f - String.length m) ++ m in
      let k := String.length m' in
      substring 0 (k - f) m' ++ "." ++ substring (k - f) f m'
  end.

(** The integer [n] for which [n / 10^f] is nearest to [m * 2^e], the
    larger one on a tie. *)
Definition nearest_scaled (f : nat) (m : positive) (e : Z) : Z :=
  let p := Z.pos m * 10 ^ Z.of_nat f in
  if 0 <=? e then p * 2 ^ e
  else (2 * p + 2 ^ (- e)) / (2 * 2 ^ (- e)).

(** [x.toFixed(f)] for [0 <= f <= 100].  Values of magnitude 10^21 and
    more print in exponent notation in ECMAScript; an average of
    millisecond counts is far below that, and the model prints the plain
    expansion there. *)
Definition toFixed (f : nat) (x : num) : string :=
  match x with
  | S754_nan => "NaN"
  | S754_infinity false => "Infinity"
  | S754_infinity true => "-Infinity"
  | S754_zero _ => fixed_text f 0
  | S754_finite s m e =>
      (if s then "-" else "") ++ fixed_text f (nearest_scaled f m e)
  end.

(** [!v] for a field that holds [null] or a number. *)
Definition falsy (v : option Z) : bool :=
  match v with
  | None => true
  | Some t => t =? 0
  end.

(** A field that holds [null] or a number, used as an operand of [-]:
    [null] counts as 0. *)
Definition to_number (v : option Z) : Z :=
  match v with
  | None => 0
  | Some t => t
  end.

(** Truthiness of a field that holds [undefined] or a string. *)
Definition truthy_string (v : option string) : bool :=
  match v with
  | None => false
  | Some s => negb (String.eqb s "")
  end.

Definition CR : string := String (ascii_of_nat 13) EmptyString.
Definition LF : string := String (ascii_of_nat 10) EmptyString.

(** [a + b], [a > b] and [a === b] on numbers. *)
Definition num_add (a b : num) : num := SFadd prec emax a b.
Definition num_gt (a b : num) : bool := SFltb b a.
Definition num_eq (a b : num) : bool := SFeqb a b.

(** [Number.MAX_SAFE_INTEGER], 2^53 - 1: up to it, in magnitude, integers
    and their sums are binary64 numbers without rounding. *)
Definition MAX_SAFE_INTEGER : Z := 2 ^ 53 - 1.

End JS.

(* ===================================================================== *)
(** ** What a handler can do to the outside world *)
(* ===================================================================== *)

(** The options object given to [deepgram.listen.live].  [sample_rate] is a
    number in one script and a string in the other; [punctuate] is absent
    from one of them. *)
Variant jsval : Type :=
| JNum (n : Z)
| JStr (s : string).

Record LiveConfig : Type := mkLiveConfig {
  encoding : string;
  sample_rate : jsval;
  channels : Z;
  model : string;
  smart_format : bool;
  punctuate : option bool;
  interim_results : bool;
  endpointing : Z;
  utterance_end_ms : Z
}.

(** The options object given to [new Microphone]. *)
Record MicConfig : Type := mkMicConfig {
  rate : Z;
  mic_channels : Z;
  mic_encoding : string;
  device : string;
  exitOnSilence : Z
}.

(** Console text: the [colors] package wraps a piece of text in a colour. *)
Variant colour : Type := Plain | Red | Green | Yellow | Blue | Magenta | Cyan.

Definition text : Type := list (colour * string).

Definition chunk : Type := list Byte.byte.

(** [LiveTranscriptionEvents] and the events of the microphone stream. *)
Module LiveTranscriptionEvents.
Variant t : Type := Open | Transcript | Error | Close.

Definition eqb (a b : t) : bool :=
  match a, b with
  | Open, Open | Transcript, Transcript | Error, Error | Close, Close => true
  | _, _ => false
  end.
End LiveTranscriptionEvents.

Variant stream_event : Type := Data | StreamError.

Definition stream_event_eqb (a b : stream_event) : bool :=
  match a, b with
  | Data, Data | StreamError, StreamError => true
  | _, _ => false
  end.

(** One call on a collaborator. *)
Variant effect : Type :=
| ListenLive (cfg : LiveConfig)        (* this.deepgram.listen.live(cfg) *)
| ConnectionOn (e : LiveTranscriptionEvents.t)       (* this.connection.on(e, handler) *)
| ConnectionSend (d : chunk)           (* this.connection.send(d) *)
| ConnectionFinish                     (* this.connection.finish() *)
| MicStartRecording                    (* this.mic.startRecording() *)
| MicStreamOn (e : stream_event)       (* this.micStream.on(e, handler) *)
| MicStopRecording                     (* this.mic.stopRecording() *)
| StdoutWrite (t : text)               (* process.stdout.write(t) *)
| ConsoleLog (t : text)                (* console.log(t) *)
| ConsoleError (t : text) (err : string) (* console.error(t, err) *)
| ProcessOn (signal : string)          (* process.on(signal, handler) *)
| ProcessExit (code : option Z).       (* process.exit(code) *)

(** The object [listen.live] returns and the stream [startRecording]
    returns; the scripts only test them against [null] and call methods on
    them. *)
Variant LiveClient : Type := live_client (cfg : LiveConfig).
Variant MicStream : Type := mic_stream.

(** The payload of a Transcript event, as far as the handler reads it:
    [transcription.channel?.alternatives], [alternatives[0]?.transcript] and
    [transcription.is_final]. *)
Record Alternative : Type := mkAlternative {
  transcript : option string
}.

Record Channel : Type := mkChannel {
  alternatives : option (list Alternative)
}.

Record Transcription : Type := mkTranscription {
  channel : option Channel;
  is_final : bool
}.

(** [transcription.channel?.alternatives] *)
Definition alternatives_of (tr : Transcription) : option (list Alternative) :=
  match channel tr with
  | None => None
  | Some c => alternatives c
  end.

(** [alternatives[0]?.transcript] *)
Definition first_transcript (alts : list Alternative) : option string :=
  match alts with
  | [] => None
  | a :: _ => transcript a
  end.

(** The text the handler goes on with: the value of
    [alternatives && alternatives[0]?.transcript] when it is truthy. *)
Definition text_of (tr : Transcription) : option string :=
  match alternatives_of tr with
  | None => None
  | Some alts =>
      if JS.truthy_string (first_transcript alts) then first_transcript alts
      else None
  end.

(* ===================================================================== *)
(** ** Handlers as computations *)
(* ===================================================================== *)

Section Handler.

Variable Obj : Type.

(** A handler body: from the object to a result, the object afterwards and
    the calls made, oldest first. *)
Definition M (A : Type) : Type := Obj -> A * Obj * list effect.

Definition ret {A} (a : A) : M A := fun s => (a, s, []).

Definition bind {A B} (c : M A) (k : A -> M B) : M B :=
  fun s =>
    let '(a, s1, o1) := c s in
    let '(b, s2, o2) := k a s1 in
    (b, s2, (o1 ++ o2)%list).

Definition this : M Obj := fun s => (s, s, []).

Definition assign (f : Obj -> Obj) : M unit := fun s => (tt, f s, []).

Definition call (e : effect) : M unit := fun s => (tt, s, [e]).

Definition when (b : bool) (c : M unit) : M unit :=
  if b then c else ret tt.

Definition state_after {A} (c : M A) (s : Obj) : Obj := snd (fst (c s)).

Definition calls_of {A} (c : M A) (s : Obj) : list effect := snd (c s).

End Handler.

Arguments ret {Obj A} a.
Arguments bind {Obj A B} c k.
Arguments this {Obj}.
Arguments assign {Obj} f.
Arguments call {Obj} e.
Arguments when {Obj} b c.
Arguments state_after {Obj A} c s.
Arguments calls_of {Obj A} c s.

Declare Scope handler_scope.
Delimit Scope handler_scope with handler.
Notation "x <- c ;; k" := (bind c (fun x => k))
  (at level 61, c at next level, right associativity) : handler_scope.
Notation "c ;; k" := (bind c (fun _ => k))
  (at level 61, right associativity) : handler_scope.

Definition isSome {A} (o : option A) : bool :=
  match o with
  | Some _ => true
  | None => false
  end.

(* ===================================================================== *)
(** ** src/indexhighsamp.js *)
(* ===================================================================== *)

Module HighSamp.

Local Open Scope handler_scope.

Definition live_options : LiveConfig :=
  {| encoding := "mulaw";
     sample_rate := JNum 11000;
     channels := 1;
     model := "nova-3";
     smart_format := false;
     punctuate := Some false;
     interim_results := true;
     endpointing := 150;
     utterance_end_ms := 1000 |}.

Definition mic_options : MicConfig :=
  {| rate := 11000;
     mic_channels := 1;
     mic_encoding := "mu-law";
     device := "default";
     exitOnSilence := 6 |}.

(** The fields of the object.  [this.deepgram], the client made from the
    API key, is read only by [start], to open the connection, and is left
    out. *)
Record SpeechToText : Type := mkSpeechToText {
  connection : option LiveClient;
  startTime : option Z;
  processingTimes : list Z;
  totalProcessingTime : Z;
  utteranceCount : Z;
  mic : MicConfig;
  micStream : option MicStream
}.

Definition with_connection (c : option LiveClient) (s : SpeechToText) :=
  mkSpeechToText c (startTime s) (processingTimes s)
    (totalProcessingTime s) (utteranceCount s) (mic s) (micStream s).

Definition with_startTime (t : option Z) (s : SpeechToText) :=
  mkSpeechToText (connection s) t (processingTimes s)
    (totalProcessingTime s) (utteranceCount s) (mic s) (micStream s).

Definition with_micStream (m : option MicStream) (s : SpeechToText) :=
  mkSpeechToText (connection s) (startTime s) (processingTimes s)
    (totalProcessingTime s) (utteranceCount s) (mic s) m.

(** [new SpeechToText()] *)
Definition constructor : SpeechToText :=
  {| connection := None;
     startTime := None;
     processingTimes := [];
     totalProcessingTime := 0;
     utteranceCount := 0;
     mic := mic_options;
     micStream := None |}.

Definition getAverageProcessingTime (s : SpeechToText) : string :=
  if utteranceCount s =? 0 then "0ms"
  else
    let average :=
      JS.num_div (JS.of_Z (totalProcessingTime s))
                 (JS.of_Z (utteranceCount s)) in
    JS.toFixed 2 average ++ "ms".

(** The three statements of the guarded block of
    [updateProcessingStats].  The two additions are those of integers;
    [HighSamp64.updateProcessingStats] has them as binary64 additions, and
    the two agree while the total is a safe integer. *)
Definition push_stats (processingTime : Z) (s : SpeechToText) :=
  mkSpeechToText (connection s) (startTime s)
    (processingTimes s ++ [processingTime])%list
    (totalProcessingTime s + processingTime)
    (utteranceCount s + 1) (mic s) (micStream s).

Definition updateProcessingStats (processingTime : Z)
  : M SpeechToText unit :=
  when (processingTime >? 0) (assign (push_stats processingTime)).

Definition final_average_line (s : SpeechToText) : effect :=
  ConsoleLog [(Magenta, "Final Average Processing Time: ");
              (Plain, getAverageProcessingTime s)].

Definition stop : M SpeechToText unit :=
  s <- this ;;
  when (isSome (micStream s))
    (call MicStopRecording ;;
     assign (with_micStream None)) ;;
  s <- this ;;
  when (isSome (connection s))
    (call ConnectionFinish) ;;
  s <- this ;;
  when (utteranceCount s >? 0)
    (call (final_average_line s)).

(** The Open listener. *)
Definition onOpen : M SpeechToText unit :=
  call (ConsoleLog [(Green, "Connection to Deepgram established")]) ;;
  call (ConsoleLog [(Yellow,
    "Starting microphone (Ultra-Low Latency Mode: 11kHz with Nova-3)...")]) ;;
  call MicStartRecording ;;
  assign (with_micStream (Some mic_stream)) ;;
  call (MicStreamOn Data) ;;
  call (MicStreamOn StreamError).

(** The [data] listener of the microphone stream; [readyState] is what
    [this.connection.getReadyState()] answers when it is asked. *)
Definition onData (d : chunk) (readyState : Z) : M SpeechToText unit :=
  s <- this ;;
  when (isSome (connection s) && (readyState =? 1))
    (call (ConnectionSend d)).

(** The [error] listener of the microphone stream. *)
Definition onMicError (err : string) : M SpeechToText unit :=
  call (ConsoleError [(Red, "Microphone Error:")] err).

(** The Transcript listener; [now1] and [now2] are what the two
    [Date.now()] calls answer. *)
Definition onTranscript (transcription : Transcription) (now1 now2 : Z)
  : M SpeechToText unit :=
  s <- this ;;
  when (JS.falsy (startTime s))
    (assign (with_startTime (Some now1))) ;;
  match text_of transcription with
  | None => ret tt
  | Some text =>
      s <- this ;;
      let processingTime := now2 - JS.to_number (startTime s) in
      if negb (is_final transcription) then
        call (StdoutWrite [(Plain, JS.CR); (Cyan, "Listening: ");
                           (Plain, text ++ "                    ")])
      else
        when (processingTime >? 0)
          (updateProcessingStats processingTime) ;;
        call (StdoutWrite [(Plain, JS.CR)]) ;;
        call (ConsoleLog [(Cyan, "ULTRA-LOW: "); (Plain, text)]) ;;
        s <- this ;;
        when (processingTime >? 0)
          (call (ConsoleLog [(Yellow, "Processing Time: ");
                             (Plain, JS.int_toString processingTime ++ "ms")]) ;;
           call (ConsoleLog [(Blue, "Average Processing Time: ");
                             (Plain, getAverageProcessingTime s)])) ;;
        call (ConsoleLog [(Plain, "------------------------")]) ;;
        assign (with_startTime None)
  end.

(** The Error listener. *)
Definition onError (err : string) : M SpeechToText unit :=
  call (ConsoleError [(Red, "Deepgram Error:")] err).

(** The Close listener. *)
Definition onClose : M SpeechToText unit :=
  call (ConsoleLog [(Yellow, "Connection to Deepgram closed")]) ;;
  s <- this ;;
  when (utteranceCount s >? 0)
    (call (final_average_line s)) ;;
  stop.

(** [start()]; [thrown] is the exception [listen.live] raises, if any. *)
Definition start (thrown : option string) : M SpeechToText unit :=
  call (ListenLive live_options) ;;
  match thrown with
  | Some err =>
      call (ConsoleError [(Red, "Error starting speech-to-text:")] err)
  | None =>
      assign (with_connection (Some (live_client live_options))) ;;
      call (ConnectionOn LiveTranscriptionEvents.Open) ;;
      call (ConnectionOn LiveTranscriptionEvents.Transcript) ;;
      call (ConnectionOn LiveTranscriptionEvents.Error) ;;
      call (ConnectionOn LiveTranscriptionEvents.Close)
  end.

(** The SIGINT listener. *)
Definition onSIGINT : M SpeechToText unit :=
  call (ConsoleLog [(Plain, JS.LF ++ "Stopping transcription...")]) ;;
  stop ;;
  call (ProcessExit None).

End HighSamp.

(* ===================================================================== *)
(** ** src/indexbefore.js *)
(* ===================================================================== *)

Module Before.

Local Open Scope handler_scope.

Definition live_options : LiveConfig :=
  {| encoding := "mulaw";
     sample_rate := JStr "8000";
     channels := 1;
     model := "nova-2";
     smart_format := true;
     punctuate := None;
     interim_results := true;
     endpointing := 200;
     utterance_end_ms := 1000 |}.

Definition mic_options : MicConfig :=
  {| rate := 8000;
     mic_channels := 1;
     mic_encoding := "mu-law";
     device := "default";
     exitOnSilence := 6 |}.

Record SpeechToText : Type := mkSpeechToText {
  connection : option LiveClient;
  startTime : option Z;
  mic : MicConfig;
  micStream : option MicStream
}.

Definition with_connection (c : option LiveClient) (s : SpeechToText) :=
  mkSpeechToText c (startTime s) (mic s) (micStream s).

Definition with_startTime (t : option Z) (s : SpeechToText) :=
  mkSpeechToText (connection s) t (mic s) (micStream s).

Definition with_micStream (m : option MicStream) (s : SpeechToText) :=
  mkSpeechToText (connection s) (startTime s) (mic s) m.

(** [new SpeechToText()] *)
Definition constructor : SpeechToText :=
  {| connection := None;
     startTime := None;
     mic := mic_options;
     micStream := None |}.

Definition stop : M SpeechToText unit :=
  s <- this ;;
  when (isSome (micStream s))
    (call MicStopRecording ;;
     assign (with_micStream None)) ;;
  s <- this ;;
  when (isSome (connection s))
    (call ConnectionFinish).

(** The Open listener. *)
Definition onOpen : M SpeechToText unit :=
  call (ConsoleLog [(Green, "Connection to Deepgram established")]) ;;
  call (ConsoleLog [(Yellow, "Starting microphone...")]) ;;
  call MicStartRecording ;;
  assign (with_micStream (Some mic_stream)) ;;
  call (MicStreamOn Data) ;;
  call (MicStreamOn StreamError).

(** The [data] listener of the microphone stream. *)
Definition onData (d : chunk) (readyState : Z) : M SpeechToText unit :=
  s <- this ;;
  when (isSome (connection s) && (readyState =? 1))
    (call (ConnectionSend d)).

(** The [error] listener of the microphone stream. *)
Definition onMicError (err : string) : M SpeechToText unit :=
  call (ConsoleError [(Red, "Microphone Error:")] err).

(** The Transcript listener. *)
Definition onTranscript (transcription : Transcription) (now1 now2 : Z)
  : M SpeechToText unit :=
  s <- this ;;
  when (JS.falsy (startTime s))
    (assign (with_startTime (Some now1))) ;;
  match text_of transcription with
  | None => ret tt
  | Some text =>
      s <- this ;;
      let processingTime := now2 - JS.to_number (startTime s) in
      if negb (is_final transcription) then
        call (StdoutWrite [(Plain, JS.CR); (Cyan, "Listening: ");
                           (Plain, text ++ "                    ")])
      else
        call (StdoutWrite [(Plain, JS.CR)]) ;;
        call (ConsoleLog [(Green, "FINAL: "); (Plain, text)]) ;;
        call (ConsoleLog [(Yellow, "Processing Time: ");
                          (Plain, JS.int_toString processingTime ++ "ms")]) ;;
        call (ConsoleLog [(Plain, "------------------------")]) ;;
        assign (with_startTime None)
  end.

(** The Error listener. *)
Definition onError (err : string) : M SpeechToText unit :=
  call (ConsoleError [(Red, "Deepgram Error:")] err).

(** The Close listener. *)
Definition onClose : M SpeechToText unit :=
  call (ConsoleLog [(Yellow, "Connection to Deepgram closed")]) ;;
  stop.

(** [start()]; [thrown] is the exception [listen.live] raises, if any. *)
Definition start (thrown : option string) : M SpeechToText unit :=
  call (ListenLive live_options) ;;
  match thrown with
  | Some err =>
      call (ConsoleError [(Red, "Error starting speech-to-text:")] err)
  | None =>
      assign (with_connection (Some (live_client live_options))) ;;
      call (ConnectionOn LiveTranscriptionEvents.Open) ;;
      call (ConnectionOn LiveTranscriptionEvents.Transcript) ;;
      call (ConnectionOn LiveTranscriptionEvents.Error) ;;
      call (ConnectionOn LiveTranscriptionEvents.Close)
  end.

(** The SIGINT listener. *)
Definition onSIGINT : M SpeechToText unit :=
  stop ;;
  call (ProcessExit None).

End Before.

(* ===================================================================== *)
(** ** The latency statistics of src/indexhighsamp.js, number by number *)
(* ===================================================================== *)

(** The three latency fields and the two methods on them, with every
    number a binary64 and every operation the one of JavaScript.  Module
    [HighSamp] holds the same fields as integers; the two agree as long as
    the sum of the recorded durations is a safe integer. *)
Module HighSamp64.

Definition zero : JS.num := JS.of_Z 0.
Definition one : JS.num := JS.of_Z 1.

Record LatencyFields : Type := mkLatencyFields {
  processingTimes : list JS.num;
  totalProcessingTime : JS.num;
  utteranceCount : JS.num
}.

(** The fields as the constructor leaves them. *)
Definition constructor : LatencyFields :=
  {| processingTimes := [];
     totalProcessingTime := zero;
     utteranceCount := zero |}.

Definition getAverageProcessingTime (s : LatencyFields) : string :=
  if JS.num_eq (utteranceCount s) zero then "0ms"
  else
    let average := JS.num_div (totalProcessingTime s) (utteranceCount s) in
    JS.toFixed 2 average ++ "ms".

Definition updateProcessingStats (processingTime : JS.num)
  (s : LatencyFields) : LatencyFields :=
  if JS.num_gt processingTime zero then
    {| processingTimes := (processingTimes s ++ [processingTime])%list;
       totalProcessingTime := JS.num_add (totalProcessingTime s) processingTime;
       utteranceCount := JS.num_add (utteranceCount s) one |}
  else s.

End HighSamp64.

(* ===================================================================== *)
(** ** The event loop *)
(* ===================================================================== *)

(** What the environment can deliver to a running script. *)
Variant event : Type :=
| OpenEvent
| MicData (d : chunk) (readyState : Z)
| MicError (err : string)
| TranscriptEvent (transcription : Transcription) (now1 now2 : Z)
| ErrorEvent (err : string)
| CloseEvent
| SIGINT.

(** A script: its object, its top-level statements and its listeners. *)
Record Script : Type := mkScript {
  object : Type;
  new : object;
  start : option string -> M object unit;
  onOpen : M object unit;
  onData : chunk -> Z -> M object unit;
  onMicError : string -> M object unit;
  onTranscript : Transcription -> Z -> Z -> M object unit;
  onError : string -> M object unit;
  onClose : M object unit;
  onSIGINT : M object unit
}.

Definition highsamp : Script :=
  {| object := HighSamp.SpeechToText;
     new := HighSamp.constructor;
     start := HighSamp.start;
     onOpen := HighSamp.onOpen;
     onData := HighSamp.onData;
     onMicError := HighSamp.onMicError;
     onTranscript := HighSamp.onTranscript;
     onError := HighSamp.onError;
     onClose := HighSamp.onClose;
     onSIGINT := HighSamp.onSIGINT |}.

Definition before : Script :=
  {| object := Before.SpeechToText;
     new := Before.constructor;
     start := Before.start;
     onOpen := Before.onOpen;
     onData := Before.onData;
     onMicError := Before.onMicError;
     onTranscript := Before.onTranscript;
     onError := Before.onError;
     onClose := Before.onClose;
     onSIGINT := Before.onSIGINT |}.

Definition listens_connection (e : LiveTranscriptionEvents.t)
  (log : list effect) : bool :=
  existsb (fun c => match c with
                    | ConnectionOn e' => LiveTranscriptionEvents.eqb e e'
                    | _ => false
                    end) log.

Definition listens_stream (e : stream_event) (log : list effect) : bool :=
  existsb (fun c => match c with
                    | MicStreamOn e' => stream_event_eqb e e'
                    | _ => false
                    end) log.

Definition listens_process (signal : string) (log : list effect) : bool :=
  existsb (fun c => match c with
                    | ProcessOn sg => String.eqb signal sg
                    | _ => false
                    end) log.

Definition exited (log : list effect) : bool :=
  existsb (fun c => match c with
                    | ProcessExit _ => true
                    | _ => false
                    end) log.

Section Loop.

Variable P : Script.

(** The listener an event runs, if one was registered for it. *)
Definition listener (ev : event) (log : list effect)
  : option (M (object P) unit) :=
  match ev with
  | OpenEvent =>
      if listens_connection LiveTranscriptionEvents.Open log
      then Some (onOpen P) else None
  | MicData d readyState =>
      if listens_stream Data log
      then Some (onData P d readyState) else None
  | MicError err =>
      if listens_stream StreamError log
      then Some (onMicError P err) else None
  | TranscriptEvent tr now1 now2 =>
      if listens_connection LiveTranscriptionEvents.Transcript log
      then Some (onTranscript P tr now1 now2) else None
  | ErrorEvent err =>
      if listens_connection LiveTranscriptionEvents.Error log
      then Some (onError P err) else None
  | CloseEvent =>
      if listens_connection LiveTranscriptionEvents.Close log
      then Some (onClose P) else None
  | SIGINT =>
      if listens_process "SIGINT" log
      then Some (onSIGINT P) else None
  end.

(** A process: the object [stt] and everything done so far. *)
Definition process : Type := object P * list effect.

Definition deliver (st : process) (ev : event) : process :=
  let (s, log) := st in
  if exited log then st
  else
    match listener ev log with
    | None => st
    | Some h => (state_after h s, (log ++ calls_of h s)%list)
    end.

(** The top-level statements: [const stt = new SpeechToText();
    stt.start(); process.on('SIGINT', ...)]. *)
Definition main (thrown : option string) : process :=
  let body := bind (start P thrown) (fun _ => call (ProcessOn "SIGINT")) in
  (state_after body (new P), calls_of body (new P)).

Definition run (thrown : option string) (evs : list event) : process :=
  fold_left deliver evs (main thrown).

End Loop.


(* ===================================================================== *)
(** ** src/mic-test.js *)
(* ===================================================================== *)

Module MicTest.

(** One call of the test script on a collaborator. *)
Variant call : Type :=
| Log (line : string)                  (* console.log(line) *)
| LogError (label err : string)        (* console.error(label, err) *)
| NewMicrophone                        (* new Microphone() *)
| CreateWriteStream (path : string)    (* fs.createWriteStream(path) *)
| StartRecording                       (* mic.startRecording() *)
| StreamOn (e : stream_event)          (* micStream.on(e, listener) *)
| SetTimeout (ms : Z)                  (* setTimeout(callback, ms) *)
| Write (d : chunk)                    (* outputFile.write(d) *)
| EndFile                              (* outputFile.end() *)
| StopRecording.                       (* mic.stopRecording() *)

(** [`Received ${dataCount} chunks of audio data`] *)
Definition received (dataCount : Z) : string :=
  "Received " ++ JS.int_toString dataCount ++ " chunks of audio data".

(** The [data] listener; the state of the script is [dataCount]. *)
Definition onData (d : chunk) (dataCount : Z) : Z * list call :=
  let dataCount := dataCount + 1 in
  (dataCount,
   ((if Z.rem dataCount 10 =? 0 then [Log (received dataCount)] else [])
    ++ [Write d])%list).

(** The [error] listener. *)
Definition onError (err : string) (dataCount : Z) : Z * list call :=
  (dataCount, [LogError "Microphone Error:" err]).

(** The callback given to [setTimeout]. *)
Definition onTimeout (dataCount : Z) : Z * list call :=
  (dataCount,
   [Log ("Test complete. " ++ received dataCount);
    StopRecording;
    EndFile;
    Log "Microphone test complete. Check mic-test.raw for recorded audio."]).

(** The top-level statements, with [dataCount] as they leave it. *)
Definition main : Z * list call :=
  (0,
   [Log "Starting microphone test...";
    NewMicrophone;
    CreateWriteStream "mic-test.raw";
    Log "Starting recording...";
    StartRecording;
    StreamOn Data;
    StreamOn StreamError;
    Log "Recording for 5 seconds...";
    SetTimeout 5000]).

(** What the environment delivers: a chunk or an error of the microphone
    stream, or the expiry of the timer. *)
Variant event : Type :=
| Chunk (d : chunk)
| Failure (err : string)
| Timer.

(** The running script: [dataCount], the calls so far, and whether the
    timer has fired (a [setTimeout] callback runs once). *)
Record process : Type := mkProcess {
  dataCount : Z;
  log : list call;
  fired : bool
}.

Definition started : process :=
  {| dataCount := fst main; log := snd main; fired := false |}.

Definition after (p : process) (r : Z * list call) (timer : bool)
  : process :=
  {| dataCount := fst r;
     log := (log p ++ snd r)%list;
     fired := fired p || timer |}.

(** Both stream listeners are registered by the top-level statements,
    before any event can arrive. *)
Definition deliver (p : process) (ev : event) : process :=
  match ev with
  | Chunk d => after p (onData d (dataCount p)) false
  | Failure err => after p (onError err (dataCount p)) false
  | Timer =>
      if fired p then p else after p (onTimeout (dataCount p)) true
  end.

Definition run (evs : list event) : process := fold_left deliver evs started.

End MicTest.

(* ===================================================================== *)
(** ** Vocabulary of the properties *)
(* ===================================================================== *)

(** Recording a sequence of durations, one [updateProcessingStats] call
    each. *)
Definition record_all (D : list Z) (s : HighSamp.SpeechToText)
  : HighSamp.SpeechToText :=
  fold_left (fun s d => state_after (HighSamp.updateProcessingStats d) s) D s.

Definition sum_list (D : list Z) : Z := fold_right Z.add 0 D.

(** The arithmetic mean of a sequence of integers, 0 for the empty one. *)
Definition mean (D : list Z) : Q :=
  match D with
  | [] => 0%Q
  | _ => Qmake (sum_list D) (Pos.of_nat (List.length D))
  end.

(** The invariant of the latency statistics. *)
Definition stats_invariant (s : HighSamp.SpeechToText) : Prop :=
  HighSamp.utteranceCount s = Z.of_nat (List.length (HighSamp.processingTimes s)) /\
  HighSamp.totalProcessingTime s = sum_list (HighSamp.processingTimes s) /\
  Forall (fun d => 0 < d) (HighSamp.processingTimes s).

Definition digit_of (c : ascii) : option Z :=
  let n := Z.of_nat (nat_of_ascii c) in
  if (48 <=? n) && (n <=? 57) then Some (n - 48) else None.

(** The number a text such as ["1.33ms"] or ["0ms"] denotes: [acc] is the
    value of the digits read so far, [scale] the power of ten by which the
    digits after the point have to be divided. *)
Fixpoint read_ms (t : string) (acc : Z) (scale : option positive)
  : option Q :=
  match t with
  | EmptyString => None
  | String c rest =>
      match digit_of c with
      | Some d =>
          read_ms rest (10 * acc + d) (option_map (Pos.mul 10) scale)
      | None =>
          if Ascii.eqb c "."%char then
            match scale with
            | None => read_ms rest acc (Some 1%positive)
            | Some _ => None
            end
          else if String.eqb t "ms" then
            Some (Qmake acc (match scale with Some p => p | None => 1 end))
          else None
      end
  end.

Definition milliseconds_of_text (t : string) : option Q := read_ms t 0 None.

(** Counting calls in a log. *)
Definition count_calls (p : effect -> bool) (log : list effect) : nat :=
  List.length (filter p log).

Definition is_mic_stop (e : effect) : bool :=
  match e with MicStopRecording => true | _ => false end.

Definition is_mic_start (e : effect) : bool :=
  match e with MicStartRecording => true | _ => false end.

Definition is_finish (e : effect) : bool :=
  match e with ConnectionFinish => true | _ => false end.

Definition is_listen_live (e : effect) : bool :=
  match e with ListenLive _ => true | _ => false end.

Definition is_subscription (e : effect) : bool :=
  match e with ConnectionOn _ | MicStreamOn _ => true | _ => false end.

(** The final latency summary line. *)
Definition is_summary (e : effect) : bool :=
  match e with
  | ConsoleLog ((Magenta, label) :: _) =>
      String.eqb label "Final Average Processing Time: "
  | _ => false
  end.

(** The report of a failed start. *)
Definition is_startup_error (e : effect) : bool :=
  match e with
  | ConsoleError [(Red, label)] _ =>
      String.eqb label "Error starting speech-to-text:"
  | _ => false
  end.

(** The status the process ends with at a [process.exit(code)] call: the
    argument, or else [process.exitCode], which no script sets and which
    then counts as 0. *)
Definition exit_status (code : option Z) : Z :=
  match code with
  | Some c => c
  | None => 0
  end.

Fixpoint exit_statuses (log : list effect) : list Z :=
  match log with
  | [] => []
  | ProcessExit code :: rest => exit_status code :: exit_statuses rest
  | _ :: rest => exit_statuses rest
  end.

(** The calls that do not depend on the options of the script nor on what
    it prints with [console.log]. *)
Definition common (e : effect) : bool :=
  match e with
  | ListenLive _ | ConsoleLog _ => false
  | _ => true
  end.

(** Erasing the options and the label (the first piece of each printed
    text), to compare two logs up to them. *)
Definition unlabel (e : effect) : effect :=
  match e with
  | ListenLive _ => ListenLive Before.live_options
  | ConsoleLog t => ConsoleLog (tl t)
  | StdoutWrite t => StdoutWrite (tl t)
  | ConsoleError t err => ConsoleError (tl t) err
  | _ => e
  end.

(** What the two objects have in common: whether a connection exists, the
    start of the current utterance, the microphone stream. *)
Definition same_session (h : HighSamp.SpeechToText) (b : Before.SpeechToText)
  : Prop :=
  isSome (HighSamp.connection h) = isSome (Before.connection b) /\
  HighSamp.startTime h = Before.startTime b /\
  HighSamp.micStream h = Before.micStream b.

Definition is_sigint (ev : event) : bool :=
  match ev with SIGINT => true | _ => false end.

(** An event that can reach the script before the channel is ready. *)
Definition before_ready (ev : event) : bool :=
  match ev with
  | OpenEvent | TranscriptEvent _ _ _ => false
  | _ => true
  end.

(** The latency fields of the object. *)
Definition stats_of (s : HighSamp.SpeechToText) : list Z * Z * Z :=
  (HighSamp.processingTimes s, HighSamp.totalProcessingTime s,
   HighSamp.utteranceCount s).

(** The object after the first statement of the Transcript listener:
    [if (!this.startTime) this.startTime = Date.now()]. *)
Definition anchored (now1 : Z) (s : HighSamp.SpeechToText)
  : HighSamp.SpeechToText :=
  if JS.falsy (HighSamp.startTime s)
  then HighSamp.with_startTime (Some now1) s else s.

Definition anchored_before (now1 : Z) (s : Before.SpeechToText)
  : Before.SpeechToText :=
  if JS.falsy (Before.startTime s)
  then Before.with_startTime (Some now1) s else s.

(** [processingTime] as the Transcript listener computes it:
    [Date.now() - this.startTime]. *)
Definition elapsed (now1 now2 : Z) (s : HighSamp.SpeechToText) : Z :=
  now2 - JS.to_number (HighSamp.startTime (anchored now1 s)).

(** Sample payloads. *)
Definition said (final : bool) (words : string) : Transcription :=
  {| channel := Some {| alternatives := Some [ {| transcript := Some words |} ] |};
     is_final := final |}.

Definition no_alternatives : Transcription :=
  {| channel := Some {| alternatives := Some [] |}; is_final := true |}.

(** The events of a run up to and including the first SIGINT. *)
Fixpoint until_exit (evs : list event) : list event :=
  match evs with
  | [] => []
  | SIGINT :: _ => [SIGINT]
  | ev :: rest => ev :: until_exit rest
  end.

Definition is_teardown (ev : event) : bool :=
  match ev with CloseEvent | SIGINT => true | _ => false end.

Definition is_open (ev : event) : bool :=
  match ev with OpenEvent => true | _ => false end.

Definition is_error_event (ev : event) : bool :=
  match ev with ErrorEvent _ | MicError _ => true | _ => false end.

(** A final Transcript event in which the listener finds text. *)
Definition is_final_with_text (ev : event) : bool :=
  match ev with
  | TranscriptEvent tr _ _ => is_final tr && isSome (text_of tr)
  | _ => false
  end.

Definition count_events (p : event -> bool) (evs : list event) : nat :=
  List.length (filter p evs).

Definition is_console_error (e : effect) : bool :=
  match e with ConsoleError _ _ => true | _ => false end.

(** The running-average line of the ultra-low-latency script. *)
Definition is_average_line (e : effect) : bool :=
  match e with
  | ConsoleLog ((Blue, label) :: _) =>
      String.eqb label "Average Processing Time: "
  | _ => false
  end.

(** The calls on the connection, the microphone and the process, without
    the chunks sent. *)
Definition is_resource (e : effect) : bool :=
  match e with
  | ListenLive _ | ConnectionOn _ | ConnectionFinish | MicStartRecording
  | MicStreamOn _ | MicStopRecording | ProcessOn _ | ProcessExit _ => true
  | _ => false
  end.

(** What [stop()] releases on a given object. *)
Definition stop_resources (stream connected : bool) : list effect :=
  ((if stream then [MicStopRecording] else []) ++
   (if connected then [ConnectionFinish] else []))%list.


(** Vocabulary for the microphone test. *)
Definition count_chunks (evs : list MicTest.event) : Z :=
  Z.of_nat (List.length
              (filter (fun ev => match ev with
                                 | MicTest.Chunk _ => true
                                 | _ => false
                                 end) evs)).

Fixpoint chunks_of (evs : list MicTest.event) : list chunk :=
  match evs with
  | [] => []
  | MicTest.Chunk d :: rest => d :: chunks_of rest
  | _ :: rest => chunks_of rest
  end.

Fixpoint writes_of (log : list MicTest.call) : list chunk :=
  match log with
  | [] => []
  | MicTest.Write d :: rest => d :: writes_of rest
  | _ :: rest => writes_of rest
  end.

Definition is_progress (c : MicTest.call) : bool :=
  match c with
  | MicTest.Log line => String.prefix "Received " line
  | _ => false
  end.

Definition is_timer (ev : MicTest.event) : bool :=
  match ev with MicTest.Timer => true | _ => false end.

Definition is_stop_recording (c : MicTest.call) : bool :=
  match c with MicTest.StopRecording => true | _ => false end.

Definition is_end_file (c : MicTest.call) : bool :=
  match c with MicTest.EndFile => true | _ => false end.

(** The calls on the microphone, the connection and the process that a
    sequence of events leads to once [start()] has opened the connection;
    [stream] tells whether [micStream] holds a stream. *)
Fixpoint resource_trace (stream : bool) (evs : list event) : list effect :=
  match evs with
  | [] => []
  | OpenEvent :: rest =>
      [MicStartRecording; MicStreamOn Data; MicStreamOn StreamError]
      ++ resource_trace true rest
  | CloseEvent :: rest =>
      stop_resources stream true ++ resource_trace false rest
  | SIGINT :: _ =>
      stop_resources stream true ++ [ProcessExit None]
  | _ :: rest => resource_trace stream rest
  end%list.

(** A process whose connection is open and whose listeners are all
    registered. *)
Definition live (P : Script) (connected : object P -> bool)
  (st : process P) : Prop :=
  connected (fst st) = true /\
  listens_connection LiveTranscriptionEvents.Open (snd st) = true /\
  listens_connection LiveTranscriptionEvents.Close (snd st) = true /\
  listens_process "SIGINT" (snd st) = true.

(** Every call but an error report. *)
Definition quiet (e : effect) : bool := negb (is_console_error e).

Definition not_error_event (ev : event) : bool := negb (is_error_event ev).

(** How the statistics of [s'] extend those of [s] by the durations
    [more]. *)
Definition extends_by (more : list Z) (s s' : HighSamp.SpeechToText) : Prop :=
  HighSamp.processingTimes s' = (HighSamp.processingTimes s ++ more)%list /\
  HighSamp.totalProcessingTime s'
    = HighSamp.totalProcessingTime s + sum_list more /\
  HighSamp.utteranceCount s'
    = HighSamp.utteranceCount s + Z.of_nat (List.length more).

(** The progress line the microphone test prints at its [i]-th multiple
    of ten chunks. *)
Definition progress_line (i : nat) : MicTest.call :=
  MicTest.Log (MicTest.received (10 * Z.of_nat i)).

(** The chunks sent to the connection, oldest first. *)
Fixpoint sends_of (log : list effect) : list chunk :=
  match log with
  | [] => []
  | ConnectionSend d :: rest => d :: sends_of rest
  | _ :: rest => sends_of rest
  end.

(** The chunks of the data events that arrive after the first Open event
    and before the first SIGINT with a ready state of 1; [listening] tells
    whether an Open event has been seen. *)
Fixpoint forwarded (listening : bool) (evs : list event) : list chunk :=
  match evs with
  | [] => []
  | OpenEvent :: rest => forwarded true rest
  | SIGINT :: _ => []
  | MicData d readyState :: rest =>
      (if listening && (readyState =? 1) then [d] else [])
      ++ forwarded listening rest
  | _ :: rest => forwarded listening rest
  end%list.

(** An integer that a number holds without rounding. *)
Definition safe_integer (z : Z) : Prop :=
  - JS.MAX_SAFE_INTEGER <= z <= JS.MAX_SAFE_INTEGER.

(** The integer a number is, if it is one. *)
Definition integer_value (x : JS.num) : option Z :=
  match x with
  | S754_zero _ => Some 0
  | S754_finite s m e =>
      if 0 <=? e then Some (cond_Zopp s (Z.pos m * 2 ^ e))
      else if (Z.pos m) mod 2 ^ (- e) =? 0
           then Some (cond_Zopp s (Z.pos m / 2 ^ (- e)))
           else None
  | _ => None
  end.

(** The latency fields of an object as numbers. *)
Definition as_numbers (s : HighSamp.SpeechToText) : HighSamp64.LatencyFields :=
  {| HighSamp64.processingTimes := map JS.of_Z (HighSamp.processingTimes s);
     HighSamp64.totalProcessingTime := JS.of_Z (HighSamp.totalProcessingTime s);
     HighSamp64.utteranceCount := JS.of_Z (HighSamp.utteranceCount s) |}.

(** Recording a sequence of numbers, one [updateProcessingStats] call
    each. *)
Definition record_all64 (D : list JS.num) (s : HighSamp64.LatencyFields)
  : HighSamp64.LatencyFields :=
  fold_left (fun s d => HighSamp64.updateProcessingStats d s) D s.

(** The invariant of the latency statistics, read on the numbers: the
    recorded durations are integers greater than 0, the count is their
    number and the total is their sum. *)
Definition stats_invariant64 (s : HighSamp64.LatencyFields) : Prop :=
  exists values : list Z,
    map integer_value (HighSamp64.processingTimes s) = map Some values /\
    integer_value (HighSamp64.utteranceCount s)
      = Some (Z.of_nat (List.length values)) /\
    integer_value (HighSamp64.totalProcessingTime s)
      = Some (sum_list values) /\
    Forall (fun d => 0 < d) values.

(** The binary64 of a non-zero integer of at most 53 binary digits, with
    sign [s] and magnitude [p]: the mantissa is [p] shifted to 53 digits. *)
Definition canon (s : bool) (p : positive) : JS.num :=
  match Z.pos (digits2_pos p) - 53 with
  | Zneg n => S754_finite s (Pos.iter xO p n) (Zneg n)
  | _ => S754_finite s p 0
  end.

(** A finite number greater than 0 whose value is below [bound]. *)
Definition positive_below (bound : Z) (x : JS.num) : bool :=
  match x with
  | S754_finite false m e =>
      if 0 <=? e then Z.pos m * 2 ^ e <? bound
      else Z.pos m <? bound * 2 ^ (- e)
  | _ => false
  end.

(** The status a process ends with, given the calls it made: that of its
    first [process.exit] call; or, when it ends without such a call because
    nothing is left for it to wait for, [process.exitCode], which neither
    script sets: 0. *)
Definition end_status (log : list effect) : Z :=
  hd (exit_status None) (exit_statuses log).

(** [console.log(`${colors.yellow('Processing Time: ')}${processingTime}ms`)] *)
Definition time_line (processingTime : Z) : effect :=
  ConsoleLog [(Yellow, "Processing Time: ");
              (Plain, JS.int_toString processingTime ++ "ms")].

(** How the log of the ultra-low-latency script (left) differs from the log
    of the first script (right) on the same start and events: call by call
    the same, but for the options given to [listen.live], the line printed
    when the microphone starts, the label and colour of the final
    transcript line, the processing-time line that only the first script
    prints when the time is not greater than 0, and the running-average,
    summary and stopping lines that only the ultra-low-latency script
    prints. *)
Inductive differ_as_listed : list effect -> list effect -> Prop :=
| listed_end : differ_as_listed [] []
| listed_same (e : effect) (lh lb : list effect) :
    differ_as_listed lh lb -> differ_as_listed (e :: lh) (e :: lb)
| listed_options (lh lb : list effect) :
    differ_as_listed lh lb ->
    differ_as_listed (ListenLive HighSamp.live_options :: lh)
                     (ListenLive Before.live_options :: lb)
| listed_microphone_line (lh lb : list effect) :
    differ_as_listed lh lb ->
    differ_as_listed
      (ConsoleLog [(Yellow,
         "Starting microphone (Ultra-Low Latency Mode: 11kHz with Nova-3)...")]
       :: lh)
      (ConsoleLog [(Yellow, "Starting microphone...")] :: lb)
| listed_final_label (words : string) (lh lb : list effect) :
    differ_as_listed lh lb ->
    differ_as_listed
      (ConsoleLog [(Cyan, "ULTRA-LOW: "); (Plain, words)] :: lh)
      (ConsoleLog [(Green, "FINAL: "); (Plain, words)] :: lb)
| listed_time_omitted (processingTime : Z) (lh lb : list effect) :
    processingTime <= 0 ->
    differ_as_listed lh lb ->
    differ_as_listed lh (time_line processingTime :: lb)
| listed_average (average : string) (lh lb : list effect) :
    differ_as_listed lh lb ->
    differ_as_listed
      (ConsoleLog [(Blue, "Average Processing Time: "); (Plain, average)]
       :: lh) lb
| listed_summary (average : string) (lh lb : list effect) :
    differ_as_listed lh lb ->
    differ_as_listed
      (ConsoleLog [(Magenta, "Final Average Processing Time: ");
                   (Plain, average)] :: lh) lb
| listed_stopping (lh lb : list effect) :
    differ_as_listed lh lb ->
    differ_as_listed
      (ConsoleLog [(Plain, JS.LF ++ "Stopping transcription...")] :: lh) lb.

(** The chunks passed to [outputFile.write] before [outputFile.end()] is
    called, and the chunks that arrive before the timer fires. *)
Fixpoint open_writes (log : list MicTest.call) : list chunk :=
  match log with
  | [] => []
  | MicTest.Write d :: rest => d :: open_writes rest
  | MicTest.EndFile :: _ => []
  | _ :: rest => open_writes rest
  end.

Fixpoint chunks_before_timer (evs : list MicTest.event) : list chunk :=
  match evs with
  | [] => []
  | MicTest.Chunk d :: rest => d :: chunks_before_timer rest
  | MicTest.Timer :: _ => []
  | _ :: rest => chunks_before_timer rest
  end.

(** The chunks passed to [outputFile.write] after [outputFile.end()] has
    been called, and the chunks that arrive after the timer has fired. *)
Fixpoint late_writes (log : list MicTest.call) : list chunk :=
  match log with
  | [] => []
  | MicTest.EndFile :: rest => writes_of rest
  | _ :: rest => late_writes rest
  end.

Fixpoint chunks_after_timer (evs : list MicTest.event) : list chunk :=
  match evs with
  | [] => []
  | MicTest.Timer :: rest => chunks_of rest
  | _ :: rest => chunks_after_timer rest
  end.

(** Proof steps shared by the handler lemmas. *)

(** Unfolding the plumbing of a handler body, and nothing else. *)
Ltac handler_steps :=
  cbv beta iota delta
    [bind when this assign call ret state_after calls_of fst snd].

Ltac handler_cases :=
  handler_steps;
  repeat match goal with
         | |- context [if ?b then _ else _] =>
             destruct b eqn:?; handler_steps
         | |- context [match ?o with Some _ => _ | None => _ end] =>
             destruct o eqn:?; handler_steps
         end.

(** Case analysis on a hypothesis about the calls of a handler. *)
Ltac calls_cases H :=
  repeat match type of H with
         | context [if ?b then _ else _] => destruct b eqn:?
         | context [match ?o with Some _ => _ | None => _ end] =>
             destruct o eqn:?
         end;
  simpl in H; intuition (try discriminate).

(* ===================================================================== *)
(** ** The latency statistics *)
(* ===================================================================== *)

Section Stats.

Import HighSamp.

Lemma update_positive (d : Z) (s : SpeechToText) :
  0 < d -> updateProcessingStats d s = (tt, push_stats d s, []).
Proof.
  intros Hd. unfold updateProcessingStats, when.
  destruct (Z.gtb_spec d 0); [reflexivity | lia].
Qed.

Lemma update_nonpositive (d : Z) (s : SpeechToText) :
  d <= 0 -> updateProcessingStats d s = (tt, s, []).
Proof.
  intros Hd. unfold updateProcessingStats, when.
  destruct (Z.gtb_spec d 0); [lia | reflexivity].
Qed.

Lemma sum_list_app (D E : list Z) :
  sum_list (D ++ E) = sum_list D + sum_list E.
Proof.
  induction D as [| d D IH]; simpl; [reflexivity | rewrite IH; lia].
Qed.

Lemma push_stats_invariant (d : Z) (s : SpeechToText) :
  0 < d -> stats_invariant s -> stats_invariant (push_stats d s).
Proof.
  intros Hd (Hc & Ht & Hp). unfold stats_invariant; simpl.
  rewrite length_app, sum_list_app, Hc, Ht; simpl.
  repeat split; [lia | lia |].
  apply Forall_app; split; [assumption | constructor; [assumption | constructor]].
Qed.

Lemma update_invariant (d : Z) (s : SpeechToText) :
  stats_invariant s ->
  stats_invariant (state_after (updateProcessingStats d) s).
Proof.
  intros Hs. unfold state_after.
  destruct (Z.lt_ge_cases 0 d) as [Hd | Hd].
  - rewrite update_positive by assumption. now apply push_stats_invariant.
  - rewrite update_nonpositive by assumption. assumption.
Qed.

Lemma constructor_invariant : stats_invariant constructor.
Proof. repeat split; constructor. Qed.

Lemma record_all_invariant (D : list Z) (s : SpeechToText) :
  stats_invariant s -> stats_invariant (record_all D s).
Proof.
  revert s. induction D as [| d D IH]; intros s Hs; simpl.
  - assumption.
  - apply IH, update_invariant, Hs.
Qed.

Lemma record_all_cons_positive (d : Z) (D : list Z) (s : SpeechToText) :
  0 < d -> record_all (d :: D) s = record_all D (push_stats d s).
Proof.
  intros Hd. unfold record_all at 1. cbn [fold_left]. unfold state_after.
  rewrite update_positive by assumption. reflexivity.
Qed.

(** Recording positive durations appends them all. *)
Lemma record_all_positive (D : list Z) (s : SpeechToText) :
  Forall (fun d => 0 < d) D ->
  processingTimes (record_all D s) = (processingTimes s ++ D)%list /\
  totalProcessingTime (record_all D s) = totalProcessingTime s + sum_list D /\
  utteranceCount (record_all D s) = utteranceCount s + Z.of_nat (List.length D).
Proof.
  intros HD. revert s. induction HD as [| d D Hd HD IH]; intros s.
  - simpl. rewrite app_nil_r. repeat split; lia.
  - rewrite record_all_cons_positive by assumption.
    destruct (IH (push_stats d s)) as (Hp & Ht & Hc).
    rewrite Hp, Ht, Hc.
    cbn [push_stats processingTimes totalProcessingTime utteranceCount].
    rewrite <- app_assoc.
    change (sum_list (d :: D)) with (d + sum_list D).
    change (List.length (d :: D)) with (S (List.length D)).
    split; [reflexivity | split; lia].
Qed.

End Stats.

(* ===================================================================== *)
(** ** Safe integers as binary64 numbers *)
(* ===================================================================== *)

Section SafeIntegers.

Lemma digits2_iter (p n : positive) :
  digits2_pos (Pos.iter xO p n) = (digits2_pos p + n)%positive.
Proof.
  revert p. induction n as [| n IH] using Pos.peano_ind; intros p.
  - cbn. lia.
  - rewrite Pos.iter_succ. cbn [digits2_pos]. rewrite IH. lia.
Qed.

Lemma iter_pos_iter {A} (f : A -> A) (n : positive) (x : A) :
  iter_pos f n x = Pos.iter f x n.
Proof.
  revert x. induction n as [n IH | n IH |]; intros x; cbn.
  - rewrite !IH, !Pos.iter_swap. reflexivity.
  - rewrite !IH. reflexivity.
  - reflexivity.
Qed.

(** Shifting right the zeros that were shifted in loses nothing. *)
Lemma shr_exact (q n : positive) :
  iter_pos shr_1 n (Build_shr_record (Z.pos (Pos.iter xO q n)) false false)
  = Build_shr_record (Z.pos q) false false.
Proof.
  rewrite iter_pos_iter.
  induction n as [| n IH] using Pos.peano_ind.
  - reflexivity.
  - rewrite Pos.iter_succ_r, Pos.iter_succ. cbn [shr_1 orb]. exact IH.
Qed.

Lemma iter_xO_value (p k : positive) :
  Z.pos (Pos.iter xO p k) = Z.pos p * 2 ^ Z.pos k.
Proof.
  induction k as [| k IH] using Pos.peano_ind.
  - cbn. lia.
  - rewrite Pos.iter_succ, Pos2Z.inj_xO, IH, Pos2Z.inj_succ, Z.pow_succ_r
      by lia.
    lia.
Qed.

Lemma digits2_lower (p : positive) :
  2 ^ (Z.pos (digits2_pos p) - 1) <= Z.pos p.
Proof.
  induction p as [p IH | p IH |]; cbn [digits2_pos].
  - rewrite Pos2Z.inj_succ.
    replace (Z.succ (Z.pos (digits2_pos p)) - 1)
      with (Z.succ (Z.pos (digits2_pos p) - 1)) by lia.
    rewrite Z.pow_succ_r by lia. lia.
  - rewrite Pos2Z.inj_succ.
    replace (Z.succ (Z.pos (digits2_pos p)) - 1)
      with (Z.succ (Z.pos (digits2_pos p) - 1)) by lia.
    rewrite Z.pow_succ_r by lia. lia.
  - cbn. lia.
Qed.

Lemma digits2_small (p : positive) :
  Z.pos p < 2 ^ 53 -> Z.pos (digits2_pos p) <= 53.
Proof.
  intros H. pose proof (digits2_lower p) as L.
  destruct (Z_le_gt_dec (Z.pos (digits2_pos p)) 53) as [| G]; [assumption |].
  exfalso.
  assert (2 ^ 53 <= 2 ^ (Z.pos (digits2_pos p) - 1))
    by (apply Z.pow_le_mono_r; lia).
  lia.
Qed.

(** A mantissa of at most 53 digits with a small exponent is kept as it
    is. *)
Lemma round_aux_short (sx : bool) (m : positive) (e : Z) :
  Z.pos (digits2_pos m) <= 53 -> -1074 <= e <= 971 ->
  binary_round_aux 53 1024 sx (Z.pos m) e loc_Exact = S754_finite sx m e.
Proof.
  intros Hd He. unfold binary_round_aux, shr_fexp.
  cbn [Zdigits2 shr_record_of_loc].
  assert (Hn : fexp 53 1024 (Z.pos (digits2_pos m) + e) - e <= 0)
    by (unfold fexp, emin; lia).
  destruct (fexp 53 1024 (Z.pos (digits2_pos m) + e) - e) eqn:E; try lia;
    cbn [shr shr_m loc_of_shr_record round_nearest_even Zdigits2
         shr_record_of_loc]; rewrite E; cbn [shr shr_m];
    destruct (Z.leb_spec e (1024 - 53)); try lia; reflexivity.
Qed.

(** A mantissa of 53 digits followed by zeros is shifted right, exactly. *)
Lemma round_aux_long (sx : bool) (q n : positive) (e : Z) :
  Z.pos (digits2_pos q) = 53 -> -1074 <= e + Z.pos n <= 971 ->
  binary_round_aux 53 1024 sx (Z.pos (Pos.iter xO q n)) e loc_Exact
  = S754_finite sx q (e + Z.pos n).
Proof.
  intros Hd He. unfold binary_round_aux, shr_fexp.
  cbn [Zdigits2 shr_record_of_loc]. rewrite digits2_iter.
  assert (E : fexp 53 1024 (Z.pos (digits2_pos q + n) + e) - e = Z.pos n)
    by (unfold fexp, emin; lia).
  rewrite E. cbn [shr]. rewrite shr_exact.
  cbn [shr_m loc_of_shr_record round_nearest_even Zdigits2 shr_record_of_loc].
  assert (E2 : fexp 53 1024 (Z.pos (digits2_pos q) + (e + Z.pos n))
               - (e + Z.pos n) = 0)
    by (unfold fexp, emin; lia).
  rewrite E2. cbn [shr shr_m].
  destruct (Z.leb_spec (e + Z.pos n) (1024 - 53)); try lia; reflexivity.
Qed.

Lemma fexp53 (d : Z) : -1021 <= d -> fexp 53 1024 d = d - 53.
Proof. intros H. unfold fexp, emin. lia. Qed.

Lemma round_shifted (sx : bool) (p k : positive) :
  Z.pos (digits2_pos p) <= 53 ->
  binary_round 53 1024 sx (Pos.iter xO p k) (Zneg k) = canon sx p.
Proof.
  intros Hd. unfold binary_round, canon.
  rewrite digits2_iter.
  replace (Z.pos (digits2_pos p + k) + Zneg k)
    with (Z.pos (digits2_pos p)) by lia.
  rewrite fexp53 by lia. unfold shl_align.
  destruct (Z.pos (digits2_pos p) - 53 - Zneg k) as [| n | n] eqn:E.
  - rewrite round_aux_short by (rewrite ?digits2_iter; lia).
    replace (Z.pos (digits2_pos p) - 53) with (Zneg k) by lia. reflexivity.
  - destruct (Z.pos (digits2_pos p) - 53) as [| j | j] eqn:D; try lia.
    + assert (k = n) by lia. subst n.
      rewrite round_aux_long by lia.
      replace (Zneg k + Z.pos k) with 0 by lia. reflexivity.
    + assert (k = (n + j)%positive) by lia. subst k.
      rewrite Pos.iter_add.
      rewrite round_aux_long by (rewrite ?digits2_iter; lia).
      replace (Zneg (n + j) + Z.pos n) with (Zneg j) by lia. reflexivity.
  - rewrite <- Pos.iter_add.
    rewrite round_aux_short by (rewrite ?digits2_iter; lia).
    replace (Z.pos (digits2_pos p) - 53) with (Zneg (n + k)) by lia.
    reflexivity.
Qed.

Lemma round_integer (sx : bool) (p : positive) :
  Z.pos (digits2_pos p) <= 53 ->
  binary_round 53 1024 sx p 0 = canon sx p.
Proof.
  intros Hd. unfold binary_round, canon.
  rewrite Z.add_0_r, fexp53 by lia. unfold shl_align. rewrite Z.sub_0_r.
  destruct (Z.pos (digits2_pos p) - 53) eqn:D; try lia.
  - rewrite round_aux_short by lia. reflexivity.
  - rewrite round_aux_short by (rewrite ?digits2_iter; lia). reflexivity.
Qed.

(** The shape of the binary64 of an integer of at most 53 digits. *)
Lemma canon_shape (sx : bool) (p : positive) :
  Z.pos (digits2_pos p) <= 53 ->
  exists m e, canon sx p = S754_finite sx m e /\ -52 <= e <= 0 /\
              Z.pos m = Z.pos p * 2 ^ (- e).
Proof.
  intros Hd. unfold canon.
  destruct (Z.pos (digits2_pos p) - 53) as [| n | n] eqn:D; try lia.
  - exists p, 0. split; [reflexivity | split; [lia | cbn; lia]].
  - exists (Pos.iter xO p n), (Zneg n).
    split; [reflexivity |]. split; [lia |].
    rewrite iter_xO_value. reflexivity.
Qed.

Lemma round_value (M N : positive) (k : Z) :
  0 <= k -> Z.pos M = Z.pos N * 2 ^ k -> Z.pos (digits2_pos N) <= 53 ->
  binary_round 53 1024 false M (- k) = canon false N.
Proof.
  intros Hk HM Hd. destruct k as [| k | k]; try lia.
  - cbn in HM. assert (M = N) by lia. subst. now apply round_integer.
  - rewrite <- iter_xO_value in HM. injection HM as ->.
    now apply round_shifted.
Qed.

Lemma shl_align_value (m : positive) (e ez : Z) :
  ez <= e ->
  Z.pos (fst (shl_align m e ez)) = Z.pos m * 2 ^ (e - ez).
Proof.
  intros H. unfold shl_align.
  destruct (ez - e) as [| n | n] eqn:D; try lia.
  - assert (ez = e) by lia. subst. rewrite Z.sub_diag. cbn. lia.
  - cbn [fst]. rewrite iter_xO_value. f_equal. f_equal. lia.
Qed.

Lemma of_Z_pos (p : positive) :
  Z.pos p < 2 ^ 53 -> JS.of_Z (Z.pos p) = canon false p.
Proof. intros H. apply round_integer, digits2_small, H. Qed.

Lemma of_Z_neg (p : positive) :
  Z.pos p < 2 ^ 53 -> JS.of_Z (Zneg p) = canon true p.
Proof. intros H. apply round_integer, digits2_small, H. Qed.

Lemma add_exact_pos (a b : positive) :
  Z.pos a + Z.pos b < 2 ^ 53 ->
  SFadd 53 1024 (canon false a) (canon false b) = canon false (a + b).
Proof.
  intros H.
  assert (Ha : Z.pos (digits2_pos a) <= 53) by (apply digits2_small; lia).
  assert (Hb : Z.pos (digits2_pos b) <= 53) by (apply digits2_small; lia).
  assert (Hs : Z.pos (digits2_pos (a + b)) <= 53)
    by (apply digits2_small; lia).
  destruct (canon_shape false a Ha) as (ma & ea & -> & Hea & Hma).
  destruct (canon_shape false b Hb) as (mb & eb & -> & Heb & Hmb).
  cbn [SFadd cond_Zopp].
  pose proof (shl_align_value ma ea (Z.min ea eb) ltac:(lia)) as V1.
  pose proof (shl_align_value mb eb (Z.min ea eb) ltac:(lia)) as V2.
  set (m1 := fst (shl_align ma ea (Z.min ea eb))) in *.
  set (m2 := fst (shl_align mb eb (Z.min ea eb))) in *.
  change (Z.pos m1 + Z.pos m2) with (Z.pos (m1 + m2)).
  cbn [binary_normalize].
  replace (Z.min ea eb) with (- (- Z.min ea eb)) by lia.
  apply round_value; [lia | | exact Hs].
  rewrite Pos2Z.inj_add, V1, V2, Hma, Hmb, Pos2Z.inj_add.
  rewrite <- !Z.mul_assoc, <- !Z.pow_add_r by lia.
  replace (- ea + (ea - Z.min ea eb)) with (- Z.min ea eb) by lia.
  replace (- eb + (eb - Z.min ea eb)) with (- Z.min ea eb) by lia.
  lia.
Qed.

(** The sum of two non-negative integers whose sum is a safe integer is
    the binary64 sum of their numbers: nothing is rounded. *)
Lemma num_add_exact (a b : Z) :
  0 <= a -> 0 <= b -> a + b <= JS.MAX_SAFE_INTEGER ->
  JS.num_add (JS.of_Z a) (JS.of_Z b) = JS.of_Z (a + b).
Proof.
  unfold JS.MAX_SAFE_INTEGER, JS.num_add, JS.prec, JS.emax. intros Ha Hb H.
  destruct a as [| a | a]; try lia; destruct b as [| b | b]; try lia.
  - reflexivity.
  - change (JS.of_Z 0) with (S754_zero false). cbn [Z.add].
    rewrite of_Z_pos by lia.
    destruct (canon_shape false b (digits2_small b ltac:(lia)))
      as (m & e & -> & _).
    reflexivity.
  - change (JS.of_Z 0) with (S754_zero false). rewrite Z.add_0_r.
    rewrite of_Z_pos by lia.
    destruct (canon_shape false a (digits2_small a ltac:(lia)))
      as (m & e & -> & _).
    reflexivity.
  - rewrite !of_Z_pos by lia. change (Z.pos a + Z.pos b) with (Z.pos (a + b)).
    rewrite of_Z_pos by (rewrite Pos2Z.inj_add; lia).
    apply add_exact_pos. lia.
Qed.

(** [d > 0] on the number of a safe integer. *)
Lemma num_gt_zero (d : Z) :
  safe_integer d -> JS.num_gt (JS.of_Z d) HighSamp64.zero = (d >? 0).
Proof.
  unfold safe_integer, JS.MAX_SAFE_INTEGER. intros H.
  destruct d as [| p | p].
  - reflexivity.
  - rewrite of_Z_pos by lia.
    destruct (canon_shape false p (digits2_small p ltac:(lia)))
      as (m & e & -> & _).
    reflexivity.
  - rewrite of_Z_neg by lia.
    destruct (canon_shape true p (digits2_small p ltac:(lia)))
      as (m & e & -> & _).
    reflexivity.
Qed.

(** [c === 0] on the number of a non-negative safe integer. *)
Lemma num_eq_zero (c : Z) :
  0 <= c <= JS.MAX_SAFE_INTEGER ->
  JS.num_eq (JS.of_Z c) HighSamp64.zero = (c =? 0).
Proof.
  unfold JS.MAX_SAFE_INTEGER. intros H.
  destruct c as [| p | p]; try lia.
  - reflexivity.
  - rewrite of_Z_pos by lia.
    destruct (canon_shape false p (digits2_small p ltac:(lia)))
      as (m & e & -> & _).
    reflexivity.
Qed.

Lemma integer_value_canon (sx : bool) (p : positive) :
  Z.pos (digits2_pos p) <= 53 ->
  integer_value (canon sx p) = Some (cond_Zopp sx (Z.pos p)).
Proof.
  intros Hd. destruct (canon_shape sx p Hd) as (m & e & -> & He & Hm).
  unfold integer_value.
  destruct (Z.leb_spec 0 e) as [H0 | H0].
  - assert (e = 0) by lia. subst e.
    change (- 0) with 0 in Hm. rewrite Z.pow_0_r, Z.mul_1_r in *.
    rewrite Hm. reflexivity.
  - rewrite Hm, Z.mod_mul, Z.eqb_refl, Z.div_mul
      by (apply Z.pow_nonzero; lia).
    reflexivity.
Qed.

(** The number of a safe integer is that integer. *)
Lemma integer_value_of_Z (z : Z) :
  safe_integer z -> integer_value (JS.of_Z z) = Some z.
Proof.
  unfold safe_integer, JS.MAX_SAFE_INTEGER. intros H.
  destruct z as [| p | p].
  - reflexivity.
  - rewrite of_Z_pos by lia.
    now rewrite integer_value_canon by (apply digits2_small; lia).
  - rewrite of_Z_neg by lia.
    now rewrite integer_value_canon by (apply digits2_small; lia).
Qed.

End SafeIntegers.

(* ===================================================================== *)
(** ** The quotient of two safe integers *)
(* ===================================================================== *)

Section Quotient.

Lemma digits2_upper (p : positive) : Z.pos p < 2 ^ Z.pos (digits2_pos p).
Proof.
  induction p as [p IH | p IH |]; cbn [digits2_pos];
    rewrite ?Pos2Z.inj_succ, ?Z.pow_succ_r by lia; lia.
Qed.

Lemma digits2_range (p : positive) (lo hi : Z) :
  0 <= lo -> 2 ^ lo <= Z.pos p < 2 ^ hi ->
  lo < Z.pos (digits2_pos p) <= hi.
Proof.
  intros Hlo (H1 & H2).
  pose proof (digits2_lower p) as L. pose proof (digits2_upper p) as U.
  split.
  - apply (Z.pow_lt_mono_r_iff 2); lia.
  - destruct (Z_le_gt_dec (Z.pos (digits2_pos p)) hi) as [| G]; [assumption |].
    exfalso.
    assert (0 <= hi).
    { destruct (Z_le_gt_dec 0 hi); [assumption |].
      rewrite Z.pow_neg_r in H2 by lia. lia. }
    assert (2 ^ hi <= 2 ^ (Z.pos (digits2_pos p) - 1))
      by (apply Z.pow_le_mono_r; lia).
    lia.
Qed.

(** The digits of the mantissa of the number of an integer. *)
Lemma canon_digits (sx : bool) (p : positive) :
  Z.pos (digits2_pos p) <= 53 ->
  exists m e, canon sx p = S754_finite sx m e /\ -52 <= e <= 0 /\
              Z.pos m = Z.pos p * 2 ^ (- e) /\
              Z.pos (digits2_pos m) = 53.
Proof.
  intros Hd. unfold canon.
  destruct (Z.pos (digits2_pos p) - 53) as [| n | n] eqn:D; try lia.
  - exists p, 0. split; [reflexivity |]. split; [lia |].
    split; [cbn; lia | lia].
  - exists (Pos.iter xO p n), (Zneg n).
    split; [reflexivity |]. split; [lia |].
    split; [rewrite iter_xO_value; reflexivity |].
    rewrite digits2_iter. lia.
Qed.

Lemma shr_1_half (r : shr_record) :
  0 <= shr_m r -> shr_m (shr_1 r) = shr_m r / 2.
Proof.
  destruct r as [m rr ss]. cbn [shr_m]. intros Hm.
  destruct m as [| [p | p |] | p]; cbn [shr_1 shr_m].
  - reflexivity.
  - apply Z.div_unique with 1; lia.
  - apply Z.div_unique with 0; lia.
  - reflexivity.
  - lia.
Qed.

Lemma shr_iter_half (n : positive) (r : shr_record) :
  0 <= shr_m r ->
  shr_m (Pos.iter shr_1 r n) = shr_m r / 2 ^ Z.pos n.
Proof.
  intros Hr. induction n as [| n IH] using Pos.peano_ind.
  - cbn [Pos.iter]. now rewrite shr_1_half.
  - rewrite Pos.iter_succ, shr_1_half, IH.
    + rewrite Pos2Z.inj_succ, Z.pow_succ_r, Z.div_div by lia.
      f_equal. lia.
    + rewrite IH. apply Z.div_pos; lia.
Qed.

(** Shifting right divides the mantissa and adds to the exponent. *)
Lemma shr_fexp_value (m e : Z) (l : location) :
  0 <= m ->
  let n := Z.max 0 (fexp 53 1024 (Zdigits2 m + e) - e) in
  exists r, shr_fexp 53 1024 m e l = (r, e + n) /\ shr_m r = m / 2 ^ n.
Proof.
  intros Hm n. unfold shr_fexp, shr. subst n.
  assert (Hrec : shr_m (shr_record_of_loc m l) = m)
    by (destruct l as [| []]; reflexivity).
  destruct (fexp 53 1024 (Zdigits2 m + e) - e) as [| k | k].
  - eexists. split; [rewrite Z.add_0_r; reflexivity |].
    rewrite Hrec. cbn. now rewrite Z.div_1_r.
  - eexists. split; [rewrite Z.max_r by lia; reflexivity |].
    rewrite iter_pos_iter, shr_iter_half by (rewrite Hrec; exact Hm).
    rewrite Hrec, Z.max_r by lia. reflexivity.
  - eexists. split; [rewrite Z.max_l by lia; rewrite Z.add_0_r; reflexivity |].
    rewrite Hrec, Z.max_l by lia. cbn. now rewrite Z.div_1_r.
Qed.

Lemma round_nearest_even_bounds (m : Z) (l : location) :
  m <= round_nearest_even m l <= m + 1.
Proof.
  destruct l as [| []]; cbn [round_nearest_even]; try lia.
  destruct (Z.even m); lia.
Qed.

(** Rounding a mantissa of 53 to 55 digits gives a finite number, at most
    twice the value. *)
Lemma round_aux_finite (sx : bool) (mx ex : Z) (lx : location) :
  2 ^ 52 <= mx < 2 ^ 55 -> -1000 <= ex <= 900 ->
  exists m e,
    binary_round_aux 53 1024 sx mx ex lx = S754_finite sx m e /\
    ex <= e /\ Z.pos m * 2 ^ (e - ex) <= 2 * mx.
Proof.
  intros Hmx Hex. unfold binary_round_aux.
  destruct mx as [| p | p]; try lia.
  destruct (shr_fexp_value (Z.pos p) ex lx ltac:(lia)) as (r1 & -> & Hr1).
  cbn [Zdigits2] in Hr1 |- *.
  pose proof (digits2_range p 52 55 ltac:(lia) Hmx) as Hd.
  rewrite fexp53 in Hr1 |- * by lia.
  set (n1 := Z.max 0 (Z.pos (digits2_pos p) + ex - 53 - ex)) in *.
  assert (Hn1 : 0 <= n1 <= 2) by (subst n1; lia).
  assert (Hp1 : 0 < 2 ^ n1) by (apply Z.pow_pos_nonneg; lia).
  assert (Hp1' : 2 ^ n1 <= 4)
    by (change 4 with (2 ^ 2); apply Z.pow_le_mono_r; lia).
  pose proof (round_nearest_even_bounds (shr_m r1) (loc_of_shr_record r1))
    as Hround.
  set (m2 := round_nearest_even (shr_m r1) (loc_of_shr_record r1)) in *.
  assert (Hq : Z.pos p / 2 ^ n1 * 2 ^ n1 <= Z.pos p).
  { rewrite Z.mul_comm. apply Z.mul_div_le. lia. }
  assert (Hq' : 2 ^ 50 <= Z.pos p / 2 ^ n1).
  { apply Z.div_le_lower_bound; [lia |].
    assert (2 ^ 50 * 4 <= Z.pos p) by lia. nia. }
  assert (Hm2 : 2 ^ 50 <= m2 < 2 ^ 56) by (rewrite Hr1 in Hround;
    assert (Z.pos p / 2 ^ n1 <= Z.pos p) by (apply Z.div_le_upper_bound; nia);
    lia).
  destruct m2 as [| p2 | p2] eqn:E2; try lia.
  destruct (shr_fexp_value (Z.pos p2) (ex + n1) loc_Exact ltac:(lia))
    as (r2 & -> & Hr2).
  cbn [Zdigits2] in Hr2 |- *.
  pose proof (digits2_range p2 50 56 ltac:(lia) Hm2) as Hd2.
  pose proof (digits2_lower p2) as Hl2.
  rewrite fexp53 in Hr2 |- * by lia.
  set (n2 := Z.max 0 (Z.pos (digits2_pos p2) + (ex + n1) - 53 - (ex + n1)))
    in *.
  assert (Hn2 : 0 <= n2 <= 3) by (subst n2; lia).
  assert (Hn2' : n2 <= Z.pos (digits2_pos p2) - 1) by (subst n2; lia).
  assert (Hp2 : 0 < 2 ^ n2) by (apply Z.pow_pos_nonneg; lia).
  assert (Hle : 2 ^ n2 <= Z.pos p2).
  { assert (2 ^ n2 <= 2 ^ (Z.pos (digits2_pos p2) - 1))
      by (apply Z.pow_le_mono_r; lia).
    lia. }
  assert (Hpos : 1 <= Z.pos p2 / 2 ^ n2)
    by (apply Z.div_le_lower_bound; lia).
  rewrite Hr2.
  destruct (Z.pos p2 / 2 ^ n2) as [| m | m] eqn:Em; try lia.
  exists m, (ex + n1 + n2).
  destruct (Z.leb_spec (ex + n1 + n2) (1024 - 53)); [| lia].
  split; [reflexivity |]. split; [lia |].
  replace (ex + n1 + n2 - ex) with (n2 + n1) by lia.
  rewrite Z.pow_add_r by lia.
  assert (Hm : Z.pos m * 2 ^ n2 <= Z.pos p2).
  { rewrite <- Em, Z.mul_comm. apply Z.mul_div_le. lia. }
  rewrite Hr1 in Hround. nia.
Qed.

(** The quotient and the exponent that the division rounds. *)
Lemma div_core (ma mb : positive) (ea eb : Z) :
  Z.pos (digits2_pos ma) = 53 -> Z.pos (digits2_pos mb) = 53 ->
  -52 <= ea <= 0 -> -52 <= eb <= 0 ->
  exists l,
    SFdiv_core_binary 53 1024 (Z.pos ma) ea (Z.pos mb) eb
    = (Z.pos ma * 2 ^ 53 / Z.pos mb, ea - eb - 53, l).
Proof.
  intros Ha Hb Hea Heb. unfold SFdiv_core_binary. cbn [Zdigits2].
  rewrite Ha, Hb.
  replace (53 + ea - (53 + eb)) with (ea - eb) by lia.
  rewrite fexp53 by lia. rewrite Z.min_l by lia.
  replace (ea - eb - (ea - eb - 53)) with 53 by lia.
  cbv beta iota zeta. rewrite Z.shiftl_mul_pow2 by lia.
  unfold Z.div.
  destruct (Z.div_eucl (Z.pos ma * 2 ^ 53) (Z.pos mb)) as [q r].
  eexists. reflexivity.
Qed.

(** The quotient of two positive safe integers is a finite number greater
    than 0, at most twice the quotient of the integers. *)
Lemma num_div_finite (a b : Z) :
  0 < a <= JS.MAX_SAFE_INTEGER -> 0 < b <= JS.MAX_SAFE_INTEGER ->
  exists m e,
    JS.num_div (JS.of_Z a) (JS.of_Z b) = S754_finite false m e /\
    (0 <= e -> Z.pos m * 2 ^ e * b <= 2 * a) /\
    (e < 0 -> Z.pos m * b <= 2 * a * 2 ^ (- e)).
Proof.
  unfold JS.MAX_SAFE_INTEGER. intros Ha Hb.
  destruct a as [| a | a]; try lia. destruct b as [| b | b]; try lia.
  rewrite !of_Z_pos by lia.
  destruct (canon_digits false a (digits2_small a ltac:(lia)))
    as (ma & ea & -> & Hea & Hma & Hda).
  destruct (canon_digits false b (digits2_small b ltac:(lia)))
    as (mb & eb & -> & Heb & Hmb & Hdb).
  unfold JS.num_div, JS.prec, JS.emax. cbn [SFdiv xorb].
  destruct (div_core ma mb ea eb Hda Hdb Hea Heb) as (l & ->).
  pose proof (digits2_lower ma) as La. pose proof (digits2_upper ma) as Ua.
  pose proof (digits2_lower mb) as Lb. pose proof (digits2_upper mb) as Ub.
  rewrite Hda in La, Ua. rewrite Hdb in Lb, Ub.
  change (2 ^ (53 - 1)) with (2 ^ 52) in *.
  set (q := Z.pos ma * 2 ^ 53 / Z.pos mb).
  assert (Hq1 : q * Z.pos mb <= Z.pos ma * 2 ^ 53).
  { subst q. rewrite Z.mul_comm. apply Z.mul_div_le. lia. }
  assert (Hq2 : 2 ^ 52 <= q).
  { subst q. apply Z.div_le_lower_bound; [lia |]. nia. }
  assert (Hq3 : q < 2 ^ 55).
  { subst q. apply Z.div_lt_upper_bound; [lia |]. nia. }
  destruct (round_aux_finite false q (ea - eb - 53) l ltac:(lia) ltac:(lia))
    as (m & e & -> & He & Hv).
  exists m, e. split; [reflexivity |].
  assert (Pa : 0 < 2 ^ (- ea)) by (apply Z.pow_pos_nonneg; lia).
  assert (Pb : 0 < 2 ^ (- eb)) by (apply Z.pow_pos_nonneg; lia).
  assert (Hkey : Z.pos m * 2 ^ (e - (ea - eb - 53)) * Z.pos mb
                 <= 2 * (Z.pos ma * 2 ^ 53)) by nia.
  rewrite Hma, Hmb in Hkey.
  assert (Hk2 : Z.pos m * 2 ^ (e + 53 - ea) * Z.pos b
                <= 2 * Z.pos a * 2 ^ (53 - ea)).
  { replace (e + 53 - ea) with (e - (ea - eb - 53) + - eb) by lia.
    replace (53 - ea) with (- ea + 53) by lia.
    rewrite !Z.pow_add_r by lia.
    set (X := 2 ^ (e - (ea - eb - 53))) in *.
    set (A := 2 ^ (- ea)) in *. set (B := 2 ^ (- eb)) in *.
    set (C := 2 ^ 53) in *. lia. }
  split; intros Hsign.
  - replace (e + 53 - ea) with (e + (53 - ea)) in Hk2 by lia.
    rewrite Z.pow_add_r in Hk2 by lia.
    assert (PK : 0 < 2 ^ (53 - ea)) by (apply Z.pow_pos_nonneg; lia).
    set (K := 2 ^ (53 - ea)) in *. set (Y := 2 ^ e) in *. nia.
  - replace (53 - ea) with (e + 53 - ea + - e) in Hk2 by lia.
    rewrite Z.pow_add_r in Hk2 by lia.
    assert (PK : 0 < 2 ^ (e + 53 - ea)) by (apply Z.pow_pos_nonneg; lia).
    set (K := 2 ^ (e + 53 - ea)) in *. set (Y := 2 ^ (- e)) in *. nia.
Qed.

(** Such a quotient is below 10^21, where [toFixed] prints a plain decimal
    expansion. *)
Lemma num_div_below (a b : Z) :
  0 < a <= JS.MAX_SAFE_INTEGER -> 0 < b <= JS.MAX_SAFE_INTEGER ->
  positive_below (10 ^ 21) (JS.num_div (JS.of_Z a) (JS.of_Z b)) = true.
Proof.
  intros Ha Hb.
  destruct (num_div_finite a b Ha Hb) as (m & e & -> & H1 & H2).
  unfold JS.MAX_SAFE_INTEGER in *. cbn [positive_below].
  destruct (Z.leb_spec 0 e) as [He | He].
  - specialize (H1 He). apply Z.ltb_lt.
    assert (0 < 2 ^ e) by (apply Z.pow_pos_nonneg; lia).
    assert (Z.pos m * 2 ^ e <= 2 * a) by nia.
    assert (2 * (2 ^ 53 - 1) < 10 ^ 21) by (vm_compute; reflexivity).
    lia.
  - specialize (H2 He). apply Z.ltb_lt.
    assert (0 < 2 ^ (- e)) by (apply Z.pow_pos_nonneg; lia).
    assert (Z.pos m <= 2 * a * 2 ^ (- e)) by nia.
    assert (2 * (2 ^ 53 - 1) < 10 ^ 21) by (vm_compute; reflexivity).
    nia.
Qed.

End Quotient.

(* ===================================================================== *)
(** ** Handlers, one at a time *)
(* ===================================================================== *)


Section HighSampHandlers.

Import HighSamp.

Lemma stop_result (s : SpeechToText) :
  stop s =
  (tt,
   (if isSome (micStream s) then with_micStream None s else s),
   ((if isSome (micStream s) then [MicStopRecording] else []) ++
    (if isSome (connection s) then [ConnectionFinish] else []) ++
    (if utteranceCount s >? 0 then [final_average_line s] else []))%list).
Proof.
  destruct s as [c st pts tot cnt m ms]. unfold stop.
  destruct ms, c; cbn -[Z.gtb final_average_line];
    destruct (cnt >? 0); reflexivity.
Qed.

Lemma stop_keeps_stats (s : SpeechToText) :
  stats_of (state_after stop s) = stats_of s.
Proof.
  unfold state_after. rewrite stop_result. cbn [fst snd].
  destruct (isSome (micStream s)); reflexivity.
Qed.

Lemma onOpen_keeps_stats (s : SpeechToText) :
  stats_of (state_after onOpen s) = stats_of s.
Proof. reflexivity. Qed.

Lemma onData_unchanged (d : chunk) (rs : Z) (s : SpeechToText) :
  state_after (onData d rs) s = s.
Proof. unfold onData. handler_cases; reflexivity. Qed.

Lemma onClose_keeps_stats (s : SpeechToText) :
  stats_of (state_after onClose s) = stats_of s.
Proof.
  unfold onClose. handler_steps.
  destruct (utteranceCount s >? 0); handler_steps;
    rewrite stop_result; cbn [fst snd];
    destruct (isSome (micStream s)); reflexivity.
Qed.

Lemma onSIGINT_keeps_stats (s : SpeechToText) :
  stats_of (state_after onSIGINT s) = stats_of s.
Proof.
  unfold onSIGINT. handler_steps. rewrite stop_result.
  destruct (isSome (micStream s)); reflexivity.
Qed.

Lemma onTranscript_state (tr : Transcription) (now1 now2 : Z)
  (s : SpeechToText) :
  state_after (onTranscript tr now1 now2) s =
  match text_of tr with
  | None => anchored now1 s
  | Some _ =>
      if is_final tr then
        with_startTime None
          (if elapsed now1 now2 s >? 0
           then push_stats (elapsed now1 now2 s) (anchored now1 s)
           else anchored now1 s)
      else anchored now1 s
  end.
Proof.
  unfold onTranscript, elapsed, anchored, updateProcessingStats.
  handler_steps.
  destruct (JS.falsy (startTime s)); handler_steps;
    destruct (text_of tr); handler_steps; try reflexivity;
    destruct (is_final tr); handler_steps; try reflexivity;
    match goal with
    | |- context [?a >? 0] => destruct (a >? 0); handler_steps; reflexivity
    end.
Qed.

Lemma anchored_keeps_stats (now1 : Z) (s : SpeechToText) :
  stats_of (anchored now1 s) = stats_of s.
Proof. unfold anchored. destruct (JS.falsy (startTime s)); reflexivity. Qed.

Lemma stats_invariant_ext (s s' : SpeechToText) :
  stats_of s' = stats_of s -> stats_invariant s -> stats_invariant s'.
Proof.
  unfold stats_of, stats_invariant. intros E.
  injection E as E1 E2 E3. now rewrite E1, E2, E3.
Qed.

Lemma onTranscript_invariant (tr : Transcription) (now1 now2 : Z)
  (s : SpeechToText) :
  stats_invariant s ->
  stats_invariant (state_after (onTranscript tr now1 now2) s).
Proof.
  intros Hs. rewrite onTranscript_state.
  assert (Ha : stats_invariant (anchored now1 s))
    by (eapply stats_invariant_ext; [apply anchored_keeps_stats | exact Hs]).
  destruct (text_of tr); [| exact Ha].
  destruct (is_final tr); [| exact Ha].
  apply stats_invariant_ext with
    (s := if elapsed now1 now2 s >? 0
          then push_stats (elapsed now1 now2 s) (anchored now1 s)
          else anchored now1 s); [reflexivity |].
  destruct (Z.gtb_spec (elapsed now1 now2 s) 0); [| exact Ha].
  apply push_stats_invariant; [lia | exact Ha].
Qed.

End HighSampHandlers.

(** A property of processes that the start of the script establishes and
    every delivery keeps holds after every run. *)
Lemma run_invariant (P : Script) (I : process P -> Prop)
  (thrown : option string) :
  I (main P thrown) ->
  (forall st ev, I st -> I (deliver P st ev)) ->
  forall evs, I (run P thrown evs).
Proof.
  intros H0 Hstep evs. unfold run.
  generalize (main P thrown) H0. induction evs as [| ev evs IH]; intros st Hst.
  - exact Hst.
  - simpl. apply IH, Hstep, Hst.
Qed.

Lemma run_snoc (P : Script) (thrown : option string) (evs : list event)
  (ev : event) :
  run P thrown (evs ++ [ev]) = deliver P (run P thrown evs) ev.
Proof. unfold run. now rewrite fold_left_app. Qed.

Lemma highsamp_listener_invariant (ev : event) (log : list effect)
  (h : M HighSamp.SpeechToText unit) (s : HighSamp.SpeechToText) :
  listener highsamp ev log = Some h ->
  stats_invariant s -> stats_invariant (state_after h s).
Proof.
  intros Hl Hs.
  destruct ev; cbn [listener] in Hl;
    match type of Hl with
    | (if ?b then _ else _) = _ => destruct b; [| discriminate]
    end;
    injection Hl as <-; cbn [highsamp onOpen onData onMicError onTranscript onError onClose onSIGINT].
  - eapply stats_invariant_ext; [apply onOpen_keeps_stats | exact Hs].
  - now rewrite onData_unchanged.
  - exact Hs.
  - now apply onTranscript_invariant.
  - exact Hs.
  - eapply stats_invariant_ext; [apply onClose_keeps_stats | exact Hs].
  - eapply stats_invariant_ext; [apply onSIGINT_keeps_stats | exact Hs].
Qed.

(** *** The statistics as the numbers the script holds *)

Section StatsAsNumbers.

Lemma positives_bound (D : list Z) :
  Forall (fun d => 0 < d) D ->
  Z.of_nat (List.length D) <= sum_list D /\
  Forall (fun d => d <= sum_list D) D.
Proof.
  induction 1 as [| d D Hd HD (IHl & IHf)].
  - split; [simpl; lia | constructor].
  - change (sum_list (d :: D)) with (d + sum_list D).
    change (List.length (d :: D)) with (S (List.length D)).
    split; [lia |].
    constructor; [lia |].
    eapply Forall_impl; [| exact IHf]. cbv beta. intros a Ha. lia.
Qed.

Lemma stats_invariant_bounds (s : HighSamp.SpeechToText) :
  stats_invariant s ->
  0 <= HighSamp.utteranceCount s <= HighSamp.totalProcessingTime s /\
  Forall (fun d => 0 < d <= HighSamp.totalProcessingTime s)
         (HighSamp.processingTimes s).
Proof.
  intros (Hc & Ht & Hp).
  destruct (positives_bound _ Hp) as (Hl & Hf).
  rewrite Hc, Ht. split; [lia |].
  rewrite Forall_forall in *. intros d Hd. split; [apply Hp | apply Hf]; exact Hd.
Qed.

(** One call of [updateProcessingStats] on the numbers is the call on the
    integers, as long as the new total and count are safe integers. *)
Lemma update64_agrees (d : Z) (s : HighSamp.SpeechToText) :
  safe_integer d ->
  0 <= HighSamp.utteranceCount s <= HighSamp.totalProcessingTime s ->
  (0 < d -> HighSamp.totalProcessingTime s + d <= JS.MAX_SAFE_INTEGER) ->
  HighSamp64.updateProcessingStats (JS.of_Z d) (as_numbers s)
  = as_numbers (state_after (HighSamp.updateProcessingStats d) s).
Proof.
  intros Hd Hs Hsum. unfold HighSamp64.updateProcessingStats.
  rewrite num_gt_zero by exact Hd. unfold state_after.
  destruct (Z.gtb_spec d 0) as [Hpos | Hneg].
  - rewrite update_positive by lia. cbn [fst snd].
    unfold as_numbers, HighSamp.push_stats.
    cbn [HighSamp.processingTimes HighSamp.totalProcessingTime
         HighSamp.utteranceCount HighSamp64.processingTimes
         HighSamp64.totalProcessingTime HighSamp64.utteranceCount].
    specialize (Hsum ltac:(lia)).
    rewrite map_app. cbn [map].
    rewrite num_add_exact by lia.
    unfold HighSamp64.one. rewrite num_add_exact by lia.
    reflexivity.
  - rewrite update_nonpositive by lia. reflexivity.
Qed.

(** Recording safe integers whose positive ones add up to a safe integer:
    the numbers the script holds are the integers of the embedding. *)
Lemma record_all64_agrees (ds : list Z) (s : HighSamp.SpeechToText) :
  Forall safe_integer ds ->
  stats_invariant s ->
  HighSamp.totalProcessingTime s + sum_list (filter (fun d => 0 <? d) ds)
    <= JS.MAX_SAFE_INTEGER ->
  record_all64 (map JS.of_Z ds) (as_numbers s) = as_numbers (record_all ds s).
Proof.
  intros Hds. revert s. induction Hds as [| d ds Hd Hds IH]; intros s Hs Hsum.
  - reflexivity.
  - unfold record_all, record_all64. cbn [map fold_left].
    cbn [filter] in Hsum.
    pose proof (stats_invariant_bounds s Hs) as (Hb & _).
    assert (Hrest : 0 <= sum_list (filter (fun d => 0 <? d) ds)).
    { clear. induction ds as [| a ds IH]; simpl; [lia |].
      destruct (Z.ltb_spec 0 a); simpl; lia. }
    rewrite update64_agrees; [| exact Hd | exact Hb |].
    + apply IH; [apply update_invariant, Hs |].
      unfold state_after.
      destruct (Z.ltb_spec 0 d) as [Hpos | Hneg].
      * rewrite update_positive by exact Hpos. cbn [fst snd].
        cbn [HighSamp.push_stats HighSamp.totalProcessingTime].
        change (sum_list (d :: ?l)) with (d + sum_list l) in Hsum. lia.
      * rewrite update_nonpositive by exact Hneg. exact Hsum.
    + intros Hpos. destruct (Z.ltb_spec 0 d); [| lia].
      change (sum_list (d :: ?l)) with (d + sum_list l) in Hsum. lia.
Qed.

Lemma map_integer_value (D : list Z) :
  Forall safe_integer D ->
  map integer_value (map JS.of_Z D) = map Some D.
Proof.
  induction 1 as [| d D Hd HD IH]; [reflexivity |].
  cbn [map]. now rewrite integer_value_of_Z, IH.
Qed.

(** Statistics that satisfy the invariant with a total that is a safe
    integer satisfy it as numbers. *)
Lemma as_numbers_invariant (s : HighSamp.SpeechToText) :
  stats_invariant s ->
  HighSamp.totalProcessingTime s <= JS.MAX_SAFE_INTEGER ->
  stats_invariant64 (as_numbers s).
Proof.
  intros Hs Hmax.
  destruct (stats_invariant_bounds s Hs) as (Hb & Hf).
  destruct Hs as (Hc & Ht & Hp).
  exists (HighSamp.processingTimes s). unfold as_numbers.
  cbn [HighSamp64.processingTimes HighSamp64.totalProcessingTime
       HighSamp64.utteranceCount].
  assert (Hmaxpos : 0 <= JS.MAX_SAFE_INTEGER) by (vm_compute; discriminate).
  split; [| split; [| split]].
  - apply map_integer_value. eapply Forall_impl; [| exact Hf].
    cbv beta. unfold safe_integer. intros d Hd. lia.
  - rewrite <- Hc. apply integer_value_of_Z. unfold safe_integer. lia.
  - rewrite <- Ht. apply integer_value_of_Z. unfold safe_integer. lia.
  - exact Hp.
Qed.

(** [getAverageProcessingTime] on the numbers reads the same text. *)
Lemma average64_agrees (s : HighSamp.SpeechToText) :
  stats_invariant s ->
  HighSamp.totalProcessingTime s <= JS.MAX_SAFE_INTEGER ->
  HighSamp64.getAverageProcessingTime (as_numbers s)
  = HighSamp.getAverageProcessingTime s.
Proof.
  intros Hs Hmax. destruct (stats_invariant_bounds s Hs) as (Hb & _).
  unfold HighSamp64.getAverageProcessingTime, HighSamp.getAverageProcessingTime,
    as_numbers.
  cbn [HighSamp64.processingTimes HighSamp64.totalProcessingTime
       HighSamp64.utteranceCount].
  rewrite num_eq_zero by lia. reflexivity.
Qed.

Lemma as_numbers_ext (s s' : HighSamp.SpeechToText) :
  stats_of s' = stats_of s -> as_numbers s' = as_numbers s.
Proof.
  unfold stats_of, as_numbers. intros E. injection E as -> -> ->. reflexivity.
Qed.

Lemma filter_positives (D : list Z) :
  Forall (fun d => 0 < d) D -> filter (fun d => 0 <? d) D = D.
Proof.
  induction 1 as [| d D Hd HD IH]; [reflexivity |].
  cbn [filter]. destruct (Z.ltb_spec 0 d); [now rewrite IH | lia].
Qed.

(** The integer that [toFixed] prints is the nearest to the hundredfold of
    the number, the larger one of two that are equally near. *)
Lemma nearest_scaled_nearest (m : positive) (e : Z) :
  (0 <= e -> JS.nearest_scaled 2 m e = Z.pos m * 100 * 2 ^ e) /\
  (e < 0 ->
   - 2 ^ (- e)
   <= 2 * (Z.pos m * 100 - JS.nearest_scaled 2 m e * 2 ^ (- e))
   < 2 ^ (- e)).
Proof.
  unfold JS.nearest_scaled. change (10 ^ Z.of_nat 2) with 100.
  split; intros He.
  - destruct (Z.leb_spec 0 e); [reflexivity | lia].
  - destruct (Z.leb_spec 0 e); [lia |].
    assert (Hk : 0 < 2 ^ (- e)) by (apply Z.pow_pos_nonneg; lia).
    set (k := 2 ^ (- e)) in *. set (p := Z.pos m * 100).
    pose proof (Z.div_mod (2 * p + k) (2 * k) ltac:(lia)) as Hdm.
    pose proof (Z.mod_pos_bound (2 * p + k) (2 * k) ltac:(lia)) as Hb.
    set (n := (2 * p + k) / (2 * k)) in *. nia.
Qed.

(** An object that satisfies the invariant holds the numbers that recording
    its durations on a new object gives. *)
Lemma recorded_as_numbers (s : HighSamp.SpeechToText) :
  stats_invariant s ->
  HighSamp.totalProcessingTime s <= JS.MAX_SAFE_INTEGER ->
  record_all64 (map JS.of_Z (HighSamp.processingTimes s)) HighSamp64.constructor
  = as_numbers s.
Proof.
  intros Hs Hmax.
  destruct (stats_invariant_bounds s Hs) as (Hb & Hf).
  destruct Hs as (Hc & Ht & Hp).
  pose proof (filter_positives _ Hp) as Hfilter.
  change HighSamp64.constructor with (as_numbers HighSamp.constructor).
  rewrite record_all64_agrees.
  - apply as_numbers_ext.
    destruct (record_all_positive (HighSamp.processingTimes s)
                HighSamp.constructor Hp) as (E1 & E2 & E3).
    unfold stats_of. rewrite E1, E2, E3, Hc, Ht. reflexivity.
  - eapply Forall_impl; [| exact Hf].
    cbv beta. unfold safe_integer. intros d Hd.
    assert (0 <= JS.MAX_SAFE_INTEGER) by (vm_compute; discriminate). lia.
  - apply constructor_invariant.
  - rewrite Hfilter, <- Ht. cbn [HighSamp.constructor HighSamp.totalProcessingTime].
    lia.
Qed.

Lemma run_stats_invariant (thrown : option string) (evs : list event) :
  stats_invariant (fst (run highsamp thrown evs)).
Proof.
  apply (run_invariant highsamp (fun st => stats_invariant (fst st))).
  - destruct thrown; apply constructor_invariant.
  - intros [s log] ev Hs. unfold deliver.
    destruct (exited log); [exact Hs |].
    destruct (listener highsamp ev log) as [h |] eqn:Hl; [| exact Hs].
    cbn [fst] in *. eapply highsamp_listener_invariant; eassumption.
Qed.

End StatsAsNumbers.

(** C3, as the claim has it, fails: [totalProcessingTime] is a number, and
    after recording 2^53, 1 and 1 on a new object it is 2^53, while the
    three recorded durations add up to 2^53 + 2.  The count (3) and the
    sequence are as claimed. *)
Lemma total_is_not_the_sum_beyond_safe_integers :
  let s := record_all64 [JS.of_Z (2 ^ 53); JS.of_Z 1; JS.of_Z 1]
             HighSamp64.constructor in
  map integer_value (HighSamp64.processingTimes s)
    = map Some [2 ^ 53; 1; 1] /\
  integer_value (HighSamp64.utteranceCount s) = Some 3 /\
  integer_value (HighSamp64.totalProcessingTime s) = Some (2 ^ 53) /\
  sum_list [2 ^ 53; 1; 1] = 2 ^ 53 + 2 /\
  ~ stats_invariant64 s.
Proof.
  cbv zeta. split; [vm_compute; reflexivity |].
  split; [vm_compute; reflexivity |].
  split; [vm_compute; reflexivity |].
  split; [vm_compute; reflexivity |].
  intros (values & Hv & _ & Ht & _).
  assert (E : values = [2 ^ 53; 1; 1]).
  { vm_compute in Hv.
    destruct values as [| a [| b [| c [| ? ?]]]]; try discriminate Hv.
    cbn [map] in Hv. injection Hv as <- <- <-. reflexivity. }
  subst values. vm_compute in Ht. discriminate Ht.
Qed.

(** C3, amended.  As long as the durations passed to
    [updateProcessingStats] are safe integers (at most 2^53 - 1 in
    magnitude) and those greater than 0 add up to a safe integer, after
    every sequence of calls on a new object [utteranceCount] is the length
    of [processingTimes], [totalProcessingTime] is its sum and all its
    elements are greater than 0; the numbers the script holds are these
    integers, without rounding.  The same holds after every run of the
    script, under any events, whose recorded durations add up to a safe
    integer. *)
Theorem stats_invariant_always
  (ds : list Z) (thrown : option string) (evs : list event)
  (Hsafe : Forall safe_integer ds)
  (Hsum : sum_list (filter (fun d => 0 <? d) ds) <= JS.MAX_SAFE_INTEGER)
  (Hrun : HighSamp.totalProcessingTime (fst (run highsamp thrown evs))
          <= JS.MAX_SAFE_INTEGER) :
  (stats_invariant (record_all ds HighSamp.constructor) /\
   record_all64 (map JS.of_Z ds) HighSamp64.constructor
     = as_numbers (record_all ds HighSamp.constructor) /\
   stats_invariant64 (record_all64 (map JS.of_Z ds) HighSamp64.constructor)) /\
  (let s := fst (run highsamp thrown evs) in
   stats_invariant s /\
   record_all64 (map JS.of_Z (HighSamp.processingTimes s))
     HighSamp64.constructor = as_numbers s /\
   stats_invariant64 (as_numbers s)).
Proof.
  assert (Hinv : stats_invariant (record_all ds HighSamp.constructor))
    by apply record_all_invariant, constructor_invariant.
  assert (Hagree : record_all64 (map JS.of_Z ds) HighSamp64.constructor
                   = as_numbers (record_all ds HighSamp.constructor)).
  { change HighSamp64.constructor with (as_numbers HighSamp.constructor).
    apply record_all64_agrees;
      [exact Hsafe | apply constructor_invariant | exact Hsum]. }
  assert (Htotal : HighSamp.totalProcessingTime
                     (record_all ds HighSamp.constructor)
                   <= JS.MAX_SAFE_INTEGER).
  { clear Hagree Hinv Hrun.
    assert (G : forall s,
               HighSamp.totalProcessingTime (record_all ds s)
               = HighSamp.totalProcessingTime s
                 + sum_list (filter (fun d => 0 <? d) ds)).
    { clear. induction ds as [| d ds IH]; intros s.
      - simpl. lia.
      - unfold record_all. cbn [fold_left]. fold (record_all ds).
        rewrite IH. cbn [filter]. unfold state_after.
        destruct (Z.ltb_spec 0 d) as [Hpos | Hneg].
        + rewrite update_positive by exact Hpos. cbn [fst snd].
          cbn [HighSamp.push_stats HighSamp.totalProcessingTime].
          change (sum_list (d :: ?l)) with (d + sum_list l). lia.
        + rewrite update_nonpositive by exact Hneg. reflexivity. }
    rewrite G. cbn [HighSamp.constructor HighSamp.totalProcessingTime]. lia. }
  split.
  - split; [exact Hinv | split; [exact Hagree |]].
    rewrite Hagree. apply as_numbers_invariant; assumption.
  - cbv zeta. pose proof (run_stats_invariant thrown evs) as Hs.
    split; [exact Hs | split].
    + apply recorded_as_numbers; assumption.
    + apply as_numbers_invariant; assumption.
Qed.

Lemma stats_invariant_always_witness :
  Forall safe_integer [100; 0; -5; 300] /\
  stats_invariant (record_all [100; 0; -5; 300] HighSamp.constructor) /\
  stats_invariant64
    (record_all64 (map JS.of_Z [100; 0; -5; 300]) HighSamp64.constructor) /\
  stats_invariant
    (fst (run highsamp None
            [OpenEvent;
             TranscriptEvent (said false "one") 1000 1000;
             TranscriptEvent (said true "one") 1100 1100])).
Proof.
  assert (Hsafe : Forall safe_integer [100; 0; -5; 300])
    by (repeat constructor; vm_compute; discriminate).
  assert (Hsum : sum_list (filter (fun d => 0 <? d) [100; 0; -5; 300])
                 <= JS.MAX_SAFE_INTEGER)
    by (vm_compute; discriminate).
  assert (Hrun : HighSamp.totalProcessingTime
                   (fst (run highsamp None
                           [OpenEvent;
                            TranscriptEvent (said false "one") 1000 1000;
                            TranscriptEvent (said true "one") 1100 1100]))
                 <= JS.MAX_SAFE_INTEGER)
    by (vm_compute; discriminate).
  pose proof (stats_invariant_always [100; 0; -5; 300] None
                [OpenEvent;
                 TranscriptEvent (said false "one") 1000 1000;
                 TranscriptEvent (said true "one") 1100 1100]
                Hsafe Hsum Hrun) as ((H1 & _ & H2) & (H3 & _)).
  split; [exact Hsafe | split; [exact H1 | split; [exact H2 | exact H3]]].
Defined.

(** C4. Recording a duration that is 0 or negative is a no-op: the call
    returns the object as it was, all fields included, and makes no call
    on a collaborator.  In particular, recording 100, then such a duration
    (0 in the scenario), then 300 leaves two recorded durations, 100 and
    300, and the average text 200.00ms. *)
Theorem nonpositive_duration_discarded
  (s : HighSamp.SpeechToText) (d : Z) (Hd : d <= 0) :
  HighSamp.updateProcessingStats d s = (tt, s, []) /\
  (let s3 := record_all [100; d; 300] HighSamp.constructor in
   HighSamp.utteranceCount s3 = 2 /\
   HighSamp.processingTimes s3 = [100; 300] /\
   HighSamp.totalProcessingTime s3 = 400 /\
   HighSamp.getAverageProcessingTime s3 = "200.00ms" /\
   milliseconds_of_text (HighSamp.getAverageProcessingTime s3)
     = Some (Qmake 20000 100)).
Proof.
  split.
  - apply update_nonpositive, Hd.
  - assert (E : record_all [100; d; 300] HighSamp.constructor
                = record_all [100; 300] HighSamp.constructor).
    { unfold record_all. cbn [fold_left]. unfold state_after at 2.
      rewrite update_nonpositive by exact Hd. reflexivity. }
    cbv zeta. rewrite E. vm_compute. repeat split; reflexivity.
Qed.

Lemma nonpositive_duration_discarded_witness :
  0 <= 0 /\
  HighSamp.utteranceCount (record_all [100; 0; 300] HighSamp.constructor) = 2 /\
  HighSamp.getAverageProcessingTime
    (record_all [100; 0; 300] HighSamp.constructor) = "200.00ms".
Proof.
  pose proof (nonpositive_duration_discarded HighSamp.constructor 0
                (Z.le_refl 0)) as (_ & Hc & _ & _ & Ha & _).
  split; [apply Z.le_refl | split; [exact Hc | exact Ha]].
Defined.

(** The scenario of C4 as the script meets it: three utterances whose final
    results come 100 ms, 0 ms and 300 ms after their first result. *)
Example three_final_utterances :
  let evs := [OpenEvent;
              TranscriptEvent (said false "one") 1000 1000;
              TranscriptEvent (said true "one") 1100 1100;
              TranscriptEvent (said true "two") 2000 2000;
              TranscriptEvent (said false "three") 3000 3000;
              TranscriptEvent (said true "three") 3300 3300] in
  let s := fst (run highsamp None evs) in
  HighSamp.processingTimes s = [100; 300] /\
  HighSamp.utteranceCount s = 2 /\
  HighSamp.getAverageProcessingTime s = "200.00ms".
Proof. vm_compute. repeat split; reflexivity. Qed.

(** [getAverageProcessingTime] reads nothing but the sum and the count. *)
Lemma average_guard (s : HighSamp.SpeechToText) :
  (HighSamp.utteranceCount s = 0 ->
   HighSamp.getAverageProcessingTime s = "0ms") /\
  (HighSamp.utteranceCount s <> 0 ->
   HighSamp.getAverageProcessingTime s =
   JS.toFixed 2 (JS.num_div (JS.of_Z (HighSamp.totalProcessingTime s))
                            (JS.of_Z (HighSamp.utteranceCount s))) ++ "ms").
Proof.
  unfold HighSamp.getAverageProcessingTime.
  destruct (Z.eqb_spec (HighSamp.utteranceCount s) 0); split; intros;
    (reflexivity || contradiction).
Qed.

(** C1, as the claim has it, fails: after recording 1, 1 and 2 the function
    returns the text 1.33ms, which denotes 133/100, while the arithmetic
    mean of the three durations is 4/3. *)
Lemma average_text_is_not_the_mean :
  HighSamp.getAverageProcessingTime
    (record_all [1; 1; 2] HighSamp.constructor) = "1.33ms" /\
  ~ (exists q : Q,
       milliseconds_of_text
         (HighSamp.getAverageProcessingTime
            (record_all [1; 1; 2] HighSamp.constructor)) = Some q /\
       Qeq q (mean [1; 1; 2])).
Proof.
  split; [vm_compute; reflexivity |].
  intros (q & Hq & He). vm_compute in Hq. injection Hq as <-.
  vm_compute in He. discriminate He.
Qed.

(** C1, amended.  For every sequence D of recorded durations, each greater
    than 0, whose sum is a safe integer (at most 2^53 - 1),
    [getAverageProcessingTime] returns a text: 0ms when D is empty, and
    otherwise the binary64 quotient of the sum of D by its length, printed
    by [toFixed(2)] and followed by ms.  The division is evaluated only
    with a divisor that is not 0: on every object whose [utteranceCount] is
    0 the function returns 0ms.  The sum and the count that the script
    holds as numbers are these integers, so the function on the numbers
    returns this text.  The quotient is a finite number greater than 0 and
    below 10^21, the range in which [toFixed] prints a plain decimal
    expansion: the text is that of the integer n for which n/100 is
    nearest to the quotient, the larger n on a tie, with a point before
    its last two digits. *)
Theorem average_text_of_recorded
  (D : list Z) (HD : Forall (fun d => 0 < d) D)
  (Hsum : sum_list D <= JS.MAX_SAFE_INTEGER) :
  let s := record_all D HighSamp.constructor in
  (D = [] -> HighSamp.getAverageProcessingTime s = "0ms") /\
  (D <> [] ->
   HighSamp.utteranceCount s <> 0 /\
   HighSamp.getAverageProcessingTime s =
   JS.toFixed 2 (JS.num_div (JS.of_Z (sum_list D))
                            (JS.of_Z (Z.of_nat (List.length D)))) ++ "ms") /\
  (forall s0 : HighSamp.SpeechToText,
     HighSamp.utteranceCount s0 = 0 ->
     HighSamp.getAverageProcessingTime s0 = "0ms") /\
  HighSamp64.getAverageProcessingTime
    (record_all64 (map JS.of_Z D) HighSamp64.constructor)
  = HighSamp.getAverageProcessingTime s /\
  (D <> [] ->
   exists (m : positive) (e n : Z),
     JS.num_div (JS.of_Z (sum_list D)) (JS.of_Z (Z.of_nat (List.length D)))
     = S754_finite false m e /\
     positive_below (10 ^ 21) (S754_finite false m e) = true /\
     HighSamp.getAverageProcessingTime s = JS.fixed_text 2 n ++ "ms" /\
     (0 <= e -> n = Z.pos m * 100 * 2 ^ e) /\
     (e < 0 ->
      - 2 ^ (- e) <= 2 * (Z.pos m * 100 - n * 2 ^ (- e)) < 2 ^ (- e))).
Proof.
  cbv zeta.
  destruct (record_all_positive D HighSamp.constructor HD) as (_ & Ht & Hc).
  cbn [HighSamp.constructor HighSamp.totalProcessingTime
       HighSamp.utteranceCount] in Ht, Hc.
  rewrite Z.add_0_l in Ht, Hc.
  assert (Htext : D <> [] ->
            HighSamp.utteranceCount (record_all D HighSamp.constructor) <> 0 /\
            HighSamp.getAverageProcessingTime
              (record_all D HighSamp.constructor) =
            JS.toFixed 2 (JS.num_div (JS.of_Z (sum_list D))
                            (JS.of_Z (Z.of_nat (List.length D)))) ++ "ms").
  { intros Hne.
    assert (Hcount : HighSamp.utteranceCount
                       (record_all D HighSamp.constructor) <> 0).
    { rewrite Hc. destruct D; [contradiction | simpl; lia]. }
    split; [exact Hcount |].
    rewrite (proj2 (average_guard _) Hcount), Ht, Hc. reflexivity. }
  split; [| split; [| split; [| split]]].
  - intros ->. reflexivity.
  - exact Htext.
  - intros s0. apply average_guard.
  - assert (Hinv : stats_invariant (record_all D HighSamp.constructor))
      by apply record_all_invariant, constructor_invariant.
    change HighSamp64.constructor with (as_numbers HighSamp.constructor).
    rewrite record_all64_agrees.
    + apply average64_agrees; [exact Hinv | rewrite Ht; exact Hsum].
    + destruct (positives_bound D HD) as (_ & Hle).
      rewrite Forall_forall in *. intros d Hd.
      specialize (HD d Hd). specialize (Hle d Hd).
      unfold safe_integer. lia.
    + apply constructor_invariant.
    + rewrite filter_positives by exact HD.
      cbn [HighSamp.constructor HighSamp.totalProcessingTime]. lia.
  - intros Hne.
    destruct (positives_bound D HD) as (Hlen & _).
    assert (Hlen0 : 0 < Z.of_nat (List.length D))
      by (destruct D; [contradiction | simpl; lia]).
    pose proof (num_div_below (sum_list D) (Z.of_nat (List.length D))
                  ltac:(lia) ltac:(lia)) as Hbelow.
    destruct (num_div_finite (sum_list D) (Z.of_nat (List.length D))
                ltac:(lia) ltac:(lia)) as (m & e & Hq & _).
    exists m, e, (JS.nearest_scaled 2 m e).
    rewrite Hq in Hbelow.
    split; [exact Hq | split; [exact Hbelow |]].
    destruct (Htext Hne) as (_ & ->). rewrite Hq.
    split; [reflexivity | apply nearest_scaled_nearest].
Qed.

Lemma average_text_of_recorded_witness :
  Forall (fun d => 0 < d) [2; 1; 1; 1; 1; 1; 1; 1] /\
  sum_list [2; 1; 1; 1; 1; 1; 1; 1] <= JS.MAX_SAFE_INTEGER /\
  HighSamp.getAverageProcessingTime
    (record_all [2; 1; 1; 1; 1; 1; 1; 1] HighSamp.constructor) = "1.13ms" /\
  HighSamp64.getAverageProcessingTime
    (record_all64 (map JS.of_Z [2; 1; 1; 1; 1; 1; 1; 1])
       HighSamp64.constructor) = "1.13ms".
Proof.
  assert (HD : Forall (fun d => 0 < d) [2; 1; 1; 1; 1; 1; 1; 1])
    by (repeat constructor).
  assert (Hsum : sum_list [2; 1; 1; 1; 1; 1; 1; 1] <= JS.MAX_SAFE_INTEGER)
    by (vm_compute; discriminate).
  destruct (average_text_of_recorded [2; 1; 1; 1; 1; 1; 1; 1] HD Hsum)
    as (_ & Hne & _ & H64 & _).
  destruct (Hne ltac:(discriminate)) as (_ & Htext).
  assert (E : HighSamp.getAverageProcessingTime
                (record_all [2; 1; 1; 1; 1; 1; 1; 1] HighSamp.constructor)
              = "1.13ms")
    by (rewrite Htext; vm_compute; reflexivity).
  split; [exact HD | split; [exact Hsum | split; [exact E |]]].
  rewrite H64. exact E.
Defined.

(** Beyond the safe integers the sum is rounded before it is divided:
    after recording 2^53, 1 and 1 the script holds the total 2^53 and
    prints an average that is not the one of the three durations. *)
Example average_beyond_safe_integers :
  HighSamp64.getAverageProcessingTime
    (record_all64 [JS.of_Z (2 ^ 53); JS.of_Z 1; JS.of_Z 1]
       HighSamp64.constructor) = "3002399751580330.50ms" /\
  JS.toFixed 2 (JS.num_div (JS.of_Z (2 ^ 53 + 2)) (JS.of_Z 3))
  = "3002399751580331.50".
Proof. split; vm_compute; reflexivity. Qed.

(** The quotient is rounded twice, to binary64 and then to two decimals:
    201/200 (199 durations of 1 ms and one of 2 ms) prints as 1.00ms. *)
Example average_201_over_200 :
  HighSamp.getAverageProcessingTime
    (record_all (2 :: repeat 1 199) HighSamp.constructor) = "1.00ms".
Proof. vm_compute. reflexivity. Qed.

(* ===================================================================== *)
(** ** The Transcript listener *)
(* ===================================================================== *)

(** When the listener finds no text to go on with. *)
Lemma text_of_none (tr : Transcription) :
  text_of tr = None <->
  alternatives_of tr = None \/
  alternatives_of tr = Some [] \/
  exists a rest, alternatives_of tr = Some (a :: rest) /\
                 (transcript a = None \/ transcript a = Some "").
Proof.
  unfold text_of. destruct (alternatives_of tr) as [[| a rest] |].
  - simpl. split; [intros _; right; left; reflexivity | reflexivity].
  - cbn [first_transcript]. split.
    + intros H. right; right. exists a, rest. split; [reflexivity |].
      destruct (transcript a) as [w |]; [| left; reflexivity].
      right. cbn [JS.truthy_string] in H.
      destruct (String.eqb_spec w ""); [now subst | discriminate].
    + intros [H | [H | (a' & rest' & H & Ha)]]; try discriminate.
      injection H as <- <-. destruct Ha as [-> | ->]; reflexivity.
  - split; [intros _; left; reflexivity | reflexivity].
Qed.

Lemma onTranscript_calls (tr : Transcription) (now1 now2 : Z)
  (s : HighSamp.SpeechToText) :
  calls_of (HighSamp.onTranscript tr now1 now2) s =
  match text_of tr with
  | None => []
  | Some words =>
      if is_final tr then
        ([StdoutWrite [(Plain, JS.CR)];
          ConsoleLog [(Cyan, "ULTRA-LOW: "); (Plain, words)]] ++
         (if elapsed now1 now2 s >? 0 then
            [ConsoleLog [(Yellow, "Processing Time: ");
                         (Plain, (JS.int_toString (elapsed now1 now2 s)
                                  ++ "ms")%string)];
             ConsoleLog [(Blue, "Average Processing Time: ");
                         (Plain, HighSamp.getAverageProcessingTime
                                   (HighSamp.push_stats (elapsed now1 now2 s)
                                      (anchored now1 s)))]]
          else []) ++
         [ConsoleLog [(Plain, "------------------------")]])%list
      else
        [StdoutWrite [(Plain, JS.CR); (Cyan, "Listening: ");
                      (Plain, (words ++ "                    ")%string)]]
  end.
Proof.
  unfold HighSamp.onTranscript, elapsed, anchored,
    HighSamp.updateProcessingStats.
  handler_steps.
  destruct (JS.falsy (HighSamp.startTime s)); handler_steps;
    destruct (text_of tr); handler_steps; try reflexivity;
    destruct (is_final tr); handler_steps; try reflexivity;
    match goal with
    | |- context [?a >? 0] => destruct (a >? 0); handler_steps; reflexivity
    end.
Qed.

Lemma before_onTranscript_state (tr : Transcription) (now1 now2 : Z)
  (s : Before.SpeechToText) :
  state_after (Before.onTranscript tr now1 now2) s =
  match text_of tr with
  | None => anchored_before now1 s
  | Some _ =>
      if is_final tr
      then Before.with_startTime None (anchored_before now1 s)
      else anchored_before now1 s
  end.
Proof.
  unfold Before.onTranscript, anchored_before. handler_steps.
  destruct (JS.falsy (Before.startTime s)); handler_steps;
    destruct (text_of tr); handler_steps; try reflexivity;
    destruct (is_final tr); reflexivity.
Qed.

Lemma before_onTranscript_calls (tr : Transcription) (now1 now2 : Z)
  (s : Before.SpeechToText) :
  calls_of (Before.onTranscript tr now1 now2) s =
  match text_of tr with
  | None => []
  | Some words =>
      if is_final tr then
        [StdoutWrite [(Plain, JS.CR)];
         ConsoleLog [(Green, "FINAL: "); (Plain, words)];
         ConsoleLog [(Yellow, "Processing Time: ");
                     (Plain, JS.int_toString
                               (now2 - JS.to_number
                                  (Before.startTime (anchored_before now1 s)))
                             ++ "ms")];
         ConsoleLog [(Plain, "------------------------")]]
      else
        [StdoutWrite [(Plain, JS.CR); (Cyan, "Listening: ");
                      (Plain, words ++ "                    ")]]
  end.
Proof.
  unfold Before.onTranscript, anchored_before. handler_steps.
  destruct (JS.falsy (Before.startTime s)); handler_steps;
    destruct (text_of tr); handler_steps; try reflexivity;
    destruct (is_final tr); reflexivity.
Qed.

(** C5, as the claim has it, fails: a Transcript event with an empty list of
    alternatives that arrives while [startTime] is [null] sets [startTime]
    to the current time. *)
Lemma textless_event_sets_startTime :
  let p := run highsamp None [OpenEvent] in
  let p' := deliver highsamp p (TranscriptEvent no_alternatives 1000 1000) in
  alternatives_of no_alternatives = Some [] /\
  HighSamp.startTime (fst p) = None /\
  HighSamp.startTime (fst p') = Some 1000 /\
  fst p' <> fst p.
Proof.
  vm_compute. repeat split; try reflexivity. discriminate.
Qed.

(** C5, amended.  For every Transcript event in which the listener finds no
    text (no list of alternatives, an empty one, or a first alternative
    whose transcript is absent or empty), in both scripts: the listener
    prints nothing and calls no collaborator; it leaves the connection, the
    microphone stream and the latency statistics as they were; it leaves
    [startTime] as it was when [startTime] is set (truthy), and otherwise
    sets it to the current time. *)
Theorem textless_transcript_only_anchors
  (tr : Transcription) (now1 now2 : Z) (Htext : text_of tr = None) :
  (forall s : HighSamp.SpeechToText,
     let s' := state_after (HighSamp.onTranscript tr now1 now2) s in
     calls_of (HighSamp.onTranscript tr now1 now2) s = [] /\
     stats_of s' = stats_of s /\
     HighSamp.connection s' = HighSamp.connection s /\
     HighSamp.micStream s' = HighSamp.micStream s /\
     HighSamp.mic s' = HighSamp.mic s /\
     HighSamp.startTime s' =
       (if JS.falsy (HighSamp.startTime s) then Some now1
        else HighSamp.startTime s) /\
     (JS.falsy (HighSamp.startTime s) = false -> s' = s)) /\
  (forall s : Before.SpeechToText,
     let s' := state_after (Before.onTranscript tr now1 now2) s in
     calls_of (Before.onTranscript tr now1 now2) s = [] /\
     Before.connection s' = Before.connection s /\
     Before.micStream s' = Before.micStream s /\
     Before.mic s' = Before.mic s /\
     Before.startTime s' =
       (if JS.falsy (Before.startTime s) then Some now1
        else Before.startTime s) /\
     (JS.falsy (Before.startTime s) = false -> s' = s)).
Proof.
  split; intros s; cbv zeta.
  - rewrite onTranscript_calls, onTranscript_state, Htext. unfold anchored.
    destruct (JS.falsy (HighSamp.startTime s));
      repeat split; intros; (reflexivity || discriminate).
  - rewrite before_onTranscript_calls, before_onTranscript_state, Htext.
    unfold anchored_before.
    destruct (JS.falsy (Before.startTime s));
      repeat split; intros; (reflexivity || discriminate).
Qed.

Lemma textless_transcript_only_anchors_witness :
  text_of no_alternatives = None /\
  calls_of (HighSamp.onTranscript no_alternatives 1000 1000)
    HighSamp.constructor = [] /\
  HighSamp.startTime
    (state_after (HighSamp.onTranscript no_alternatives 1000 1000)
       HighSamp.constructor) = Some 1000.
Proof.
  assert (H : text_of no_alternatives = None) by reflexivity.
  split; [exact H |].
  destruct (textless_transcript_only_anchors no_alternatives 1000 1000 H)
    as (Hh & _).
  destruct (Hh HighSamp.constructor) as (Hc & _ & _ & _ & _ & Hs & _).
  split; [exact Hc | exact Hs].
Defined.



(* ===================================================================== *)
(** ** Forwarding audio *)
(* ===================================================================== *)

Lemma onData_calls (d : chunk) (rs : Z) (s : HighSamp.SpeechToText) :
  calls_of (HighSamp.onData d rs) s =
  if isSome (HighSamp.connection s) && (rs =? 1)
  then [ConnectionSend d] else [].
Proof.
  unfold HighSamp.onData. handler_steps.
  destruct (isSome (HighSamp.connection s) && (rs =? 1)); reflexivity.
Qed.

Lemma before_onData_calls (d : chunk) (rs : Z) (s : Before.SpeechToText) :
  calls_of (Before.onData d rs) s =
  if isSome (Before.connection s) && (rs =? 1)
  then [ConnectionSend d] else [].
Proof.
  unfold Before.onData. handler_steps.
  destruct (isSome (Before.connection s) && (rs =? 1)); reflexivity.
Qed.

Lemma before_onData_unchanged (d : chunk) (rs : Z) (s : Before.SpeechToText) :
  state_after (Before.onData d rs) s = s.
Proof. unfold Before.onData. handler_cases; reflexivity. Qed.

Lemma guard_true_iff {A} (c : option A) (rs : Z) :
  isSome c && (rs =? 1) = true <-> c <> None /\ rs = 1.
Proof.
  rewrite andb_true_iff, Z.eqb_eq. destruct c; simpl; split.
  - intros (_ & ->). split; [discriminate | reflexivity].
  - intros (_ & ->). split; reflexivity.
  - intros (H & _). discriminate H.
  - intros (H & _). contradiction.
Qed.

(* ===================================================================== *)
(** ** Teardown, one call at a time *)
(* ===================================================================== *)

Section Teardown.

Lemma before_stop_result (s : Before.SpeechToText) :
  Before.stop s =
  (tt,
   (if isSome (Before.micStream s) then Before.with_micStream None s else s),
   ((if isSome (Before.micStream s) then [MicStopRecording] else []) ++
    (if isSome (Before.connection s) then [ConnectionFinish] else []))%list).
Proof.
  destruct s as [c st m ms]. destruct ms, c; reflexivity.
Qed.

Lemma onClose_result (s : HighSamp.SpeechToText) :
  HighSamp.onClose s =
  (tt, state_after HighSamp.stop s,
   (ConsoleLog [(Yellow, "Connection to Deepgram closed")] ::
    (if HighSamp.utteranceCount s >? 0
     then [HighSamp.final_average_line s] else []) ++
    calls_of HighSamp.stop s)%list).
Proof.
  unfold HighSamp.onClose. handler_steps.
  destruct (HighSamp.utteranceCount s >? 0); handler_steps;
    destruct (HighSamp.stop s) as [[[] s'] o]; reflexivity.
Qed.

Lemma onSIGINT_result (s : HighSamp.SpeechToText) :
  HighSamp.onSIGINT s =
  (tt, state_after HighSamp.stop s,
   (ConsoleLog [(Plain, JS.LF ++ "Stopping transcription...")%string] ::
    calls_of HighSamp.stop s ++ [ProcessExit None])%list).
Proof.
  unfold HighSamp.onSIGINT. handler_steps.
  destruct (HighSamp.stop s) as [[[] s'] o]; reflexivity.
Qed.

Lemma before_onClose_result (s : Before.SpeechToText) :
  Before.onClose s =
  (tt, state_after Before.stop s,
   (ConsoleLog [(Yellow, "Connection to Deepgram closed")] ::
    calls_of Before.stop s)%list).
Proof.
  unfold Before.onClose. handler_steps.
  destruct (Before.stop s) as [[[] s'] o]; reflexivity.
Qed.

Lemma before_onSIGINT_result (s : Before.SpeechToText) :
  Before.onSIGINT s =
  (tt, state_after Before.stop s,
   (calls_of Before.stop s ++ [ProcessExit None])%list).
Proof.
  unfold Before.onSIGINT. handler_steps.
  destruct (Before.stop s) as [[[] s'] o]; reflexivity.
Qed.

Lemma stop_calls (s : HighSamp.SpeechToText) :
  calls_of HighSamp.stop s =
  ((if isSome (HighSamp.micStream s) then [MicStopRecording] else []) ++
   (if isSome (HighSamp.connection s) then [ConnectionFinish] else []) ++
   (if HighSamp.utteranceCount s >? 0
    then [HighSamp.final_average_line s] else []))%list.
Proof. unfold calls_of. now rewrite stop_result. Qed.

Lemma stop_state (s : HighSamp.SpeechToText) :
  state_after HighSamp.stop s =
  if isSome (HighSamp.micStream s)
  then HighSamp.with_micStream None s else s.
Proof. unfold state_after. now rewrite stop_result. Qed.

Lemma before_stop_calls (s : Before.SpeechToText) :
  calls_of Before.stop s =
  ((if isSome (Before.micStream s) then [MicStopRecording] else []) ++
   (if isSome (Before.connection s) then [ConnectionFinish] else []))%list.
Proof. unfold calls_of. now rewrite before_stop_result. Qed.

Lemma before_stop_state (s : Before.SpeechToText) :
  state_after Before.stop s =
  if isSome (Before.micStream s)
  then Before.with_micStream None s else s.
Proof. unfold state_after. now rewrite before_stop_result. Qed.

End Teardown.

(** What a delivery does to a process. *)
Lemma deliver_cases (P : Script) (s : object P) (log : list effect)
  (ev : event) :
  deliver P (s, log) ev = (s, log) \/
  (exited log = false /\
   exists h, listener P ev log = Some h /\
             deliver P (s, log) ev
             = (state_after h s, (log ++ calls_of h s)%list)).
Proof.
  unfold deliver. destruct (exited log); [left; reflexivity |].
  destruct (listener P ev log) as [h |]; [| left; reflexivity].
  right. split; [reflexivity |]. exists h. split; reflexivity.
Qed.

(** Which listener answers which event. *)
Lemma listener_cases (P : Script) (ev : event) (log : list effect)
  (h : M (object P) unit) :
  listener P ev log = Some h ->
  match ev with
  | OpenEvent => h = onOpen P
  | MicData d rs => h = onData P d rs
  | MicError err => h = onMicError P err
  | TranscriptEvent tr now1 now2 => h = onTranscript P tr now1 now2
  | ErrorEvent err => h = onError P err
  | CloseEvent => h = onClose P
  | SIGINT => h = onSIGINT P
  end.
Proof.
  destruct ev; cbn [listener];
    match goal with
    | |- (if ?b then _ else _) = _ -> _ => destruct b
    end; intros H; (discriminate H || (injection H as <-; reflexivity)).
Qed.


Lemma highsamp_send_origin (ev : event) (log : list effect)
  (h : M HighSamp.SpeechToText unit) (s : HighSamp.SpeechToText) (d : chunk) :
  listener highsamp ev log = Some h ->
  In (ConnectionSend d) (calls_of h s) ->
  ev = MicData d 1 /\ HighSamp.connection s <> None.
Proof.
  intros Hl Hin. apply listener_cases in Hl.
  destruct ev; subst h;
    cbn [highsamp onOpen onData onMicError onTranscript onError onClose
         onSIGINT] in Hin.
  - calls_cases Hin.
  - rewrite onData_calls in Hin.
    destruct (isSome (HighSamp.connection s) && (readyState =? 1)) eqn:G;
      [| contradiction].
    apply guard_true_iff in G. destruct G as (Hc & ->).
    destruct Hin as [E | []]. injection E as ->. split; [reflexivity | exact Hc].
  - calls_cases Hin.
  - rewrite onTranscript_calls in Hin. calls_cases Hin.
  - calls_cases Hin.
  - unfold calls_of in Hin. rewrite onClose_result in Hin. cbn [snd] in Hin.
    rewrite stop_calls in Hin. calls_cases Hin.
  - unfold calls_of in Hin. rewrite onSIGINT_result in Hin. cbn [snd] in Hin.
    rewrite stop_calls in Hin. calls_cases Hin.
Qed.

Lemma before_send_origin (ev : event) (log : list effect)
  (h : M Before.SpeechToText unit) (s : Before.SpeechToText) (d : chunk) :
  listener before ev log = Some h ->
  In (ConnectionSend d) (calls_of h s) ->
  ev = MicData d 1 /\ Before.connection s <> None.
Proof.
  intros Hl Hin. apply listener_cases in Hl.
  destruct ev; subst h;
    cbn [before onOpen onData onMicError onTranscript onError onClose
         onSIGINT] in Hin.
  - calls_cases Hin.
  - rewrite before_onData_calls in Hin.
    destruct (isSome (Before.connection s) && (readyState =? 1)) eqn:G;
      [| contradiction].
    apply guard_true_iff in G. destruct G as (Hc & ->).
    destruct Hin as [E | []]. injection E as ->. split; [reflexivity | exact Hc].
  - calls_cases Hin.
  - rewrite before_onTranscript_calls in Hin. calls_cases Hin.
  - calls_cases Hin.
  - unfold calls_of in Hin. rewrite before_onClose_result in Hin.
    cbn [snd] in Hin. rewrite before_stop_calls in Hin. calls_cases Hin.
  - unfold calls_of in Hin. rewrite before_onSIGINT_result in Hin.
    cbn [snd] in Hin. rewrite before_stop_calls in Hin. calls_cases Hin.
Qed.

Section SendTrace.

Variable P : Script.
Variable connected : object P -> Prop.

Hypothesis origin :
  forall ev log h s d,
    listener P ev log = Some h ->
    In (ConnectionSend d) (calls_of h s) ->
    ev = MicData d 1 /\ connected s.

Hypothesis main_sends_nothing :
  forall thrown d, ~ In (ConnectionSend d) (snd (main P thrown)).

(** Every [send] in the log of a run answers a [data] event of the
    microphone whose ready-state query returned 1, delivered while the
    connection existed. *)
Lemma send_has_data_event (thrown : option string) (evs : list event)
  (d : chunk) :
  In (ConnectionSend d) (snd (run P thrown evs)) ->
  exists before_it after_it,
    evs = (before_it ++ MicData d 1 :: after_it)%list /\
    connected (fst (run P thrown before_it)).
Proof.
  induction evs as [| ev evs IH] using rev_ind; intros Hin.
  - exfalso. exact (main_sends_nothing thrown d Hin).
  - rewrite run_snoc in Hin.
    destruct (run P thrown evs) as [s log] eqn:Hrun.
    destruct (deliver_cases P s log ev) as [E | (_ & h & Hl & E)];
      rewrite E in Hin; cbn [snd] in Hin.
    + destruct (IH Hin) as (b & a & -> & Hc).
      exists b, (a ++ [ev])%list. split; [| exact Hc].
      now rewrite <- app_assoc.
    + apply in_app_or in Hin. destruct Hin as [Hin | Hin].
      * destruct (IH Hin) as (b & a & -> & Hc).
        exists b, (a ++ [ev])%list. split; [| exact Hc].
        now rewrite <- app_assoc.
      * destruct (origin ev log h s d Hl Hin) as (-> & Hc).
        exists evs, []. split; [reflexivity |].
        rewrite Hrun. exact Hc.
Qed.

End SendTrace.

(** C7. In both scripts the [data] listener sends the chunk to the
    connection if and only if [this.connection] is not [null] and
    [getReadyState()] returns 1 when the chunk arrives; otherwise it calls
    nothing; in both cases the object is left as it was (it has no field to
    hold a chunk back).  Over a whole run, each [send] in the log answers
    one [data] event whose ready-state was 1, delivered while the
    connection existed. *)
Theorem chunk_sent_iff_channel_ready :
  (forall (s : HighSamp.SpeechToText) (d : chunk) (readyState : Z),
     (HighSamp.connection s <> None /\ readyState = 1 ->
      calls_of (HighSamp.onData d readyState) s = [ConnectionSend d]) /\
     (~ (HighSamp.connection s <> None /\ readyState = 1) ->
      calls_of (HighSamp.onData d readyState) s = []) /\
     state_after (HighSamp.onData d readyState) s = s) /\
  (forall (s : Before.SpeechToText) (d : chunk) (readyState : Z),
     (Before.connection s <> None /\ readyState = 1 ->
      calls_of (Before.onData d readyState) s = [ConnectionSend d]) /\
     (~ (Before.connection s <> None /\ readyState = 1) ->
      calls_of (Before.onData d readyState) s = []) /\
     state_after (Before.onData d readyState) s = s) /\
  (forall (thrown : option string) (evs : list event) (d : chunk),
     In (ConnectionSend d) (snd (run highsamp thrown evs)) ->
     exists before_it after_it,
       evs = (before_it ++ MicData d 1 :: after_it)%list /\
       HighSamp.connection (fst (run highsamp thrown before_it)) <> None) /\
  (forall (thrown : option string) (evs : list event) (d : chunk),
     In (ConnectionSend d) (snd (run before thrown evs)) ->
     exists before_it after_it,
       evs = (before_it ++ MicData d 1 :: after_it)%list /\
       Before.connection (fst (run before thrown before_it)) <> None).
Proof.
  split; [| split; [| split]].
  - intros s d rs. rewrite onData_calls, onData_unchanged.
    destruct (isSome (HighSamp.connection s) && (rs =? 1)) eqn:G.
    + apply guard_true_iff in G. repeat split; intros; tauto.
    + repeat split; intros H; try reflexivity.
      apply guard_true_iff in H. congruence.
  - intros s d rs. rewrite before_onData_calls, before_onData_unchanged.
    destruct (isSome (Before.connection s) && (rs =? 1)) eqn:G.
    + apply guard_true_iff in G. repeat split; intros; tauto.
    + repeat split; intros H; try reflexivity.
      apply guard_true_iff in H. congruence.
  - apply (send_has_data_event highsamp
             (fun s => HighSamp.connection s <> None)).
    + exact highsamp_send_origin.
    + intros [err |] d H; simpl in H; intuition discriminate.
  - apply (send_has_data_event before
             (fun s => Before.connection s <> None)).
    + exact before_send_origin.
    + intros [err |] d H; simpl in H; intuition discriminate.
Qed.

(* ===================================================================== *)
(** ** A start that fails *)
(* ===================================================================== *)

Section FailedStart.

Variable err : string.

(** The process after the top-level statements when [listen.live]
    throws, and after the first SIGINT that follows. *)
Lemma highsamp_failed_main :
  main highsamp (Some err) =
  (HighSamp.constructor,
   [ListenLive HighSamp.live_options;
    ConsoleError [(Red, "Error starting speech-to-text:")] err;
    ProcessOn "SIGINT"]).
Proof. reflexivity. Qed.

Lemma before_failed_main :
  main before (Some err) =
  (Before.constructor,
   [ListenLive Before.live_options;
    ConsoleError [(Red, "Error starting speech-to-text:")] err;
    ProcessOn "SIGINT"]).
Proof. reflexivity. Qed.

Lemma highsamp_failed_run (evs : list event) :
  run highsamp (Some err) evs =
  (HighSamp.constructor,
   (snd (main highsamp (Some err)) ++
    (if existsb is_sigint evs
     then [ConsoleLog [(Plain, JS.LF ++ "Stopping transcription...")%string];
           ProcessExit None]
     else []))%list).
Proof.
  induction evs as [| ev evs IH] using rev_ind.
  - reflexivity.
  - rewrite run_snoc, IH, existsb_app.
    destruct (existsb is_sigint evs); destruct ev; reflexivity.
Qed.

Lemma before_failed_run (evs : list event) :
  run before (Some err) evs =
  (Before.constructor,
   (snd (main before (Some err)) ++
    (if existsb is_sigint evs then [ProcessExit None] else []))%list).
Proof.
  induction evs as [| ev evs IH] using rev_ind.
  - reflexivity.
  - rewrite run_snoc, IH, existsb_app.
    destruct (existsb is_sigint evs); destruct ev; reflexivity.
Qed.

End FailedStart.

(** C8, as the claim has it, fails: when [listen.live] throws, [start()]
    reports the error and returns.  It does not call [process.exit] and
    sets no exit code, so the process, which is left with nothing to wait
    for, ends with status 0; and if a SIGINT is delivered first, its
    listener calls [process.exit()], whose status is 0 as well.  No call
    in the log ends the process with another status. *)
Lemma failed_start_exit_status_is_zero :
  exit_statuses (snd (run highsamp (Some "cannot open") [])) = [] /\
  exit_statuses (snd (run highsamp (Some "cannot open") [SIGINT])) = [0] /\
  exit_statuses (snd (run before (Some "cannot open") [SIGINT])) = [0] /\
  ~ (exists c : Z,
       In c (exit_statuses (snd (run highsamp (Some "cannot open") [SIGINT])))
       /\ c <> 0) /\
  end_status (snd (run highsamp (Some "cannot open") [])) = 0 /\
  end_status (snd (run before (Some "cannot open") [])) = 0 /\
  end_status (snd (run highsamp (Some "cannot open") [SIGINT])) = 0 /\
  end_status (snd (run before (Some "cannot open") [SIGINT])) = 0.
Proof.
  split; [reflexivity |]. split; [reflexivity |]. split; [reflexivity |].
  split; [| repeat split; reflexivity].
  intros (c & Hin & Hc). vm_compute in Hin. destruct Hin as [<- | []].
  now apply Hc.
Qed.

(** C8, amended.  In both scripts, for every run in which [listen.live]
    throws, whatever events follow: the object stays as constructed
    ([connection] and [micStream] are [null]); [listen.live] is called
    exactly once (no retry); the startup error is reported exactly once; no
    listener is subscribed on a connection or a stream and the microphone
    is never started, so the process is left with nothing to wait for;
    [start()] itself neither calls [process.exit] nor sets an exit code.
    The only [process.exit] call of such a run is that of the SIGINT
    listener, without argument, if a SIGINT is delivered.  However the
    process ends, by itself or through that call, its status is 0. *)
Theorem failed_start_reports_once (err : string) (evs : list event) :
  (let (s, log) := run highsamp (Some err) evs in
   s = HighSamp.constructor /\
   count_calls is_listen_live log = 1%nat /\
   count_calls is_startup_error log = 1%nat /\
   count_calls is_subscription log = 0%nat /\
   count_calls is_mic_start log = 0%nat /\
   exit_statuses log = (if existsb is_sigint evs then [0] else []) /\
   exit_statuses (snd (main highsamp (Some err))) = [] /\
   end_status log = 0) /\
  (let (s, log) := run before (Some err) evs in
   s = Before.constructor /\
   count_calls is_listen_live log = 1%nat /\
   count_calls is_startup_error log = 1%nat /\
   count_calls is_subscription log = 0%nat /\
   count_calls is_mic_start log = 0%nat /\
   exit_statuses log = (if existsb is_sigint evs then [0] else []) /\
   exit_statuses (snd (main before (Some err))) = [] /\
   end_status log = 0).
Proof.
  rewrite highsamp_failed_run, before_failed_run.
  destruct (existsb is_sigint evs); repeat split.
Qed.

(* ===================================================================== *)
(** ** Teardown over a run *)
(* ===================================================================== *)

(** C2, the run on which the scripts part from the claim: one utterance is
    recorded, the connection closes, then SIGINT arrives.  The Close
    listener prints the summary and calls [stop()], which prints it again;
    [stop()] resets [micStream] but not [connection], so the second
    [stop()], from the SIGINT listener, calls [finish()] and prints the
    summary once more.  The microphone is stopped once, [finish()] is
    called twice, the summary is printed three times (twice already on the
    Close event alone). *)
Theorem teardown_twice_counts :
  let evs := [OpenEvent;
              TranscriptEvent (said false "hello") 1000 1000;
              TranscriptEvent (said true "hello") 1100 1100;
              CloseEvent] in
  let closed := snd (run highsamp None evs) in
  let interrupted := snd (run highsamp None (evs ++ [SIGINT])) in
  (count_calls is_mic_stop closed, count_calls is_finish closed,
   count_calls is_summary closed) = (1, 1, 2)%nat /\
  (count_calls is_mic_stop interrupted, count_calls is_finish interrupted,
   count_calls is_summary interrupted) = (1, 2, 3)%nat /\
  count_calls is_finish (snd (run before None (evs ++ [SIGINT]))) = 2%nat.
Proof. vm_compute. repeat split. Qed.

(** Events that come before the channel is ready leave the object as
    [start()] left it. *)
Lemma highsamp_unready_object (thrown : option string) (evs : list event) :
  forallb before_ready evs = true ->
  fst (run highsamp thrown evs) = fst (main highsamp thrown).
Proof.
  destruct thrown as [err |].
  { intros _. now rewrite highsamp_failed_run. }
  induction evs as [| ev evs IH] using rev_ind; [reflexivity |].
  rewrite forallb_app, andb_true_iff. cbn [forallb]. rewrite andb_true_r.
  intros (Hevs & Hev). specialize (IH Hevs). rewrite run_snoc.
  destruct (run highsamp None evs) as [s log]. cbn [fst] in IH. subst s.
  destruct (deliver_cases highsamp (fst (main highsamp None)) log ev)
    as [E | (_ & h & Hl & E)]; rewrite E; [reflexivity |].
  apply listener_cases in Hl.
  destruct ev; try discriminate Hev; subst h; try reflexivity.
  cbn [fst highsamp onData]. apply onData_unchanged.
Qed.

Lemma before_unready_object (thrown : option string) (evs : list event) :
  forallb before_ready evs = true ->
  fst (run before thrown evs) = fst (main before thrown).
Proof.
  destruct thrown as [err |].
  { intros _. now rewrite before_failed_run. }
  induction evs as [| ev evs IH] using rev_ind; [reflexivity |].
  rewrite forallb_app, andb_true_iff. cbn [forallb]. rewrite andb_true_r.
  intros (Hevs & Hev). specialize (IH Hevs). rewrite run_snoc.
  destruct (run before None evs) as [s log]. cbn [fst] in IH. subst s.
  destruct (deliver_cases before (fst (main before None)) log ev)
    as [E | (_ & h & Hl & E)]; rewrite E; [reflexivity |].
  apply listener_cases in Hl.
  destruct ev; try discriminate Hev; subst h; try reflexivity.
  cbn [fst before onData]. apply before_onData_unchanged.
Qed.

(** C10, as the claim has it, fails: once [start()] has returned, and before
    any Open event, [connection] holds the live client, and [stop()] calls
    [finish()] on it. *)
Lemma stop_before_open_calls_finish :
  let s := fst (run highsamp None []) in
  HighSamp.micStream s = None /\
  HighSamp.utteranceCount s = 0 /\
  HighSamp.connection s = Some (live_client HighSamp.live_options) /\
  calls_of HighSamp.stop s = [ConnectionFinish].
Proof. vm_compute. repeat split. Qed.

(** C10, amended.  In both scripts: [stop()] on an object whose [start()]
    was never called makes no call at all.  After [start()], for every run
    of events in which the channel never got ready (no Open and no
    Transcript event): [micStream] is [null] and (in the ultra-low-latency
    script) [utteranceCount] is 0, so [stop()] neither stops the microphone
    nor prints a summary; [connection] is [null] exactly when [listen.live]
    threw, and otherwise [stop()] calls [finish()] on it, once, and nothing
    else.  In every case [stop()] leaves the object as it was. *)
Theorem stop_before_ready
  (thrown : option string) (evs : list event)
  (Hevs : forallb before_ready evs = true) :
  (calls_of HighSamp.stop HighSamp.constructor = [] /\
   state_after HighSamp.stop HighSamp.constructor = HighSamp.constructor /\
   calls_of Before.stop Before.constructor = [] /\
   state_after Before.stop Before.constructor = Before.constructor) /\
  (let s := fst (run highsamp thrown evs) in
   HighSamp.micStream s = None /\
   HighSamp.utteranceCount s = 0 /\
   HighSamp.connection s =
     match thrown with
     | Some _ => None
     | None => Some (live_client HighSamp.live_options)
     end /\
   calls_of HighSamp.stop s =
     match thrown with Some _ => [] | None => [ConnectionFinish] end /\
   state_after HighSamp.stop s = s) /\
  (let s := fst (run before thrown evs) in
   Before.micStream s = None /\
   Before.connection s =
     match thrown with
     | Some _ => None
     | None => Some (live_client Before.live_options)
     end /\
   calls_of Before.stop s =
     match thrown with Some _ => [] | None => [ConnectionFinish] end /\
   state_after Before.stop s = s).
Proof.
  split; [repeat split |].
  cbv zeta. rewrite highsamp_unready_object, before_unready_object by exact Hevs.
  destruct thrown; repeat split.
Qed.

Lemma stop_before_ready_witness :
  forallb before_ready [ErrorEvent "refused"; CloseEvent] = true /\
  calls_of HighSamp.stop
    (fst (run highsamp None [ErrorEvent "refused"; CloseEvent]))
  = [ConnectionFinish].
Proof.
  assert (H : forallb before_ready [ErrorEvent "refused"; CloseEvent] = true)
    by reflexivity.
  split; [exact H |].
  destruct (stop_before_ready None [ErrorEvent "refused"; CloseEvent] H)
    as (_ & (_ & _ & _ & Hc & _) & _).
  exact Hc.
Defined.

(* ===================================================================== *)
(** ** The two scripts side by side *)
(* ===================================================================== *)

Section Variants.

Lemma existsb_filter_common (p : effect -> bool) (log : list effect) :
  (forall e, p e = true -> common e = true) ->
  existsb p (filter common log) = existsb p log.
Proof.
  intros Hp. induction log as [| e log IH]; [reflexivity |].
  cbn [filter existsb]. destruct (common e) eqn:Hc.
  - cbn [existsb]. now rewrite IH.
  - rewrite IH. destruct (p e) eqn:He; [| reflexivity].
    apply Hp in He. congruence.
Qed.

Lemma exited_common (log : list effect) :
  exited (filter common log) = exited log.
Proof.
  apply existsb_filter_common. intros []; (discriminate || reflexivity).
Qed.

Lemma listener_common (P : Script) (ev : event) (log : list effect) :
  listener P ev (filter common log) = listener P ev log.
Proof.
  destruct ev; cbn [listener];
    unfold listens_connection, listens_stream, listens_process;
    rewrite existsb_filter_common; try reflexivity;
    intros []; (discriminate || reflexivity).
Qed.

(** Logs with the same common calls have the same listeners, for the same
    events, in both scripts. *)
Lemma same_listeners (ev : event) (lh lb : list effect) :
  filter common lh = filter common lb ->
  isSome (listener highsamp ev lh) = isSome (listener before ev lb).
Proof.
  intros E.
  rewrite <- (listener_common highsamp), <- (listener_common before), E.
  destruct ev; cbn [listener];
    match goal with
    | |- context [if ?c then _ else _] => destruct c
    end; reflexivity.
Qed.

Lemma handlers_agree (ev : event) (lh lb : list effect)
  (hh : M HighSamp.SpeechToText unit) (hb : M Before.SpeechToText unit)
  (h : HighSamp.SpeechToText) (b : Before.SpeechToText) :
  listener highsamp ev lh = Some hh ->
  listener before ev lb = Some hb ->
  same_session h b ->
  filter common (calls_of hh h) = filter common (calls_of hb b) /\
  same_session (state_after hh h) (state_after hb b).
Proof.
  intros Hh Hb (Hc & Hst & Hms).
  apply listener_cases in Hh. apply listener_cases in Hb.
  destruct ev; subst hh hb;
    cbn [highsamp before onOpen onData onMicError onTranscript onError
         onClose onSIGINT].
  - split; [reflexivity |]. repeat split; assumption.
  - rewrite onData_calls, before_onData_calls, onData_unchanged,
      before_onData_unchanged, Hc.
    split; [reflexivity | repeat split; assumption].
  - split; [reflexivity | repeat split; assumption].
  - rewrite onTranscript_calls, before_onTranscript_calls,
      onTranscript_state, before_onTranscript_state.
    assert (Ha : same_session (anchored now1 h) (anchored_before now1 b)).
    { unfold anchored, anchored_before. rewrite Hst.
      destruct (JS.falsy (Before.startTime b)); repeat split; assumption. }
    destruct (text_of transcription); [| split; [reflexivity | exact Ha]].
    destruct (is_final transcription); [| split; [reflexivity | exact Ha]].
    destruct Ha as (Hc' & _ & Hms').
    destruct (elapsed now1 now2 h >? 0);
      (split; [reflexivity | repeat split; assumption]).
  - split; [reflexivity | repeat split; assumption].
  - unfold calls_of, state_after.
    rewrite onClose_result, before_onClose_result. cbn [fst snd].
    rewrite stop_calls, before_stop_calls, stop_state, before_stop_state.
    destruct h as [hc hst hp ht hn hm hms], b as [bc bst bm bms].
    cbn [HighSamp.connection HighSamp.startTime HighSamp.micStream
         HighSamp.utteranceCount Before.connection Before.startTime
         Before.micStream] in *.
    subst hst hms.
    destruct hc, bc; try discriminate Hc; destruct bms, (hn >? 0);
      (split; [reflexivity | repeat split]).
  - unfold calls_of, state_after.
    rewrite onSIGINT_result, before_onSIGINT_result. cbn [fst snd].
    rewrite stop_calls, before_stop_calls, stop_state, before_stop_state.
    destruct h as [hc hst hp ht hn hm hms], b as [bc bst bm bms].
    cbn [HighSamp.connection HighSamp.startTime HighSamp.micStream
         HighSamp.utteranceCount Before.connection Before.startTime
         Before.micStream] in *.
    subst hst hms.
    destruct hc, bc; try discriminate Hc; destruct bms, (hn >? 0);
      (split; [reflexivity | repeat split]).
Qed.

(** One delivery keeps the two processes in step. *)
Lemma deliver_agree (ph : process highsamp) (pb : process before)
  (ev : event) :
  filter common (snd ph) = filter common (snd pb) ->
  same_session (fst ph) (fst pb) ->
  filter common (snd (deliver highsamp ph ev))
    = filter common (snd (deliver before pb ev)) /\
  same_session (fst (deliver highsamp ph ev)) (fst (deliver before pb ev)).
Proof.
  destruct ph as [h lh], pb as [b lb]. cbn [fst snd]. intros El Hs.
  pose proof (same_listeners ev lh lb El) as Hl.
  unfold deliver.
  rewrite <- (exited_common lh), <- (exited_common lb), El.
  destruct (exited (filter common lb)); [split; assumption |].
  destruct (listener highsamp ev lh) as [hh |] eqn:Hh,
           (listener before ev lb) as [hb |] eqn:Hb;
    try discriminate Hl; [| split; assumption].
  cbn [fst snd].
  destruct (handlers_agree ev lh lb hh hb h b Hh Hb Hs) as (Ec & Hs').
  split; [| exact Hs'].
  rewrite !filter_app, El. f_equal. exact Ec.
Qed.

Lemma differ_refl (l : list effect) : differ_as_listed l l.
Proof. induction l; constructor; assumption. Qed.

Lemma differ_app (lh lb lh' lb' : list effect) :
  differ_as_listed lh lb -> differ_as_listed lh' lb' ->
  differ_as_listed (lh ++ lh') (lb ++ lb').
Proof.
  intros H H'. induction H; cbn [app].
  - exact H'.
  - apply listed_same, IHdiffer_as_listed.
  - apply listed_options, IHdiffer_as_listed.
  - apply listed_microphone_line, IHdiffer_as_listed.
  - apply listed_final_label, IHdiffer_as_listed.
  - apply listed_time_omitted; [assumption | apply IHdiffer_as_listed].
  - apply listed_average, IHdiffer_as_listed.
  - apply listed_summary, IHdiffer_as_listed.
  - apply listed_stopping, IHdiffer_as_listed.
Qed.

Lemma summary_listed (h : HighSamp.SpeechToText) :
  differ_as_listed
    (if HighSamp.utteranceCount h >? 0
     then [HighSamp.final_average_line h] else []) [].
Proof.
  destruct (HighSamp.utteranceCount h >? 0); [| apply listed_end].
  apply listed_summary, listed_end.
Qed.

(** [stop()] in the two scripts: the same calls, and the summary in the
    ultra-low-latency script. *)
Lemma stop_listed (h : HighSamp.SpeechToText) (b : Before.SpeechToText) :
  same_session h b ->
  differ_as_listed (calls_of HighSamp.stop h) (calls_of Before.stop b).
Proof.
  intros (Hc & _ & Hms). rewrite stop_calls, before_stop_calls, Hc, Hms.
  apply differ_app; [apply differ_refl |].
  rewrite <- (app_nil_r (if isSome (Before.connection b) then _ else _)) at 2.
  apply differ_app; [apply differ_refl | apply summary_listed].
Qed.

(** Each listener in the two scripts: the calls differ as listed. *)
Lemma handlers_listed (ev : event) (lh lb : list effect)
  (hh : M HighSamp.SpeechToText unit) (hb : M Before.SpeechToText unit)
  (h : HighSamp.SpeechToText) (b : Before.SpeechToText) :
  listener highsamp ev lh = Some hh ->
  listener before ev lb = Some hb ->
  same_session h b ->
  differ_as_listed (calls_of hh h) (calls_of hb b).
Proof.
  intros Hh Hb Hs.
  apply listener_cases in Hh. apply listener_cases in Hb.
  destruct ev; subst hh hb;
    cbn [highsamp before onOpen onData onMicError onTranscript onError
         onClose onSIGINT].
  - apply listed_same, listed_microphone_line, differ_refl.
  - rewrite onData_calls, before_onData_calls.
    destruct Hs as (-> & _). apply differ_refl.
  - apply differ_refl.
  - rewrite onTranscript_calls, before_onTranscript_calls.
    destruct (text_of transcription) as [words |]; [| apply listed_end].
    destruct (is_final transcription); [| apply differ_refl].
    assert (Ht : now2 - JS.to_number
                          (Before.startTime (anchored_before now1 b))
                 = elapsed now1 now2 h).
    { unfold elapsed, anchored, anchored_before.
      destruct Hs as (_ & Hst & _). rewrite <- Hst.
      destruct (JS.falsy (HighSamp.startTime h));
        [reflexivity | now rewrite Hst]. }
    rewrite Ht. cbn [app].
    apply listed_same, listed_final_label.
    destruct (Z.gtb_spec (elapsed now1 now2 h) 0) as [Hpos | Hneg]; cbn [app].
    + apply listed_same, listed_average, differ_refl.
    + apply (listed_time_omitted (elapsed now1 now2 h)); [lia |].
      apply differ_refl.
  - apply differ_refl.
  - unfold calls_of at 1 2.
    rewrite onClose_result, before_onClose_result. cbn [snd].
    apply listed_same.
    rewrite <- (app_nil_l (calls_of Before.stop b)).
    apply differ_app; [apply summary_listed | apply stop_listed, Hs].
  - unfold calls_of at 1 2.
    rewrite onSIGINT_result, before_onSIGINT_result. cbn [snd].
    apply listed_stopping.
    apply differ_app; [apply stop_listed, Hs | apply differ_refl].
Qed.

(** One delivery keeps the difference of the two logs as listed. *)
Lemma deliver_listed (ph : process highsamp) (pb : process before)
  (ev : event) :
  filter common (snd ph) = filter common (snd pb) ->
  same_session (fst ph) (fst pb) ->
  differ_as_listed (snd ph) (snd pb) ->
  differ_as_listed (snd (deliver highsamp ph ev))
                   (snd (deliver before pb ev)).
Proof.
  destruct ph as [h lh], pb as [b lb]. cbn [fst snd]. intros El Hs Hd.
  pose proof (same_listeners ev lh lb El) as Hl.
  unfold deliver.
  rewrite <- (exited_common lh), <- (exited_common lb), El.
  destruct (exited (filter common lb)); [exact Hd |].
  destruct (listener highsamp ev lh) as [hh |] eqn:Hh,
           (listener before ev lb) as [hb |] eqn:Hb;
    try discriminate Hl; [| exact Hd].
  cbn [snd]. apply differ_app; [exact Hd |].
  eapply handlers_listed; eassumption.
Qed.

(** No listener touches the microphone options the constructor set. *)
Lemma highsamp_mic_kept (ev : event) (log : list effect)
  (hh : M HighSamp.SpeechToText unit) (h : HighSamp.SpeechToText) :
  listener highsamp ev log = Some hh ->
  HighSamp.mic (state_after hh h) = HighSamp.mic h.
Proof.
  intros Hh. apply listener_cases in Hh.
  destruct ev; subst hh;
    cbn [highsamp onOpen onData onMicError onTranscript onError onClose
         onSIGINT].
  - reflexivity.
  - now rewrite onData_unchanged.
  - reflexivity.
  - rewrite onTranscript_state. unfold anchored.
    destruct (text_of transcription), (is_final transcription),
      (elapsed now1 now2 h >? 0), (JS.falsy (HighSamp.startTime h));
      reflexivity.
  - reflexivity.
  - unfold state_after at 1. rewrite onClose_result. cbn [fst snd].
    rewrite stop_state. destruct (isSome (HighSamp.micStream h)); reflexivity.
  - unfold state_after at 1. rewrite onSIGINT_result. cbn [fst snd].
    rewrite stop_state. destruct (isSome (HighSamp.micStream h)); reflexivity.
Qed.

Lemma before_mic_kept (ev : event) (log : list effect)
  (hb : M Before.SpeechToText unit) (b : Before.SpeechToText) :
  listener before ev log = Some hb ->
  Before.mic (state_after hb b) = Before.mic b.
Proof.
  intros Hb. apply listener_cases in Hb.
  destruct ev; subst hb;
    cbn [before onOpen onData onMicError onTranscript onError onClose
         onSIGINT].
  - reflexivity.
  - now rewrite before_onData_unchanged.
  - reflexivity.
  - rewrite before_onTranscript_state. unfold anchored_before.
    destruct (text_of transcription), (is_final transcription),
      (JS.falsy (Before.startTime b)); reflexivity.
  - reflexivity.
  - unfold state_after at 1. rewrite before_onClose_result. cbn [fst snd].
    rewrite before_stop_state.
    destruct (isSome (Before.micStream b)); reflexivity.
  - unfold state_after at 1. rewrite before_onSIGINT_result. cbn [fst snd].
    rewrite before_stop_state.
    destruct (isSome (Before.micStream b)); reflexivity.
Qed.

Lemma highsamp_run_mic (thrown : option string) (evs : list event) :
  HighSamp.mic (fst (run highsamp thrown evs)) = HighSamp.mic_options.
Proof.
  apply (run_invariant highsamp
           (fun st => HighSamp.mic (fst st) = HighSamp.mic_options)).
  - destruct thrown; reflexivity.
  - intros [s log] ev Hs.
    destruct (deliver_cases highsamp s log ev) as [E | (_ & hh & Hl & E)];
      rewrite E; [exact Hs |].
    cbn [fst] in *. rewrite <- Hs. eapply highsamp_mic_kept, Hl.
Qed.

Lemma before_run_mic (thrown : option string) (evs : list event) :
  Before.mic (fst (run before thrown evs)) = Before.mic_options.
Proof.
  apply (run_invariant before
           (fun st => Before.mic (fst st) = Before.mic_options)).
  - destruct thrown; reflexivity.
  - intros [s log] ev Hs.
    destruct (deliver_cases before s log ev) as [E | (_ & hb & Hl & E)];
      rewrite E; [exact Hs |].
    cbn [fst] in *. rewrite <- Hs. eapply before_mic_kept, Hl.
Qed.

End Variants.

(** C9, as the claim has it, fails: on a run with one recorded utterance and
    a Close event, the logs of the two scripts differ by more than the
    options and the labels.  The ultra-low-latency script prints the running
    average and, twice, the final summary; the first script prints neither,
    and keeps no latency statistics at all. *)
Lemma variants_differ_beyond_labels :
  let evs := [OpenEvent;
              TranscriptEvent (said false "hello") 1000 1000;
              TranscriptEvent (said true "hello") 1100 1100;
              CloseEvent] in
  map unlabel (snd (run highsamp None evs))
    <> map unlabel (snd (run before None evs)) /\
  count_calls is_summary (snd (run highsamp None evs)) = 2%nat /\
  count_calls is_summary (snd (run before None evs)) = 0%nat /\
  stats_of (fst (run highsamp None evs)) = ([100], 100, 1).
Proof.
  cbv zeta. split; [| vm_compute; repeat split].
  intros E. apply (f_equal (@List.length effect)) in E.
  vm_compute in E. discriminate E.
Qed.

(** C9, amended.  For every start (failing or not) and every stream of
    events, the two scripts make the same calls, in the same order, on the
    connection, the microphone, the process and standard output, and report
    the same errors; and their objects agree on whether a connection
    exists, on [startTime] and on [micStream].  Their whole logs are the
    same call by call but for these differences, and no other: the options
    given to [listen.live]; the line printed when the microphone starts;
    the label and colour of the final transcript line (ULTRA-LOW in cyan,
    FINAL in green); the processing-time line, which the first script
    prints for every final transcript and the ultra-low-latency script
    only when the time is greater than 0; and three lines that only the
    ultra-low-latency script prints: the running average, the final
    summary and the line printed on SIGINT.  The microphones are set up
    with different options as well (11000 Hz and 8000 Hz), and only the
    ultra-low-latency script keeps latency statistics. *)
Theorem variants_share_session_behaviour
  (thrown : option string) (evs : list event) :
  (filter common (snd (run highsamp thrown evs))
     = filter common (snd (run before thrown evs)) /\
   same_session (fst (run highsamp thrown evs))
                (fst (run before thrown evs))) /\
  differ_as_listed (snd (run highsamp thrown evs))
                   (snd (run before thrown evs)) /\
  (HighSamp.mic (fst (run highsamp thrown evs)) = HighSamp.mic_options /\
   Before.mic (fst (run before thrown evs)) = Before.mic_options /\
   rate HighSamp.mic_options = 11000 /\ rate Before.mic_options = 8000).
Proof.
  assert (H : (filter common (snd (run highsamp thrown evs))
               = filter common (snd (run before thrown evs)) /\
               same_session (fst (run highsamp thrown evs))
                            (fst (run before thrown evs))) /\
              differ_as_listed (snd (run highsamp thrown evs))
                               (snd (run before thrown evs))).
  { induction evs as [| ev evs IH] using rev_ind.
    - destruct thrown; (split; [repeat split |]); cbn.
      + apply listed_options, differ_refl.
      + apply listed_options, differ_refl.
    - rewrite !run_snoc. destruct IH as ((El & Hs) & Hd).
      split; [apply deliver_agree; assumption |].
      apply deliver_listed; assumption. }
  destruct H as (H1 & H2).
  split; [exact H1 | split; [exact H2 |]].
  split; [apply highsamp_run_mic | split; [apply before_run_mic |]].
  split; reflexivity.
Qed.

(** The relation of the two logs admits no other difference: a final
    transcript line without its counterpart, or a call that only one
    script makes, is not related. *)
Example differ_as_listed_is_strict :
  ~ differ_as_listed [ConsoleLog [(Cyan, "ULTRA-LOW: "); (Plain, "hello")]] []
  /\
  ~ differ_as_listed [] [ConsoleLog [(Green, "FINAL: "); (Plain, "hello")]] /\
  ~ differ_as_listed [ConnectionFinish; ConnectionFinish] [ConnectionFinish] /\
  ~ differ_as_listed [] [time_line 100].
Proof.
  split; [| split; [| split]]; intros H.
  - inversion H.
  - inversion H.
  - inversion H; subst. match goal with H' : differ_as_listed _ [] |- _ =>
      inversion H' end.
  - inversion H as [| | | | | t lh lb Ht _ Elh Et | | |].
    destruct t as [| t | t]; [| lia |]; cbn in Et; discriminate Et.
Qed.

(* ===================================================================== *)
(** ** Further properties of the session scripts *)
(* ===================================================================== *)

Lemma count_calls_app (p : effect -> bool) (l1 l2 : list effect) :
  count_calls p (l1 ++ l2) = (count_calls p l1 + count_calls p l2)%nat.
Proof. unfold count_calls. now rewrite filter_app, length_app. Qed.

Lemma exit_statuses_app (l1 l2 : list effect) :
  exit_statuses (l1 ++ l2) = (exit_statuses l1 ++ exit_statuses l2)%list.
Proof.
  induction l1 as [| e l1 IH]; [reflexivity |].
  destruct e; simpl; now rewrite ?IH.
Qed.

Lemma exited_statuses (log : list effect) :
  exited log = negb (Nat.eqb (List.length (exit_statuses log)) 0).
Proof.
  induction log as [| e log IH]; [reflexivity |].
  destruct e; simpl; try exact IH. reflexivity.
Qed.

Lemma fold_deliver_cons (P : Script) (st : process P) (ev : event)
  (evs : list event) :
  fold_left (deliver P) (ev :: evs) st
  = fold_left (deliver P) evs (deliver P st ev).
Proof. reflexivity. Qed.

(** The resource calls of each listener of the ultra-low-latency script. *)
Lemma highsamp_resources (ev : event) (log : list effect)
  (h : M HighSamp.SpeechToText unit) (s : HighSamp.SpeechToText) :
  listener highsamp ev log = Some h ->
  filter is_resource (calls_of h s) =
  match ev with
  | OpenEvent =>
      [MicStartRecording; MicStreamOn Data; MicStreamOn StreamError]
  | CloseEvent =>
      stop_resources (isSome (HighSamp.micStream s))
                     (isSome (HighSamp.connection s))
  | SIGINT =>
      (stop_resources (isSome (HighSamp.micStream s))
                      (isSome (HighSamp.connection s))
       ++ [ProcessExit None])%list
  | _ => []
  end.
Proof.
  intros Hl. apply listener_cases in Hl.
  destruct ev; subst h;
    cbn [highsamp onOpen onData onMicError onTranscript onError onClose
         onSIGINT].
  - reflexivity.
  - rewrite onData_calls.
    destruct (isSome (HighSamp.connection s) && (readyState =? 1));
      reflexivity.
  - reflexivity.
  - rewrite onTranscript_calls.
    destruct (text_of transcription); [| reflexivity].
    destruct (is_final transcription); [| reflexivity].
    destruct (elapsed now1 now2 s >? 0); reflexivity.
  - reflexivity.
  - unfold calls_of. rewrite onClose_result. cbn [snd]. rewrite stop_calls.
    unfold stop_resources.
    destruct (isSome (HighSamp.micStream s)),
      (isSome (HighSamp.connection s)), (HighSamp.utteranceCount s >? 0);
      reflexivity.
  - unfold calls_of. rewrite onSIGINT_result. cbn [snd]. rewrite stop_calls.
    unfold stop_resources.
    destruct (isSome (HighSamp.micStream s)),
      (isSome (HighSamp.connection s)), (HighSamp.utteranceCount s >? 0);
      reflexivity.
Qed.

(** The resource calls of each listener of the first script. *)
Lemma before_resources (ev : event) (log : list effect)
  (h : M Before.SpeechToText unit) (s : Before.SpeechToText) :
  listener before ev log = Some h ->
  filter is_resource (calls_of h s) =
  match ev with
  | OpenEvent =>
      [MicStartRecording; MicStreamOn Data; MicStreamOn StreamError]
  | CloseEvent =>
      stop_resources (isSome (Before.micStream s))
                     (isSome (Before.connection s))
  | SIGINT =>
      (stop_resources (isSome (Before.micStream s))
                      (isSome (Before.connection s))
       ++ [ProcessExit None])%list
  | _ => []
  end.
Proof.
  intros Hl. apply listener_cases in Hl.
  destruct ev; subst h;
    cbn [before onOpen onData onMicError onTranscript onError onClose
         onSIGINT].
  - reflexivity.
  - rewrite before_onData_calls.
    destruct (isSome (Before.connection s) && (readyState =? 1));
      reflexivity.
  - reflexivity.
  - rewrite before_onTranscript_calls.
    destruct (text_of transcription); [| reflexivity].
    destruct (is_final transcription); reflexivity.
  - reflexivity.
  - unfold calls_of. rewrite before_onClose_result. cbn [snd].
    rewrite before_stop_calls. unfold stop_resources.
    destruct (isSome (Before.micStream s)), (isSome (Before.connection s));
      reflexivity.
  - unfold calls_of. rewrite before_onSIGINT_result. cbn [snd].
    rewrite before_stop_calls. unfold stop_resources.
    destruct (isSome (Before.micStream s)), (isSome (Before.connection s));
      reflexivity.
Qed.

Lemma filter_filter_implied {A} (p q : A -> bool) (l : list A) :
  (forall a, p a = true -> q a = true) ->
  filter p (filter q l) = filter p l.
Proof.
  intros Hpq. induction l as [| a l IH]; [reflexivity |].
  cbn [filter]. destruct (q a) eqn:Hq.
  - cbn [filter]. now rewrite IH.
  - rewrite IH. destruct (p a) eqn:Hp; [| reflexivity].
    apply Hpq in Hp. congruence.
Qed.

Lemma exit_statuses_resources (l : list effect) :
  exit_statuses (filter is_resource l) = exit_statuses l.
Proof.
  induction l as [| e l IH]; [reflexivity |].
  destruct e; simpl; now rewrite ?IH.
Qed.

Lemma exit_statuses_stop_resources (a b : bool) :
  exit_statuses (stop_resources a b) = [].
Proof. destruct a, b; reflexivity. Qed.

Section ExitOnce.

Variable P : Script.

Hypothesis sigint_registered :
  forall thrown, listens_process "SIGINT" (snd (main P thrown)) = true.

Hypothesis main_does_not_exit :
  forall thrown, exit_statuses (snd (main P thrown)) = [].

Hypothesis exit_origin :
  forall ev log h s,
    listener P ev log = Some h ->
    exit_statuses (calls_of h s) = if is_sigint ev then [0] else [].

Lemma deliver_exited (st : process P) (ev : event) :
  exited (snd st) = true -> deliver P st ev = st.
Proof.
  destruct st as [s log]. cbn [snd]. intros H. unfold deliver. now rewrite H.
Qed.

Lemma fold_deliver_exited (evs : list event) (st : process P) :
  exited (snd st) = true -> fold_left (deliver P) evs st = st.
Proof.
  intros H. induction evs as [| ev evs IH]; [reflexivity |].
  rewrite fold_deliver_cons, deliver_exited by exact H. exact IH.
Qed.

Lemma deliver_keeps_sigint_listener (st : process P) (ev : event) :
  listens_process "SIGINT" (snd st) = true ->
  listens_process "SIGINT" (snd (deliver P st ev)) = true.
Proof.
  destruct st as [s log]. cbn [snd]. intros H.
  destruct (deliver_cases P s log ev) as [E | (_ & h & _ & E)];
    rewrite E; cbn [snd]; [exact H |].
  unfold listens_process in *. rewrite existsb_app, H. reflexivity.
Qed.

(** One delivery, as far as ending the process goes. *)
Lemma deliver_exit (st : process P) (ev : event) :
  listens_process "SIGINT" (snd st) = true ->
  exited (snd st) = false ->
  exit_statuses (snd (deliver P st ev))
  = (exit_statuses (snd st) ++ (if is_sigint ev then [0] else []))%list.
Proof.
  destruct st as [s log]. cbn [snd]. intros Hreg Hex.
  unfold deliver. rewrite Hex.
  destruct (listener P ev log) as [h |] eqn:Hl.
  - cbn [snd]. rewrite exit_statuses_app. f_equal.
    eapply exit_origin; eassumption.
  - destruct ev; cbn [is_sigint snd]; try now rewrite app_nil_r.
    cbn [listener] in Hl. rewrite Hreg in Hl. discriminate Hl.
Qed.

Lemma fold_deliver_exit (evs : list event) (st : process P) :
  listens_process "SIGINT" (snd st) = true ->
  exited (snd st) = false ->
  exit_statuses (snd (fold_left (deliver P) evs st))
  = (exit_statuses (snd st)
     ++ (if existsb is_sigint evs then [0] else []))%list /\
  fold_left (deliver P) evs st = fold_left (deliver P) (until_exit evs) st.
Proof.
  revert st. induction evs as [| ev evs IH]; intros st Hreg Hex.
  - split; [now rewrite app_nil_r | reflexivity].
  - pose proof (deliver_exit st ev Hreg Hex) as Hd.
    pose proof (deliver_keeps_sigint_listener st ev Hreg) as Hreg'.
    rewrite fold_deliver_cons.
    destruct (is_sigint ev) eqn:Hev.
    + assert (Hx : exited (snd (deliver P st ev)) = true).
      { rewrite exited_statuses, Hd, length_app. cbn [List.length].
        now rewrite Nat.add_comm. }
      rewrite fold_deliver_exited by exact Hx.
      destruct ev; try discriminate Hev. cbn [existsb is_sigint orb until_exit].
      split; [exact Hd | reflexivity].
    + assert (Hx : exited (snd (deliver P st ev)) = false).
      { rewrite exited_statuses, Hd, app_nil_r, <- exited_statuses.
        exact Hex. }
      destruct (IH _ Hreg' Hx) as (IH1 & IH2).
      cbn [existsb]. rewrite Hev. cbn [orb].
      split.
      * rewrite IH1, Hd, app_nil_r. reflexivity.
      * rewrite IH2. destruct ev; try discriminate Hev; reflexivity.
Qed.

Lemma run_exit (thrown : option string) (evs : list event) :
  exit_statuses (snd (run P thrown evs))
  = (if existsb is_sigint evs then [0] else []) /\
  run P thrown evs = run P thrown (until_exit evs).
Proof.
  assert (Hex : exited (snd (main P thrown)) = false)
    by (now rewrite exited_statuses, main_does_not_exit).
  destruct (fold_deliver_exit evs (main P thrown)
              (sigint_registered thrown) Hex) as (H1 & H2).
  rewrite main_does_not_exit in H1. split; [exact H1 | exact H2].
Qed.

End ExitOnce.

Lemma highsamp_exit_origin (ev : event) (log : list effect)
  (h : M HighSamp.SpeechToText unit) (s : HighSamp.SpeechToText) :
  listener highsamp ev log = Some h ->
  exit_statuses (calls_of h s) = if is_sigint ev then [0] else [].
Proof.
  intros Hl. rewrite <- exit_statuses_resources.
  rewrite (highsamp_resources ev log h s Hl).
  destruct ev; try reflexivity.
  - apply exit_statuses_stop_resources.
  - now rewrite exit_statuses_app, exit_statuses_stop_resources.
Qed.

Lemma before_exit_origin (ev : event) (log : list effect)
  (h : M Before.SpeechToText unit) (s : Before.SpeechToText) :
  listener before ev log = Some h ->
  exit_statuses (calls_of h s) = if is_sigint ev then [0] else [].
Proof.
  intros Hl. rewrite <- exit_statuses_resources.
  rewrite (before_resources ev log h s Hl).
  destruct ev; try reflexivity.
  - apply exit_statuses_stop_resources.
  - now rewrite exit_statuses_app, exit_statuses_stop_resources.
Qed.

(** X1. In both scripts and in every run, whether [listen.live] threw or
    not: [process.exit] is called exactly when a SIGINT is delivered, once,
    by the SIGINT listener and without argument; no other listener (Close
    and Error included) calls it, and no statement of the scripts sets an
    exit code.  A process that ends through that call, or by itself because
    nothing is left for it to wait for, therefore ends with status 0. *)
Theorem exits_once_on_sigint (thrown : option string) (evs : list event) :
  (exit_statuses (snd (run highsamp thrown evs))
     = (if existsb is_sigint evs then [0] else []) /\
   exit_statuses (snd (run before thrown evs))
     = (if existsb is_sigint evs then [0] else [])) /\
  (exited (snd (run highsamp thrown evs)) = existsb is_sigint evs /\
   exited (snd (run before thrown evs)) = existsb is_sigint evs) /\
  (end_status (snd (run highsamp thrown evs)) = 0 /\
   end_status (snd (run before thrown evs)) = 0).
Proof.
  assert (Hh : exit_statuses (snd (run highsamp thrown evs))
               = (if existsb is_sigint evs then [0] else [])).
  { apply (run_exit highsamp); [intros [e |]; reflexivity
                               | intros [e |]; reflexivity
                               | exact highsamp_exit_origin]. }
  assert (Hb : exit_statuses (snd (run before thrown evs))
               = (if existsb is_sigint evs then [0] else [])).
  { apply (run_exit before); [intros [e |]; reflexivity
                             | intros [e |]; reflexivity
                             | exact before_exit_origin]. }
  split; [split; [exact Hh | exact Hb] |].
  unfold end_status. rewrite !exited_statuses, Hh, Hb.
  destruct (existsb is_sigint evs); repeat split.
Qed.

(** X2. In both scripts, nothing that arrives after the first SIGINT has
    any effect: the object and the log of a run are those of the run cut
    after its first SIGINT. *)
Theorem nothing_after_sigint (thrown : option string) (evs : list event) :
  run highsamp thrown evs = run highsamp thrown (until_exit evs) /\
  run before thrown evs = run before thrown (until_exit evs).
Proof.
  split.
  - apply (run_exit highsamp); [intros [e |]; reflexivity
                               | intros [e |]; reflexivity
                               | exact highsamp_exit_origin].
  - apply (run_exit before); [intros [e |]; reflexivity
                             | intros [e |]; reflexivity
                             | exact before_exit_origin].
Qed.

(* ===================================================================== *)
(** ** Resources over a run *)
(* ===================================================================== *)

Lemma onClose_state (s : HighSamp.SpeechToText) :
  state_after HighSamp.onClose s = state_after HighSamp.stop s.
Proof. unfold state_after at 1. now rewrite onClose_result. Qed.

Lemma onSIGINT_state (s : HighSamp.SpeechToText) :
  state_after HighSamp.onSIGINT s = state_after HighSamp.stop s.
Proof. unfold state_after at 1. now rewrite onSIGINT_result. Qed.

Lemma before_onClose_state (s : Before.SpeechToText) :
  state_after Before.onClose s = state_after Before.stop s.
Proof. unfold state_after at 1. now rewrite before_onClose_result. Qed.

Lemma before_onSIGINT_state (s : Before.SpeechToText) :
  state_after Before.onSIGINT s = state_after Before.stop s.
Proof. unfold state_after at 1. now rewrite before_onSIGINT_result. Qed.

Lemma highsamp_micStream_after (ev : event) (log : list effect)
  (h : M HighSamp.SpeechToText unit) (s : HighSamp.SpeechToText) :
  listener highsamp ev log = Some h ->
  HighSamp.micStream (state_after h s) =
  match ev with
  | OpenEvent => Some mic_stream
  | CloseEvent | SIGINT => None
  | _ => HighSamp.micStream s
  end /\
  HighSamp.connection (state_after h s) = HighSamp.connection s.
Proof.
  intros Hl. apply listener_cases in Hl.
  destruct ev; subst h;
    cbn [highsamp onOpen onData onMicError onTranscript onError onClose
         onSIGINT].
  - split; reflexivity.
  - rewrite onData_unchanged. split; reflexivity.
  - split; reflexivity.
  - rewrite onTranscript_state. unfold anchored.
    destruct (JS.falsy (HighSamp.startTime s)), (text_of transcription),
      (is_final transcription), (elapsed now1 now2 s >? 0);
      split; reflexivity.
  - split; reflexivity.
  - rewrite onClose_state, stop_state.
    destruct (HighSamp.micStream s) eqn:E; cbn [isSome].
    + split; reflexivity.
    + rewrite E. split; reflexivity.
  - rewrite onSIGINT_state, stop_state.
    destruct (HighSamp.micStream s) eqn:E; cbn [isSome].
    + split; reflexivity.
    + rewrite E. split; reflexivity.
Qed.

Lemma before_micStream_after (ev : event) (log : list effect)
  (h : M Before.SpeechToText unit) (s : Before.SpeechToText) :
  listener before ev log = Some h ->
  Before.micStream (state_after h s) =
  match ev with
  | OpenEvent => Some mic_stream
  | CloseEvent | SIGINT => None
  | _ => Before.micStream s
  end /\
  Before.connection (state_after h s) = Before.connection s.
Proof.
  intros Hl. apply listener_cases in Hl.
  destruct ev; subst h;
    cbn [before onOpen onData onMicError onTranscript onError onClose
         onSIGINT].
  - split; reflexivity.
  - rewrite before_onData_unchanged. split; reflexivity.
  - split; reflexivity.
  - rewrite before_onTranscript_state. unfold anchored_before.
    destruct (JS.falsy (Before.startTime s)), (text_of transcription),
      (is_final transcription); split; reflexivity.
  - split; reflexivity.
  - rewrite before_onClose_state, before_stop_state.
    destruct (Before.micStream s) eqn:E; cbn [isSome].
    + split; reflexivity.
    + rewrite E. split; reflexivity.
  - rewrite before_onSIGINT_state, before_stop_state.
    destruct (Before.micStream s) eqn:E; cbn [isSome].
    + split; reflexivity.
    + rewrite E. split; reflexivity.
Qed.

Lemma count_calls_resources (p : effect -> bool) (l : list effect) :
  (forall e, p e = true -> is_resource e = true) ->
  count_calls p (filter is_resource l) = count_calls p l.
Proof.
  intros Hp. unfold count_calls. now rewrite filter_filter_implied.
Qed.

(** X3. Neither script ever reconnects: in every run, whatever events
    arrive (Close and Error included), [listen.live] is called exactly
    once, by [start()], and [this.connection] keeps the value [start()]
    left in it; [stop()] never resets it to [null]. *)
Theorem never_reconnects (thrown : option string) (evs : list event) :
  (count_calls is_listen_live (snd (run highsamp thrown evs)) = 1%nat /\
   HighSamp.connection (fst (run highsamp thrown evs))
     = HighSamp.connection (fst (main highsamp thrown))) /\
  (count_calls is_listen_live (snd (run before thrown evs)) = 1%nat /\
   Before.connection (fst (run before thrown evs))
     = Before.connection (fst (main before thrown))).
Proof.
  split.
  - apply (run_invariant highsamp
             (fun st => count_calls is_listen_live (snd st) = 1%nat /\
                        HighSamp.connection (fst st)
                        = HighSamp.connection (fst (main highsamp thrown)))).
    + destruct thrown; split; reflexivity.
    + intros [s log] ev (Hc & Hs). cbn [fst snd] in *.
      destruct (deliver_cases highsamp s log ev) as [E | (_ & h & Hl & E)];
        rewrite E; cbn [fst snd]; [split; assumption |].
      split.
      * rewrite count_calls_app, Hc,
          <- (count_calls_resources is_listen_live)
          by (intros []; (discriminate || reflexivity)).
        change (object highsamp) with HighSamp.SpeechToText in *.
        rewrite (highsamp_resources ev log h s Hl).
        destruct ev; try reflexivity; unfold stop_resources;
          destruct (isSome (HighSamp.micStream s)),
            (isSome (HighSamp.connection s)); reflexivity.
      * rewrite <- Hs. apply (highsamp_micStream_after ev log h s Hl).
  - apply (run_invariant before
             (fun st => count_calls is_listen_live (snd st) = 1%nat /\
                        Before.connection (fst st)
                        = Before.connection (fst (main before thrown)))).
    + destruct thrown; split; reflexivity.
    + intros [s log] ev (Hc & Hs). cbn [fst snd] in *.
      destruct (deliver_cases before s log ev) as [E | (_ & h & Hl & E)];
        rewrite E; cbn [fst snd]; [split; assumption |].
      split.
      * rewrite count_calls_app, Hc,
          <- (count_calls_resources is_listen_live)
          by (intros []; (discriminate || reflexivity)).
        change (object before) with Before.SpeechToText in *.
        rewrite (before_resources ev log h s Hl).
        destruct ev; try reflexivity; unfold stop_resources;
          destruct (isSome (Before.micStream s)),
            (isSome (Before.connection s)); reflexivity.
      * rewrite <- Hs. apply (before_micStream_after ev log h s Hl).
Qed.

Lemma existsb_filter (p q : effect -> bool) (l : list effect) :
  (forall e, p e = true -> q e = true) ->
  existsb p (filter q l) = existsb p l.
Proof.
  intros Hp. induction l as [| e l IH]; [reflexivity |].
  cbn [filter existsb]. destruct (q e) eqn:Hq.
  - cbn [existsb]. now rewrite IH.
  - rewrite IH. destruct (p e) eqn:He; [| reflexivity].
    apply Hp in He. congruence.
Qed.

Lemma exited_resources (l : list effect) :
  exited (filter is_resource l) = exited l.
Proof.
  apply existsb_filter. intros []; (discriminate || reflexivity).
Qed.

Lemma exited_app (l1 l2 : list effect) :
  exited (l1 ++ l2) = exited l1 || exited l2.
Proof. apply existsb_app. Qed.

Lemma exited_stop_resources (a b : bool) : exited (stop_resources a b) = false.
Proof. destruct a, b; reflexivity. Qed.

Section Resources.

Variable P : Script.
Variable connected : object P -> bool.
Variable streaming : object P -> bool.

Hypothesis resources_of :
  forall ev log h s,
    listener P ev log = Some h ->
    filter is_resource (calls_of h s) =
    match ev with
    | OpenEvent =>
        [MicStartRecording; MicStreamOn Data; MicStreamOn StreamError]
    | CloseEvent => stop_resources (streaming s) (connected s)
    | SIGINT =>
        (stop_resources (streaming s) (connected s) ++ [ProcessExit None])%list
    | _ => []
    end.

Hypothesis state_of :
  forall ev log h s,
    listener P ev log = Some h ->
    streaming (state_after h s) =
    match ev with
    | OpenEvent => true
    | CloseEvent | SIGINT => false
    | _ => streaming s
    end /\
    connected (state_after h s) = connected s.

Lemma live_listener (st : process P) (ev : event) :
  live P connected st ->
  is_open ev || is_teardown ev = true ->
  exists h, listener P ev (snd st) = Some h.
Proof.
  intros (_ & Ho & Hc & Hs) Hev.
  destruct ev; try discriminate Hev; cbn [listener];
    rewrite ?Ho, ?Hc, ?Hs; eexists; reflexivity.
Qed.

Lemma live_step (s : object P) (log : list effect) (ev : event)
  (h : M (object P) unit) :
  live P connected (s, log) ->
  listener P ev log = Some h ->
  live P connected (state_after h s, (log ++ calls_of h s)%list).
Proof.
  intros (Hc & Ho & Hcl & Hs) Hl. unfold live. cbn [fst snd] in *.
  unfold listens_connection, listens_process in *.
  rewrite !existsb_app, Ho, Hcl, Hs.
  destruct (state_of ev log h s Hl) as (_ & ->). repeat split. exact Hc.
Qed.

(** The resource calls of a run from a live process. *)
Lemma fold_deliver_resources (evs : list event) (st : process P) :
  live P connected st ->
  exited (snd st) = false ->
  filter is_resource (snd (fold_left (deliver P) evs st))
  = (filter is_resource (snd st)
     ++ resource_trace (streaming (fst st)) evs)%list.
Proof.
  revert st. induction evs as [| ev evs IH]; intros [s log] Hlive Hex.
  - cbn [fold_left resource_trace]. now rewrite app_nil_r.
  - rewrite fold_deliver_cons. cbn [fst snd] in *.
    assert (Hconn : connected s = true) by apply Hlive.
    unfold deliver at 2. rewrite Hex.
    destruct (listener P ev log) as [h |] eqn:Hl.
    + pose proof (resources_of ev log h s Hl) as Hr.
      pose proof (state_of ev log h s Hl) as (Hstream & _).
      pose proof (live_step s log ev h Hlive Hl) as Hlive'.
      assert (Hex' : exited (log ++ calls_of h s)
                     = is_sigint ev).
      { rewrite exited_app, Hex, <- exited_resources, Hr. cbn [orb].
        destruct ev; try reflexivity.
        - apply exited_stop_resources.
        - rewrite exited_app, exited_stop_resources. reflexivity. }
      destruct (is_sigint ev) eqn:Hev.
      * destruct ev; try discriminate Hev.
        rewrite fold_deliver_exited by exact Hex'.
        cbn [snd resource_trace]. rewrite filter_app, Hr, Hconn.
        reflexivity.
      * rewrite (IH _ Hlive' Hex'). cbn [fst snd].
        rewrite filter_app, Hr, Hstream, <- app_assoc, Hconn.
        destruct ev; try discriminate Hev; reflexivity.
    + destruct (is_open ev || is_teardown ev) eqn:Hev.
      * destruct (live_listener (s, log) ev Hlive Hev) as (h & Hh).
        cbn [snd] in Hh. congruence.
      * rewrite (IH _ Hlive Hex). cbn [fst snd].
        destruct ev; try discriminate Hev; reflexivity.
Qed.

(** The microphone is never stopped more often than it was started, and
    while [micStream] holds a stream one start is still to be matched. *)
Lemma deliver_mic_balance (st : process P) (ev : event) :
  (count_calls is_mic_stop (snd st)
   + (if streaming (fst st) then 1 else 0)
   <= count_calls is_mic_start (snd st))%nat ->
  (count_calls is_mic_stop (snd (deliver P st ev))
   + (if streaming (fst (deliver P st ev)) then 1 else 0)
   <= count_calls is_mic_start (snd (deliver P st ev)))%nat.
Proof.
  destruct st as [s log]. cbn [fst snd]. intros H.
  destruct (deliver_cases P s log ev) as [E | (_ & h & Hl & E)];
    rewrite E; cbn [fst snd]; [exact H |].
  rewrite !count_calls_app.
  rewrite <- (count_calls_resources is_mic_stop (calls_of h s))
    by (intros []; (discriminate || reflexivity)).
  rewrite <- (count_calls_resources is_mic_start (calls_of h s))
    by (intros []; (discriminate || reflexivity)).
  rewrite (resources_of ev log h s Hl).
  destruct (state_of ev log h s Hl) as (-> & _).
  destruct ev; unfold stop_resources; cbn;
    destruct (streaming s), (connected s); cbn in *; lia.
Qed.

End Resources.

Lemma highsamp_state_of (ev : event) (log : list effect)
  (h : M HighSamp.SpeechToText unit) (s : HighSamp.SpeechToText) :
  listener highsamp ev log = Some h ->
  isSome (HighSamp.micStream (state_after h s)) =
  match ev with
  | OpenEvent => true
  | CloseEvent | SIGINT => false
  | _ => isSome (HighSamp.micStream s)
  end /\
  isSome (HighSamp.connection (state_after h s))
  = isSome (HighSamp.connection s).
Proof.
  intros Hl. destruct (highsamp_micStream_after ev log h s Hl) as (-> & ->).
  destruct ev; split; reflexivity.
Qed.

Lemma before_state_of (ev : event) (log : list effect)
  (h : M Before.SpeechToText unit) (s : Before.SpeechToText) :
  listener before ev log = Some h ->
  isSome (Before.micStream (state_after h s)) =
  match ev with
  | OpenEvent => true
  | CloseEvent | SIGINT => false
  | _ => isSome (Before.micStream s)
  end /\
  isSome (Before.connection (state_after h s))
  = isSome (Before.connection s).
Proof.
  intros Hl. destruct (before_micStream_after ev log h s Hl) as (-> & ->).
  destruct ev; split; reflexivity.
Qed.

Lemma highsamp_resource_log (evs : list event) :
  filter is_resource (snd (run highsamp None evs))
  = (filter is_resource (snd (main highsamp None))
     ++ resource_trace false evs)%list.
Proof.
  apply (fold_deliver_resources highsamp
           (fun s => isSome (HighSamp.connection s))
           (fun s => isSome (HighSamp.micStream s))
           highsamp_resources highsamp_state_of evs (main highsamp None)).
  - repeat split.
  - reflexivity.
Qed.

Lemma before_resource_log (evs : list event) :
  filter is_resource (snd (run before None evs))
  = (filter is_resource (snd (main before None))
     ++ resource_trace false evs)%list.
Proof.
  apply (fold_deliver_resources before
           (fun s => isSome (Before.connection s))
           (fun s => isSome (Before.micStream s))
           before_resources before_state_of evs (main before None)).
  - repeat split.
  - reflexivity.
Qed.


Lemma resource_trace_counts (stream : bool) (evs : list event) :
  count_calls is_finish (resource_trace stream evs)
    = count_events is_teardown (until_exit evs) /\
  count_calls is_mic_start (resource_trace stream evs)
    = count_events is_open (until_exit evs).
Proof.
  revert stream. induction evs as [| ev evs IH]; intros stream.
  - split; reflexivity.
  - destruct ev; cbn [resource_trace until_exit];
      try (destruct (IH stream) as (IH1 & IH2); split; assumption).
    + destruct (IH true) as (IH1 & IH2).
      rewrite !count_calls_app, IH1, IH2. split; reflexivity.
    + destruct (IH false) as (IH1 & IH2).
      rewrite !count_calls_app, IH1, IH2.
      destruct stream; split; reflexivity.
    + rewrite !count_calls_app. destruct stream; split; reflexivity.
Qed.

(** X5. Once [start()] has opened the connection, in both scripts and in
    every run: [connection.finish()] is called once for every teardown (each
    Close event and the first SIGINT), however many there are, and the
    microphone is started once for every Open event; events after the first
    SIGINT do not count. *)
Theorem finish_once_per_teardown (evs : list event) :
  (count_calls is_finish (snd (run highsamp None evs))
     = count_events is_teardown (until_exit evs) /\
   count_calls is_mic_start (snd (run highsamp None evs))
     = count_events is_open (until_exit evs)) /\
  (count_calls is_finish (snd (run before None evs))
     = count_events is_teardown (until_exit evs) /\
   count_calls is_mic_start (snd (run before None evs))
     = count_events is_open (until_exit evs)).
Proof.
  destruct (resource_trace_counts false evs) as (Hf & Hs).
  split; split.
  - rewrite <- (count_calls_resources is_finish)
      by (intros []; (discriminate || reflexivity)).
    rewrite highsamp_resource_log, count_calls_app, Hf. reflexivity.
  - rewrite <- (count_calls_resources is_mic_start)
      by (intros []; (discriminate || reflexivity)).
    rewrite highsamp_resource_log, count_calls_app, Hs. reflexivity.
  - rewrite <- (count_calls_resources is_finish)
      by (intros []; (discriminate || reflexivity)).
    rewrite before_resource_log, count_calls_app, Hf. reflexivity.
  - rewrite <- (count_calls_resources is_mic_start)
      by (intros []; (discriminate || reflexivity)).
    rewrite before_resource_log, count_calls_app, Hs. reflexivity.
Qed.

(** X6. In both scripts and in every run, the microphone is never stopped
    more often than it was started; and whenever [micStream] holds a stream,
    it has been stopped fewer times than started ([stop()] stops it only
    while [micStream] is set, and resets [micStream]). *)
Theorem microphone_stops_bounded (thrown : option string) (evs : list event) :
  (let (s, log) := run highsamp thrown evs in
   (count_calls is_mic_stop log <= count_calls is_mic_start log)%nat /\
   (HighSamp.micStream s <> None ->
    (count_calls is_mic_stop log < count_calls is_mic_start log)%nat)) /\
  (let (s, log) := run before thrown evs in
   (count_calls is_mic_stop log <= count_calls is_mic_start log)%nat /\
   (Before.micStream s <> None ->
    (count_calls is_mic_stop log < count_calls is_mic_start log)%nat)).
Proof.
  split.
  - pose proof (run_invariant highsamp
      (fun st =>
         (count_calls is_mic_stop (snd st)
          + (if isSome (HighSamp.micStream (fst st)) then 1 else 0)
          <= count_calls is_mic_start (snd st))%nat) thrown) as H.
    specialize (H ltac:(destruct thrown; cbn; lia)).
    specialize (H (deliver_mic_balance highsamp
                     (fun s => isSome (HighSamp.connection s))
                     (fun s => isSome (HighSamp.micStream s))
                     highsamp_resources highsamp_state_of) evs).
    destruct (run highsamp thrown evs) as [s log]. cbn [fst snd] in H.
    destruct (HighSamp.micStream s); cbn [isSome] in H;
      split; try lia; intros Hn; (lia || contradiction).
  - pose proof (run_invariant before
      (fun st =>
         (count_calls is_mic_stop (snd st)
          + (if isSome (Before.micStream (fst st)) then 1 else 0)
          <= count_calls is_mic_start (snd st))%nat) thrown) as H.
    specialize (H ltac:(destruct thrown; cbn; lia)).
    specialize (H (deliver_mic_balance before
                     (fun s => isSome (Before.connection s))
                     (fun s => isSome (Before.micStream s))
                     before_resources before_state_of) evs).
    destruct (run before thrown evs) as [s log]. cbn [fst snd] in H.
    destruct (Before.micStream s); cbn [isSome] in H;
      split; try lia; intros Hn; (lia || contradiction).
Qed.

(* ===================================================================== *)
(** ** Errors *)
(* ===================================================================== *)

Lemma listener_quiet (P : Script) (ev : event) (log : list effect) :
  listener P ev (filter quiet log) = listener P ev log.
Proof.
  destruct ev; cbn [listener];
    unfold listens_connection, listens_stream, listens_process;
    rewrite existsb_filter; try reflexivity;
    intros []; (discriminate || reflexivity).
Qed.

Lemma exited_quiet (log : list effect) :
  exited (filter quiet log) = exited log.
Proof.
  apply existsb_filter. intros []; (discriminate || reflexivity).
Qed.

Section ErrorsReported.

Variable P : Script.

Hypothesis onError_reports :
  forall err s,
    state_after (onError P err) s = s /\
    filter quiet (calls_of (onError P err) s) = [].

Hypothesis onMicError_reports :
  forall err s,
    state_after (onMicError P err) s = s /\
    filter quiet (calls_of (onMicError P err) s) = [].

(** Logs that agree up to error reports lead a delivery the same way. *)
Lemma deliver_same_branch (s : object P) (l1 l2 : list effect) (ev : event) :
  filter quiet l1 = filter quiet l2 ->
  exists s' c,
    deliver P (s, l1) ev = (s', (l1 ++ c)%list) /\
    deliver P (s, l2) ev = (s', (l2 ++ c)%list).
Proof.
  intros El.
  assert (Hx : exited l1 = exited l2)
    by (now rewrite <- (exited_quiet l1), El, exited_quiet).
  assert (Hl : listener P ev l1 = listener P ev l2)
    by (now rewrite <- (listener_quiet P ev l1), El, listener_quiet).
  unfold deliver. rewrite Hx, Hl.
  destruct (exited l2).
  - exists s, []. now rewrite !app_nil_r.
  - destruct (listener P ev l2) as [h |].
    + exists (state_after h s), (calls_of h s). split; reflexivity.
    + exists s, []. now rewrite !app_nil_r.
Qed.

(** Two processes in the same state whose logs agree up to error reports
    stay so when one of them is spared the error events. *)
Lemma fold_deliver_without_errors (evs : list event) (s : object P)
  (l1 l2 : list effect) :
  filter quiet l1 = filter quiet l2 ->
  fst (fold_left (deliver P) evs (s, l1))
  = fst (fold_left (deliver P) (filter not_error_event evs) (s, l2)) /\
  filter quiet (snd (fold_left (deliver P) evs (s, l1)))
  = filter quiet
      (snd (fold_left (deliver P) (filter not_error_event evs) (s, l2))).
Proof.
  revert s l1 l2. induction evs as [| ev evs IH]; intros s l1 l2 El.
  - split; [reflexivity | exact El].
  - rewrite fold_deliver_cons. cbn [filter].
    destruct (not_error_event ev) eqn:Hev.
    + rewrite fold_deliver_cons.
      destruct (deliver_same_branch s l1 l2 ev El) as (s' & c & -> & ->).
      apply IH. now rewrite !filter_app, El.
    + destruct (deliver_cases P s l1 ev) as [E | (_ & h & Hl & E)];
        rewrite E; [apply IH, El |].
      apply listener_cases in Hl.
      destruct ev; try discriminate Hev; subst h.
      * destruct (onMicError_reports err s) as (-> & Hq).
        apply IH. now rewrite filter_app, Hq, app_nil_r.
      * destruct (onError_reports err s) as (-> & Hq).
        apply IH. now rewrite filter_app, Hq, app_nil_r.
Qed.

End ErrorsReported.

(** X7. Error events are reported and nothing more, in both scripts: a run
    ends with the same object, and with the same log apart from the
    [console.error] lines, as the run from which the Error events of the
    connection and the error events of the microphone stream are left out.
    An error alone never stops the microphone, closes the connection or
    touches the latency statistics. *)
Theorem errors_only_reported (thrown : option string) (evs : list event) :
  (fst (run highsamp thrown evs)
     = fst (run highsamp thrown (filter not_error_event evs)) /\
   filter quiet (snd (run highsamp thrown evs))
     = filter quiet (snd (run highsamp thrown (filter not_error_event evs))))
  /\
  (fst (run before thrown evs)
     = fst (run before thrown (filter not_error_event evs)) /\
   filter quiet (snd (run before thrown evs))
     = filter quiet (snd (run before thrown (filter not_error_event evs)))).
Proof.
  split.
  - unfold run. destruct (main highsamp thrown) as [s l].
    apply (fold_deliver_without_errors highsamp); try reflexivity;
      intros err s0; split; reflexivity.
  - unfold run. destruct (main before thrown) as [s l].
    apply (fold_deliver_without_errors before); try reflexivity;
      intros err s0; split; reflexivity.
Qed.

(* ===================================================================== *)
(** ** The latency statistics over a run *)
(* ===================================================================== *)

Lemma extends_by_nil (s s' : HighSamp.SpeechToText) :
  stats_of s' = stats_of s -> extends_by [] s s'.
Proof.
  unfold stats_of, extends_by. intros E. injection E as -> -> ->.
  cbn. rewrite app_nil_r. repeat split; lia.
Qed.

Lemma extends_by_trans (m1 m2 : list Z) (s1 s2 s3 : HighSamp.SpeechToText) :
  extends_by m1 s1 s2 -> extends_by m2 s2 s3 -> extends_by (m1 ++ m2) s1 s3.
Proof.
  intros (A1 & A2 & A3) (B1 & B2 & B3). unfold extends_by.
  rewrite B1, B2, B3, A1, A2, A3, sum_list_app, length_app, app_assoc.
  repeat split; lia.
Qed.

Lemma highsamp_listener_stats (ev : event) (log : list effect)
  (h : M HighSamp.SpeechToText unit) (s : HighSamp.SpeechToText) :
  listener highsamp ev log = Some h ->
  exists more,
    Forall (fun d => 0 < d) more /\
    (List.length more <= if is_final_with_text ev then 1 else 0)%nat /\
    extends_by more s (state_after h s).
Proof.
  intros Hl. apply listener_cases in Hl.
  destruct ev; subst h;
    cbn [highsamp onOpen onData onMicError onTranscript onError onClose
         onSIGINT];
    try (exists []; split; [constructor | split; [cbn; lia |]];
         apply extends_by_nil;
         first [ reflexivity
               | now rewrite onData_unchanged
               | apply onClose_keeps_stats
               | apply onSIGINT_keeps_stats ]).
  rewrite onTranscript_state. cbn [is_final_with_text].
  pose proof (anchored_keeps_stats now1 s) as Ha.
  destruct (text_of transcription) as [w |];
    [| exists []; split; [constructor | split; [cbn; lia |]];
       apply extends_by_nil, Ha].
  destruct (is_final transcription);
    [| exists []; split; [constructor | split; [cbn; lia |]];
       apply extends_by_nil, Ha].
  destruct (Z.gtb_spec (elapsed now1 now2 s) 0) as [Hpos | Hneg];
    [| exists []; split; [constructor | split; [cbn; lia |]];
       apply extends_by_nil, Ha].
  exists [elapsed now1 now2 s].
  split; [repeat constructor; lia | split; [cbn; lia |]].
  unfold stats_of in Ha. injection Ha as Hp Ht Hc.
  unfold extends_by. cbn. rewrite Hp, Ht, Hc. repeat split; lia.
Qed.

Lemma highsamp_deliver_stats (st : process highsamp) (ev : event) :
  exists more,
    Forall (fun d => 0 < d) more /\
    (List.length more <= if is_final_with_text ev then 1 else 0)%nat /\
    extends_by more (fst st) (fst (deliver highsamp st ev)).
Proof.
  destruct st as [s log].
  destruct (deliver_cases highsamp s log ev) as [E | (_ & h & Hl & E)];
    rewrite E; cbn [fst].
  - exists []. split; [constructor | split; [cbn; lia |]].
    now apply extends_by_nil.
  - eapply highsamp_listener_stats; eassumption.
Qed.

Lemma highsamp_fold_stats (evs : list event) (st : process highsamp) :
  exists more,
    Forall (fun d => 0 < d) more /\
    (List.length more <= count_events is_final_with_text evs)%nat /\
    extends_by more (fst st) (fst (fold_left (deliver highsamp) evs st)).
Proof.
  revert st. induction evs as [| ev evs IH]; intros st.
  - exists []. split; [constructor | split; [cbn; lia |]].
    now apply extends_by_nil.
  - rewrite fold_deliver_cons.
    destruct (highsamp_deliver_stats st ev) as (m1 & P1 & L1 & E1).
    destruct (IH (deliver highsamp st ev)) as (m2 & P2 & L2 & E2).
    exists (m1 ++ m2)%list. split; [now apply Forall_app |]. split.
    + rewrite length_app. unfold count_events in *. cbn [filter].
      destruct (is_final_with_text ev); cbn [List.length]; lia.
    + eapply extends_by_trans; eassumption.
Qed.


Lemma highsamp_run_count (thrown : option string) (evs : list event) :
  0 <= HighSamp.utteranceCount (fst (run highsamp thrown evs)).
Proof.
  destruct (highsamp_fold_stats evs (main highsamp thrown))
    as (more & _ & _ & _ & _ & Hc).
  unfold run. rewrite Hc. destruct thrown; cbn; lia.
Qed.

Lemma highsamp_listener_silent (ev : event) (log : list effect)
  (h : M HighSamp.SpeechToText unit) (s : HighSamp.SpeechToText) :
  listener highsamp ev log = Some h ->
  HighSamp.utteranceCount s = 0 ->
  HighSamp.utteranceCount (state_after h s) = 0 ->
  count_calls is_summary (calls_of h s) = 0%nat /\
  count_calls is_average_line (calls_of h s) = 0%nat.
Proof.
  intros Hl H0 H1. apply listener_cases in Hl.
  destruct ev; subst h;
    cbn [highsamp onOpen onData onMicError onTranscript onError onClose
         onSIGINT] in *.
  - split; reflexivity.
  - rewrite onData_calls.
    destruct (isSome (HighSamp.connection s) && (readyState =? 1));
      split; reflexivity.
  - split; reflexivity.
  - rewrite onTranscript_calls. rewrite onTranscript_state in H1.
    pose proof (anchored_keeps_stats now1 s) as Ha.
    unfold stats_of in Ha. injection Ha as _ _ Hc.
    destruct (text_of transcription); [| split; reflexivity].
    destruct (is_final transcription); [| split; reflexivity].
    destruct (elapsed now1 now2 s >? 0); [| split; reflexivity].
    cbn in H1. rewrite Hc, H0 in H1. discriminate H1.
  - split; reflexivity.
  - unfold calls_of. rewrite onClose_result. cbn [snd].
    rewrite stop_calls, H0.
    destruct (isSome (HighSamp.micStream s)),
      (isSome (HighSamp.connection s)); split; reflexivity.
  - unfold calls_of. rewrite onSIGINT_result. cbn [snd].
    rewrite stop_calls, H0.
    destruct (isSome (HighSamp.micStream s)),
      (isSome (HighSamp.connection s)); split; reflexivity.
Qed.

(** X9. In the ultra-low-latency script, a run that ends with no utterance
    recorded ([utteranceCount] is 0) has printed neither a running-average
    line nor a final summary line, however many transcripts, Close events
    and SIGINT it saw. *)
Theorem no_summary_without_utterance
  (thrown : option string) (evs : list event)
  (Hnone : HighSamp.utteranceCount (fst (run highsamp thrown evs)) = 0) :
  count_calls is_summary (snd (run highsamp thrown evs)) = 0%nat /\
  count_calls is_average_line (snd (run highsamp thrown evs)) = 0%nat.
Proof.
  revert Hnone. induction evs as [| ev evs IH] using rev_ind; intros Hnone.
  - destruct thrown; split; reflexivity.
  - rewrite run_snoc in *.
    pose proof (highsamp_run_count thrown evs) as Hpos.
    destruct (highsamp_deliver_stats (run highsamp thrown evs) ev)
      as (more & _ & _ & _ & _ & Hc).
    assert (H0 : HighSamp.utteranceCount (fst (run highsamp thrown evs)) = 0)
      by lia.
    destruct (IH H0) as (IHs & IHa).
    destruct (run highsamp thrown evs) as [s log]. cbn [fst snd] in *.
    destruct (deliver_cases highsamp s log ev) as [E | (_ & h & Hl & E)];
      rewrite E in *; cbn [fst snd] in *; [split; assumption |].
    destruct (highsamp_listener_silent ev log h s Hl H0 Hnone) as (Hs & Ha).
    rewrite !count_calls_app, IHs, IHa.
    change (object highsamp) with HighSamp.SpeechToText in *.
    rewrite Hs, Ha. split; reflexivity.
Qed.

Lemma no_summary_without_utterance_witness :
  HighSamp.utteranceCount
    (fst (run highsamp None
            [OpenEvent; TranscriptEvent (said true "hi") 1000 1000;
             CloseEvent; SIGINT])) = 0 /\
  count_calls is_summary
    (snd (run highsamp None
            [OpenEvent; TranscriptEvent (said true "hi") 1000 1000;
             CloseEvent; SIGINT])) = 0%nat.
Proof.
  assert (H : HighSamp.utteranceCount
                (fst (run highsamp None
                        [OpenEvent; TranscriptEvent (said true "hi") 1000 1000;
                         CloseEvent; SIGINT])) = 0) by reflexivity.
  split; [exact H |].
  exact (proj1 (no_summary_without_utterance None _ H)).
Defined.

(* ===================================================================== *)
(** ** Measuring one utterance *)
(* ===================================================================== *)

(** X10. In the ultra-low-latency script, when a final transcript with text
    is recorded (its elapsed time is greater than 0), the listener prints,
    in this order: a carriage return, the transcript line, the processing
    time of this utterance, the running average, and the separator; and the
    average it prints is the one of the statistics as the listener leaves
    them, this utterance included. *)
Theorem final_block_shows_current_average
  (s : HighSamp.SpeechToText) (tr : Transcription) (now1 now2 : Z)
  (words : string)
  (Htext : text_of tr = Some words) (Hfinal : is_final tr = true)
  (Hpos : 0 < elapsed now1 now2 s) :
  calls_of (HighSamp.onTranscript tr now1 now2) s =
  [StdoutWrite [(Plain, JS.CR)];
   ConsoleLog [(Cyan, "ULTRA-LOW: "); (Plain, words)];
   ConsoleLog [(Yellow, "Processing Time: ");
               (Plain, JS.int_toString (elapsed now1 now2 s) ++ "ms")];
   ConsoleLog [(Blue, "Average Processing Time: ");
               (Plain, HighSamp.getAverageProcessingTime
                         (state_after (HighSamp.onTranscript tr now1 now2) s))];
   ConsoleLog [(Plain, "------------------------")]].
Proof.
  rewrite onTranscript_calls, onTranscript_state, Htext, Hfinal.
  destruct (Z.gtb_spec (elapsed now1 now2 s) 0); [reflexivity | lia].
Qed.

Lemma final_block_shows_current_average_witness :
  text_of (said true "hello") = Some "hello" /\
  is_final (said true "hello") = true /\
  0 < elapsed 1100 1100
        (HighSamp.with_startTime (Some 1000) HighSamp.constructor) /\
  In (ConsoleLog [(Blue, "Average Processing Time: "); (Plain, "100.00ms")])
     (calls_of (HighSamp.onTranscript (said true "hello") 1100 1100)
        (HighSamp.with_startTime (Some 1000) HighSamp.constructor)).
Proof.
  assert (Ht : text_of (said true "hello") = Some "hello") by reflexivity.
  assert (Hf : is_final (said true "hello") = true) by reflexivity.
  assert (Hp : 0 < elapsed 1100 1100
                     (HighSamp.with_startTime (Some 1000) HighSamp.constructor))
    by (vm_compute; reflexivity).
  split; [exact Ht | split; [exact Hf | split; [exact Hp |]]].
  rewrite (final_block_shows_current_average _ _ 1100 1100 "hello" Ht Hf Hp).
  vm_compute. tauto.
Defined.





(** X12. A final transcript with text that is the first event of its
    utterance ([startTime] unset) and is handled within one reading of the
    clock has a processing time of 0.  The ultra-low-latency script then
    records nothing and prints the transcript line and the separator only;
    the first script prints the processing time all the same, as 0ms.  Both
    leave [startTime] unset. *)
Theorem lone_final_has_zero_time
  (tr : Transcription) (now : Z) (words : string)
  (Htext : text_of tr = Some words) (Hfinal : is_final tr = true) :
  (forall s : HighSamp.SpeechToText,
     JS.falsy (HighSamp.startTime s) = true ->
     stats_of (state_after (HighSamp.onTranscript tr now now) s) = stats_of s /\
     HighSamp.startTime (state_after (HighSamp.onTranscript tr now now) s)
       = None /\
     calls_of (HighSamp.onTranscript tr now now) s =
     [StdoutWrite [(Plain, JS.CR)];
      ConsoleLog [(Cyan, "ULTRA-LOW: "); (Plain, words)];
      ConsoleLog [(Plain, "------------------------")]]) /\
  (forall s : Before.SpeechToText,
     JS.falsy (Before.startTime s) = true ->
     Before.startTime (state_after (Before.onTranscript tr now now) s)
       = None /\
     calls_of (Before.onTranscript tr now now) s =
     [StdoutWrite [(Plain, JS.CR)];
      ConsoleLog [(Green, "FINAL: "); (Plain, words)];
      ConsoleLog [(Yellow, "Processing Time: "); (Plain, "0ms")];
      ConsoleLog [(Plain, "------------------------")]]).
Proof.
  split; intros s Hs.
  - rewrite onTranscript_calls, onTranscript_state, Htext, Hfinal.
    unfold elapsed, anchored. rewrite Hs.
    cbn [HighSamp.startTime HighSamp.with_startTime JS.to_number].
    rewrite Z.sub_diag. repeat split.
  - rewrite before_onTranscript_calls, before_onTranscript_state,
      Htext, Hfinal.
    unfold anchored_before. rewrite Hs.
    cbn [Before.startTime Before.with_startTime JS.to_number].
    rewrite Z.sub_diag. repeat split.
Qed.

Lemma lone_final_has_zero_time_witness :
  text_of (said true "yes") = Some "yes" /\
  is_final (said true "yes") = true /\
  stats_of (state_after (HighSamp.onTranscript (said true "yes") 2000 2000)
              HighSamp.constructor) = stats_of HighSamp.constructor.
Proof.
  assert (Ht : text_of (said true "yes") = Some "yes") by reflexivity.
  assert (Hf : is_final (said true "yes") = true) by reflexivity.
  split; [exact Ht | split; [exact Hf |]].
  destruct (lone_final_has_zero_time (said true "yes") 2000 "yes" Ht Hf)
    as (Hh & _).
  exact (proj1 (Hh HighSamp.constructor eq_refl)).
Defined.

(* ===================================================================== *)
(** ** The microphone test *)
(* ===================================================================== *)

Lemma mictest_fold_cons (p : MicTest.process) (ev : MicTest.event)
  (evs : list MicTest.event) :
  fold_left MicTest.deliver (ev :: evs) p
  = fold_left MicTest.deliver evs (MicTest.deliver p ev).
Proof. reflexivity. Qed.

Lemma mictest_run_snoc (evs : list MicTest.event) (ev : MicTest.event) :
  MicTest.run (evs ++ [ev]) = MicTest.deliver (MicTest.run evs) ev.
Proof. unfold MicTest.run. now rewrite fold_left_app. Qed.

Lemma writes_of_app (l1 l2 : list MicTest.call) :
  writes_of (l1 ++ l2) = (writes_of l1 ++ writes_of l2)%list.
Proof.
  induction l1 as [| c l1 IH]; [reflexivity |].
  destruct c; simpl; now rewrite ?IH.
Qed.

Lemma count_chunks_cons (ev : MicTest.event) (evs : list MicTest.event) :
  count_chunks (ev :: evs)
  = (match ev with MicTest.Chunk _ => 1 | _ => 0 end) + count_chunks evs.
Proof. unfold count_chunks. destruct ev; cbn [filter List.length]; lia. Qed.

Lemma count_chunks_nonneg (evs : list MicTest.event) : 0 <= count_chunks evs.
Proof. unfold count_chunks. lia. Qed.

(** What one delivery does to the counter and to the file. *)
Lemma mictest_deliver_counts (p : MicTest.process) (ev : MicTest.event) :
  MicTest.dataCount (MicTest.deliver p ev)
  = MicTest.dataCount p + (match ev with MicTest.Chunk _ => 1 | _ => 0 end) /\
  writes_of (MicTest.log (MicTest.deliver p ev))
  = (writes_of (MicTest.log p)
     ++ match ev with MicTest.Chunk d => [d] | _ => [] end)%list.
Proof.
  destruct ev; cbn [MicTest.deliver].
  - unfold MicTest.after, MicTest.onData.
    cbn [MicTest.dataCount MicTest.log fst snd].
    rewrite !writes_of_app.
    destruct (Z.rem (MicTest.dataCount p + 1) 10 =? 0); split; reflexivity.
  - cbn. rewrite writes_of_app. cbn. rewrite app_nil_r.
    split; [lia | reflexivity].
  - destruct (MicTest.fired p); cbn; rewrite ?writes_of_app; cbn;
      rewrite ?app_nil_r; split; (reflexivity || lia).
Qed.

Lemma mictest_fold_counts (evs : list MicTest.event) (p : MicTest.process) :
  MicTest.dataCount (fold_left MicTest.deliver evs p)
  = MicTest.dataCount p + count_chunks evs /\
  writes_of (MicTest.log (fold_left MicTest.deliver evs p))
  = (writes_of (MicTest.log p) ++ chunks_of evs)%list.
Proof.
  revert p. induction evs as [| ev evs IH]; intros p.
  - cbn. rewrite app_nil_r. split; [unfold count_chunks; cbn; lia | reflexivity].
  - rewrite mictest_fold_cons, count_chunks_cons.
    destruct (IH (MicTest.deliver p ev)) as (-> & ->).
    destruct (mictest_deliver_counts p ev) as (-> & ->).
    split; [lia |]. rewrite <- app_assoc. destruct ev; reflexivity.
Qed.

Lemma open_writes_app (l1 l2 : list MicTest.call) :
  open_writes (l1 ++ l2)
  = if existsb is_end_file l1 then open_writes l1
    else (writes_of l1 ++ open_writes l2)%list.
Proof.
  induction l1 as [| c l1 IH]; [reflexivity |].
  destruct c; cbn [app open_writes writes_of existsb is_end_file orb];
    rewrite ?IH; try reflexivity.
  destruct (existsb is_end_file l1); reflexivity.
Qed.

Lemma late_writes_app (l1 l2 : list MicTest.call) :
  late_writes (l1 ++ l2)
  = if existsb is_end_file l1 then (late_writes l1 ++ writes_of l2)%list
    else late_writes l2.
Proof.
  induction l1 as [| c l1 IH]; [reflexivity |].
  destruct c; cbn [app late_writes existsb is_end_file orb];
    rewrite ?IH; try reflexivity.
  apply writes_of_app.
Qed.

Lemma writes_while_open (l : list MicTest.call) :
  existsb is_end_file l = false ->
  open_writes l = writes_of l /\ late_writes l = [].
Proof.
  intros H. induction l as [| c l IH]; [split; reflexivity |].
  destruct c; cbn [existsb is_end_file orb] in H; try discriminate H;
    destruct (IH H) as (IH1 & IH2); cbn [open_writes writes_of late_writes];
    rewrite ?IH1; split; (reflexivity || assumption).
Qed.

(** The timer has fired exactly when [outputFile.end()] has been called. *)
Lemma mictest_deliver_ended (p : MicTest.process) (ev : MicTest.event) :
  MicTest.fired p = existsb is_end_file (MicTest.log p) ->
  MicTest.fired (MicTest.deliver p ev)
  = existsb is_end_file (MicTest.log (MicTest.deliver p ev)).
Proof.
  intros H. destruct ev; cbn [MicTest.deliver].
  - unfold MicTest.after, MicTest.onData.
    cbn [MicTest.fired MicTest.log fst snd].
    rewrite !existsb_app, <- H, orb_false_r.
    destruct (Z.rem (MicTest.dataCount p + 1) 10 =? 0); cbn;
      now rewrite orb_false_r.
  - cbn. rewrite existsb_app, <- H. reflexivity.
  - destruct (MicTest.fired p) eqn:Hf; [now rewrite Hf |].
    cbn. rewrite existsb_app, Hf. cbn. now rewrite orb_true_r.
Qed.

(** The writes of a run, before and after the file is ended. *)
Lemma mictest_fold_file (evs : list MicTest.event) (p : MicTest.process) :
  MicTest.fired p = existsb is_end_file (MicTest.log p) ->
  open_writes (MicTest.log (fold_left MicTest.deliver evs p))
  = (if MicTest.fired p then open_writes (MicTest.log p)
     else writes_of (MicTest.log p) ++ chunks_before_timer evs)%list /\
  late_writes (MicTest.log (fold_left MicTest.deliver evs p))
  = (if MicTest.fired p then late_writes (MicTest.log p) ++ chunks_of evs
     else chunks_after_timer evs)%list.
Proof.
  revert p. induction evs as [| ev evs IH]; intros p Hp.
  - cbn [fold_left chunks_before_timer chunks_of chunks_after_timer].
    rewrite !app_nil_r.
    destruct (MicTest.fired p); [split; reflexivity |].
    apply writes_while_open. now rewrite <- Hp.
  - rewrite mictest_fold_cons.
    destruct (IH _ (mictest_deliver_ended p ev Hp)) as (-> & ->).
    destruct (mictest_deliver_counts p ev) as (_ & Hw).
    destruct ev; cbn [MicTest.deliver] in *.
    + unfold MicTest.after, MicTest.onData in *.
      cbn [MicTest.fired MicTest.log fst snd] in *.
      rewrite orb_false_r, open_writes_app, late_writes_app, <- Hp.
      destruct (MicTest.fired p).
      * split; [reflexivity |].
        rewrite <- app_assoc. f_equal.
        destruct (Z.rem (MicTest.dataCount p + 1) 10 =? 0); reflexivity.
      * rewrite Hw, <- app_assoc. split; reflexivity.
    + cbn [MicTest.after MicTest.onError MicTest.fired MicTest.log fst snd]
        in *.
      rewrite orb_false_r, open_writes_app, late_writes_app, <- Hp.
      destruct (MicTest.fired p).
      * split; [reflexivity |]. cbn. now rewrite app_nil_r.
      * rewrite Hw, app_nil_r. split; reflexivity.
    + destruct (MicTest.fired p) eqn:Hf.
      * rewrite Hf. split; reflexivity.
      * cbn [MicTest.after MicTest.onTimeout MicTest.fired MicTest.log
             fst snd].
        rewrite Hf. cbn [orb].
        rewrite open_writes_app, late_writes_app, <- Hp.
        destruct (writes_while_open (MicTest.log p)) as (Ho & Hl);
          [now rewrite <- Hp |].
        cbn. rewrite app_nil_r. split; reflexivity.
Qed.

(** X13. In the microphone test, the data listener counts every chunk the
    stream delivers and passes it to [outputFile.write], once and in the
    order of arrival; error events and the timer neither count nor write.
    The chunks that arrive before the timer fires are passed to [write]
    before [outputFile.end()] is called.  The listener has no guard: a
    chunk that arrives after the timer has fired is counted and passed to
    [write] all the same, on a file that has been ended.  What the ended
    file does with such a call is not part of the script. *)
Theorem mictest_counts_and_writes_every_chunk (evs : list MicTest.event) :
  (MicTest.dataCount (MicTest.run evs) = count_chunks evs /\
   writes_of (MicTest.log (MicTest.run evs)) = chunks_of evs) /\
  open_writes (MicTest.log (MicTest.run evs)) = chunks_before_timer evs /\
  late_writes (MicTest.log (MicTest.run evs)) = chunks_after_timer evs.
Proof.
  destruct (mictest_fold_counts evs MicTest.started) as (H1 & H2).
  destruct (mictest_fold_file evs MicTest.started eq_refl) as (H3 & H4).
  unfold MicTest.run. rewrite H1, H2, H3, H4.
  split; [split; reflexivity | split; reflexivity].
Qed.

Lemma tenth_step (c : Z) :
  0 <= c ->
  (Z.rem (c + 1) 10 = 0 -> (c + 1) / 10 = c / 10 + 1 /\
                           c + 1 = 10 * (c / 10 + 1)) /\
  (Z.rem (c + 1) 10 <> 0 -> (c + 1) / 10 = c / 10).
Proof.
  intros Hc. rewrite Z.rem_mod_nonneg by lia.
  pose proof (Z.div_mod c 10 ltac:(lia)) as E1.
  pose proof (Z.mod_pos_bound c 10 ltac:(lia)) as B1.
  pose proof (Z.div_mod (c + 1) 10 ltac:(lia)) as E2.
  pose proof (Z.mod_pos_bound (c + 1) 10 ltac:(lia)) as B2.
  split; intros H; lia.
Qed.

Lemma prefix_append (a b : string) : String.prefix a (a ++ b) = true.
Proof.
  induction a as [| c a IH]; [destruct b; reflexivity |].
  cbn. destruct (ascii_dec c c); [exact IH | contradiction].
Qed.

Lemma is_progress_received (c : Z) :
  is_progress (MicTest.Log (MicTest.received c)) = true.
Proof. apply prefix_append. Qed.

(** What one delivery adds to the progress lines. *)
Lemma mictest_deliver_progress (p : MicTest.process) (ev : MicTest.event) :
  filter is_progress (MicTest.log (MicTest.deliver p ev))
  = (filter is_progress (MicTest.log p)
     ++ match ev with
        | MicTest.Chunk _ =>
            if Z.rem (MicTest.dataCount p + 1) 10 =? 0
            then [MicTest.Log (MicTest.received (MicTest.dataCount p + 1))]
            else []
        | _ => []
        end)%list.
Proof.
  destruct ev; cbn [MicTest.deliver].
  - unfold MicTest.after, MicTest.onData. cbn [MicTest.log snd].
    rewrite !filter_app.
    destruct (Z.rem (MicTest.dataCount p + 1) 10 =? 0).
    + cbn [filter]. rewrite is_progress_received. reflexivity.
    + reflexivity.
  - cbn. rewrite filter_app. reflexivity.
  - destruct (MicTest.fired p); [now rewrite app_nil_r |].
    cbn. rewrite filter_app. reflexivity.
Qed.

Lemma mictest_fold_progress (evs : list MicTest.event)
  (p : MicTest.process) :
  0 <= MicTest.dataCount p ->
  filter is_progress (MicTest.log (fold_left MicTest.deliver evs p))
  = (filter is_progress (MicTest.log p)
     ++ map progress_line
          (seq (S (Z.to_nat (MicTest.dataCount p / 10)))
               (Z.to_nat ((MicTest.dataCount p + count_chunks evs) / 10)
                - Z.to_nat (MicTest.dataCount p / 10))))%list.
Proof.
  revert p. induction evs as [| ev evs IH]; intros p Hc.
  - unfold count_chunks. cbn [filter List.length Z.of_nat fold_left].
    rewrite Z.add_0_r, Nat.sub_diag. cbn. now rewrite app_nil_r.
  - rewrite mictest_fold_cons.
    destruct (mictest_deliver_counts p ev) as (Hd & _).
    rewrite IH by (rewrite Hd; destruct ev; lia).
    rewrite mictest_deliver_progress, Hd, count_chunks_cons, <- app_assoc.
    f_equal.
    pose proof (count_chunks_nonneg evs) as Hn.
    set (c := MicTest.dataCount p) in *. set (n := count_chunks evs) in *.
    destruct ev; rewrite ?Z.add_0_r, ?Z.add_0_l; try reflexivity.
    replace (c + (1 + n)) with (c + 1 + n) by lia.
    assert (Hmono : (c + 1) / 10 <= (c + 1 + n) / 10)
      by (apply Z.div_le_mono; lia).
    assert (H0 : 0 <= c / 10) by (apply Z.div_pos; lia).
    destruct (tenth_step c Hc) as (Hz & Hnz).
    destruct (Z.eqb_spec (Z.rem (c + 1) 10) 0) as [Hr | Hr].
    + destruct (Hz Hr) as (Hq & Hm). rewrite Hq in *.
      replace (Z.to_nat (c / 10 + 1)) with (S (Z.to_nat (c / 10))) by lia.
      replace (Z.to_nat ((c + 1 + n) / 10) - Z.to_nat (c / 10))%nat
        with (S (Z.to_nat ((c + 1 + n) / 10) - S (Z.to_nat (c / 10))))
        by lia.
      cbn [seq map app]. f_equal. unfold progress_line. do 2 f_equal. lia.
    + rewrite (Hnz Hr) in *. reflexivity.
Qed.

(** X14. The microphone test reports progress at every tenth chunk and at
    no other: after any run in which n chunks arrived, the lines
    "Received k chunks of audio data" printed by the data listener are
    those for k = 10, 20, ... up to the last multiple of ten that is at most
    n, in this order; there are n / 10 of them. *)
Theorem mictest_progress_every_tenth_chunk (evs : list MicTest.event) :
  filter is_progress (MicTest.log (MicTest.run evs))
  = map progress_line (seq 1 (Z.to_nat (count_chunks evs / 10))).
Proof.
  unfold MicTest.run.
  rewrite (mictest_fold_progress evs MicTest.started) by (cbn; lia).
  cbn [MicTest.started MicTest.dataCount MicTest.main fst].
  rewrite Z.add_0_l. change (0 / 10) with 0. cbn [Z.to_nat].
  rewrite Nat.sub_0_r. reflexivity.
Qed.

Lemma mictest_fired (evs : list MicTest.event) (p : MicTest.process) :
  MicTest.fired (fold_left MicTest.deliver evs p)
  = MicTest.fired p || existsb is_timer evs.
Proof.
  revert p. induction evs as [| ev evs IH]; intros p.
  - cbn. now rewrite orb_false_r.
  - rewrite mictest_fold_cons, IH. cbn [existsb].
    destruct ev; cbn [MicTest.deliver is_timer MicTest.after MicTest.fired].
    + now rewrite orb_false_r.
    + now rewrite orb_false_r.
    + destruct (MicTest.fired p) eqn:Hf;
        cbn [MicTest.after MicTest.fired]; rewrite ?Hf; reflexivity.
Qed.

Lemma mictest_count_app (q : MicTest.call -> bool) (l1 l2 : list MicTest.call) :
  List.length (filter q (l1 ++ l2))
  = (List.length (filter q l1) + List.length (filter q l2))%nat.
Proof. now rewrite filter_app, length_app. Qed.

Lemma mictest_fold_stops (evs : list MicTest.event) (p : MicTest.process) :
  List.length (filter is_stop_recording
                 (MicTest.log (fold_left MicTest.deliver evs p)))
  = (List.length (filter is_stop_recording (MicTest.log p))
     + (if negb (MicTest.fired p) && existsb is_timer evs then 1 else 0))%nat
  /\
  List.length (filter is_end_file
                 (MicTest.log (fold_left MicTest.deliver evs p)))
  = (List.length (filter is_end_file (MicTest.log p))
     + (if negb (MicTest.fired p) && existsb is_timer evs then 1 else 0))%nat.
Proof.
  revert p. induction evs as [| ev evs IH]; intros p.
  - cbn. rewrite andb_false_r. split; lia.
  - rewrite mictest_fold_cons. destruct (IH (MicTest.deliver p ev)) as (-> & ->).
    cbn [existsb].
    destruct ev; cbn [MicTest.deliver is_timer orb].
    + unfold MicTest.after, MicTest.onData.
      cbn [MicTest.log MicTest.fired snd]. rewrite orb_false_r.
      rewrite !mictest_count_app.
      destruct (Z.rem (MicTest.dataCount p + 1) 10 =? 0); cbn; split; lia.
    + cbn [MicTest.after MicTest.onError MicTest.log MicTest.fired snd].
      rewrite orb_false_r, !mictest_count_app. cbn. split; lia.
    + destruct (MicTest.fired p) eqn:Hf.
      * rewrite Hf. cbn. split; lia.
      * cbn [MicTest.after MicTest.onTimeout MicTest.log MicTest.fired snd].
        rewrite Hf, !mictest_count_app. cbn. split; lia.
Qed.

(** X15. In the microphone test the timer callback runs once: in every run
    the recording is stopped and the output file ended exactly once if the
    timer fires, and never otherwise; and when the timer fires after a run
    without a timer event, the callback prints the number of chunks counted
    so far, stops the recording, ends the file and prints the closing line,
    in this order. *)
Theorem mictest_timer_stops_once
  (evs pre : list MicTest.event) (Hpre : existsb is_timer pre = false) :
  (List.length (filter is_stop_recording (MicTest.log (MicTest.run evs)))
   = if existsb is_timer evs then 1 else 0)%nat /\
  (List.length (filter is_end_file (MicTest.log (MicTest.run evs)))
   = if existsb is_timer evs then 1 else 0)%nat /\
  MicTest.log (MicTest.run (pre ++ [MicTest.Timer]))
  = (MicTest.log (MicTest.run pre)
     ++ [MicTest.Log ("Test complete. " ++ MicTest.received (count_chunks pre));
         MicTest.StopRecording;
         MicTest.EndFile;
         MicTest.Log
           "Microphone test complete. Check mic-test.raw for recorded audio."])%list.
Proof.
  destruct (mictest_fold_stops evs MicTest.started) as (Hs & He).
  split; [exact Hs | split; [exact He |]].
  rewrite mictest_run_snoc. cbn [MicTest.deliver].
  unfold MicTest.run at 1. rewrite mictest_fired, Hpre. cbn [MicTest.started
    MicTest.fired orb].
  cbn [MicTest.after MicTest.onTimeout MicTest.log snd].
  destruct (mictest_fold_counts pre MicTest.started) as (Hc & _).
  unfold MicTest.run. rewrite Hc. reflexivity.
Qed.

Lemma mictest_timer_stops_once_witness :
  existsb is_timer [MicTest.Chunk []; MicTest.Failure "overrun"] = false /\
  In (MicTest.Log "Test complete. Received 1 chunks of audio data")
     (MicTest.log (MicTest.run [MicTest.Chunk []; MicTest.Failure "overrun";
                                MicTest.Timer])).
Proof.
  assert (H : existsb is_timer [MicTest.Chunk []; MicTest.Failure "overrun"]
              = false) by reflexivity.
  split; [exact H |].
  destruct (mictest_timer_stops_once [] _ H) as (_ & _ & E).
  cbn [app] in E. rewrite E. apply in_or_app. right. left. reflexivity.
Defined.

(* ===================================================================== *)
(** ** Forwarding audio over a run *)
(* ===================================================================== *)

Lemma sends_of_app (l1 l2 : list effect) :
  sends_of (l1 ++ l2) = (sends_of l1 ++ sends_of l2)%list.
Proof.
  induction l1 as [| e l1 IH]; [reflexivity |].
  destruct e; simpl; now rewrite ?IH.
Qed.

Lemma highsamp_sends (ev : event) (log : list effect)
  (h : M HighSamp.SpeechToText unit) (s : HighSamp.SpeechToText) :
  listener highsamp ev log = Some h ->
  sends_of (calls_of h s) =
  match ev with
  | MicData d readyState =>
      if isSome (HighSamp.connection s) && (readyState =? 1) then [d] else []
  | _ => []
  end.
Proof.
  intros Hl. apply listener_cases in Hl.
  destruct ev; subst h;
    cbn [highsamp onOpen onData onMicError onTranscript onError onClose
         onSIGINT].
  - reflexivity.
  - rewrite onData_calls.
    destruct (isSome (HighSamp.connection s) && (readyState =? 1));
      reflexivity.
  - reflexivity.
  - rewrite onTranscript_calls.
    destruct (text_of transcription); [| reflexivity].
    destruct (is_final transcription); [| reflexivity].
    destruct (elapsed now1 now2 s >? 0); reflexivity.
  - reflexivity.
  - unfold calls_of. rewrite onClose_result. cbn [snd]. rewrite stop_calls.
    destruct (isSome (HighSamp.micStream s)),
      (isSome (HighSamp.connection s)), (HighSamp.utteranceCount s >? 0);
      reflexivity.
  - unfold calls_of. rewrite onSIGINT_result. cbn [snd]. rewrite stop_calls.
    destruct (isSome (HighSamp.micStream s)),
      (isSome (HighSamp.connection s)), (HighSamp.utteranceCount s >? 0);
      reflexivity.
Qed.

Lemma before_sends (ev : event) (log : list effect)
  (h : M Before.SpeechToText unit) (s : Before.SpeechToText) :
  listener before ev log = Some h ->
  sends_of (calls_of h s) =
  match ev with
  | MicData d readyState =>
      if isSome (Before.connection s) && (readyState =? 1) then [d] else []
  | _ => []
  end.
Proof.
  intros Hl. apply listener_cases in Hl.
  destruct ev; subst h;
    cbn [before onOpen onData onMicError onTranscript onError onClose
         onSIGINT].
  - reflexivity.
  - rewrite before_onData_calls.
    destruct (isSome (Before.connection s) && (readyState =? 1));
      reflexivity.
  - reflexivity.
  - rewrite before_onTranscript_calls.
    destruct (text_of transcription); [| reflexivity].
    destruct (is_final transcription); reflexivity.
  - reflexivity.
  - unfold calls_of. rewrite before_onClose_result. cbn [snd].
    rewrite before_stop_calls.
    destruct (isSome (Before.micStream s)), (isSome (Before.connection s));
      reflexivity.
  - unfold calls_of. rewrite before_onSIGINT_result. cbn [snd].
    rewrite before_stop_calls.
    destruct (isSome (Before.micStream s)), (isSome (Before.connection s));
      reflexivity.
Qed.

Lemma listens_stream_resources (e : stream_event) (l : list effect) :
  listens_stream e (filter is_resource l) = listens_stream e l.
Proof.
  apply existsb_filter. intros []; (discriminate || reflexivity).
Qed.

Lemma listens_stream_stop_resources (e : stream_event) (a b : bool) :
  listens_stream e (stop_resources a b) = false.
Proof. destruct a, b; reflexivity. Qed.

Section Forwarding.

Variable P : Script.
Variable connected : object P -> bool.
Variable streaming : object P -> bool.

Hypothesis resources_of :
  forall ev log h s,
    listener P ev log = Some h ->
    filter is_resource (calls_of h s) =
    match ev with
    | OpenEvent =>
        [MicStartRecording; MicStreamOn Data; MicStreamOn StreamError]
    | CloseEvent => stop_resources (streaming s) (connected s)
    | SIGINT =>
        (stop_resources (streaming s) (connected s) ++ [ProcessExit None])%list
    | _ => []
    end.

Hypothesis state_of :
  forall ev log h s,
    listener P ev log = Some h ->
    streaming (state_after h s) =
    match ev with
    | OpenEvent => true
    | CloseEvent | SIGINT => false
    | _ => streaming s
    end /\
    connected (state_after h s) = connected s.

Hypothesis sends_of_listener :
  forall ev log h s,
    listener P ev log = Some h ->
    sends_of (calls_of h s) =
    match ev with
    | MicData d readyState =>
        if connected s && (readyState =? 1) then [d] else []
    | _ => []
    end.

Lemma fold_deliver_sends (evs : list event) (st : process P) :
  live P connected st ->
  exited (snd st) = false ->
  sends_of (snd (fold_left (deliver P) evs st))
  = (sends_of (snd st)
     ++ forwarded (listens_stream Data (snd st)) evs)%list.
Proof.
  revert st. induction evs as [| ev evs IH]; intros [s log] Hlive Hex.
  - cbn [fold_left forwarded]. now rewrite app_nil_r.
  - rewrite fold_deliver_cons. cbn [fst snd] in *.
    assert (Hconn : connected s = true) by apply Hlive.
    unfold deliver at 2. rewrite Hex.
    destruct (listener P ev log) as [h |] eqn:Hl.
    + pose proof (resources_of ev log h s Hl) as Hr.
      pose proof (sends_of_listener ev log h s Hl) as Hsend.
      pose proof (live_step P connected streaming state_of s log ev h
                    Hlive Hl) as Hlive'.
      assert (Hex' : exited (log ++ calls_of h s) = is_sigint ev).
      { rewrite exited_app, Hex, <- exited_resources, Hr. cbn [orb].
        destruct ev; try reflexivity.
        - apply exited_stop_resources.
        - rewrite exited_app, exited_stop_resources. reflexivity. }
      assert (Hlis : listens_stream Data (log ++ calls_of h s)
                     = listens_stream Data log || is_open ev).
      { unfold listens_stream at 1. rewrite existsb_app.
        fold (listens_stream Data log).
        fold (listens_stream Data (calls_of h s)).
        rewrite <- (listens_stream_resources Data (calls_of h s)), Hr.
        f_equal. destruct ev; try reflexivity.
        - apply listens_stream_stop_resources.
        - unfold listens_stream. rewrite existsb_app.
          fold (listens_stream Data
                  (stop_resources (streaming s) (connected s))).
          now rewrite listens_stream_stop_resources. }
      destruct (is_sigint ev) eqn:Hev.
      * destruct ev; try discriminate Hev.
        rewrite fold_deliver_exited by exact Hex'.
        cbn [snd forwarded]. rewrite sends_of_app, Hsend. reflexivity.
      * rewrite (IH _ Hlive' Hex'). cbn [fst snd].
        rewrite sends_of_app, Hsend, Hlis, <- app_assoc.
        destruct ev; try discriminate Hev;
          cbn [forwarded is_open app]; rewrite ?orb_false_r, ?orb_true_r;
          try reflexivity.
        cbn [listener] in Hl.
        destruct (listens_stream Data log); [| discriminate Hl].
        rewrite Hconn. reflexivity.
    + rewrite (IH _ Hlive Hex). cbn [fst snd].
      destruct ev; cbn [forwarded]; try reflexivity.
      * destruct (live_listener P connected (s, log) OpenEvent Hlive eq_refl)
          as (h & Hh). cbn [snd] in Hh. congruence.
      * cbn [listener] in Hl.
        destruct (listens_stream Data log); [discriminate Hl | reflexivity].
      * destruct (live_listener P connected (s, log) SIGINT Hlive eq_refl)
          as (h & Hh). cbn [snd] in Hh. congruence.
Qed.

End Forwarding.

(** X16. Once [start()] has opened the connection, in both scripts, the
    chunks sent to the connection over a run are exactly the chunks of the
    data events that arrive after the first Open event and before the first
    SIGINT with a ready state of 1, each once and in the order of arrival:
    no such chunk is dropped, and a chunk that meets another ready state is
    never sent later. *)
Theorem forwards_every_ready_chunk (evs : list event) :
  sends_of (snd (run highsamp None evs)) = forwarded false evs /\
  sends_of (snd (run before None evs)) = forwarded false evs.
Proof.
  split.
  - apply (fold_deliver_sends highsamp
             (fun s => isSome (HighSamp.connection s))
             (fun s => isSome (HighSamp.micStream s))
             highsamp_resources highsamp_state_of highsamp_sends
             evs (main highsamp None)).
    + repeat split.
    + reflexivity.
  - apply (fold_deliver_sends before
             (fun s => isSome (Before.connection s))
             (fun s => isSome (Before.micStream s))
             before_resources before_state_of before_sends
             evs (main before None)).
    + repeat split.
    + reflexivity.
Qed.
